(** * Command Usage Stats: the tracker of [command_tracker.py]

    A shallow embedding of class [CommandTracker]: the normalisation done by
    [log_command], the bounded history and its JSON file, the statistics of
    [get_stats], the grouped output of [search_commands] and the CSV branch
    of [export_stats].

    Conventions of the embedding.
    - A Python [str] is a list of characters.  The lines that are logged
      and searched hold the code points 0..255 (Rocq's [ascii], read as
      Latin-1); on that range the predicates below are exactly
      [str.isspace], the classes [\s] and [\d] of [re], and [str.lower].
      The strings of the JSON file are lists of code points of any value,
      surrogates included ([ustr]), and the history is persisted over
      them in module [Unicode].
    - A timestamp is read as a naive or as an aware datetime ([moment]),
      and the two are not ordered ([TypeError]).
    - [datetime.now()] is an argument of every operation that reads the
      clock.
    - What Python raises is returned as [Err]; files are values of the
      tracker state; what [print] writes is returned as a list of lines. *)

From Stdlib Require Import String Ascii List Bool Arith PeanoNat NArith ZArith Lia.
From Stdlib Require Import Permutation Sorted.
From Stdlib Require Import DecimalString.
From Stdlib Require DecimalFacts DecimalPos.
From Stdlib Require Import Floats.
Import ListNotations.

Set Implicit Arguments.
Set Warnings "-register-all,-abstract-large-number".

(* ================================================================== *)
(** ** Python strings *)

Definition str := list ascii.

(** A string literal. *)
Definition py (s : string) : str := list_ascii_of_string s.

Definition ord (c : ascii) : nat := nat_of_ascii c.
Definition chr (n : nat) : ascii := ascii_of_nat n.

(** [str.isspace] on one character, also the class [\s]. *)
Definition is_space (c : ascii) : bool :=
  let n := ord c in
  ((9 <=? n) && (n <=? 13)) || ((28 <=? n) && (n <=? 32))
  || (n =? 133) || (n =? 160).

(** The class [\d]. *)
Definition is_digit (c : ascii) : bool :=
  let n := ord c in (48 <=? n) && (n <=? 57).

(** [str.lower] on one character. *)
Definition lower_char (c : ascii) : ascii :=
  let n := ord c in
  if ((65 <=? n) && (n <=? 90))
     || ((192 <=? n) && (n <=? 222) && negb (n =? 215))
  then chr (n + 32) else c.

Definition lower (s : str) : str := map lower_char s.

Definition ascii_eqb (a b : ascii) : bool := Ascii.eqb a b.

Fixpoint str_eqb (a b : str) : bool :=
  match a, b with
  | [], [] => true
  | x :: a', y :: b' => ascii_eqb x y && str_eqb a' b'
  | _, _ => false
  end.

(** [a < b] on strings: lexicographic on code points. *)
Fixpoint str_ltb (a b : str) : bool :=
  match a, b with
  | _, [] => false
  | [], _ :: _ => true
  | x :: a', y :: b' =>
      if ord x <? ord y then true
      else if ord y <? ord x then false
      else str_ltb a' b'
  end.

Fixpoint startswith (p s : str) : bool :=
  match p, s with
  | [], _ => true
  | _ :: _, [] => false
  | x :: p', y :: s' => ascii_eqb x y && startswith p' s'
  end.

(** [q in s]: [q] occurs in [s] as a substring. *)
Fixpoint contains (q s : str) : bool :=
  startswith q s ||
  match s with
  | [] => false
  | _ :: s' => contains q s'
  end.

Fixpoint lstrip (s : str) : str :=
  match s with
  | [] => []
  | c :: r => if is_space c then lstrip r else s
  end.

Definition rstrip (s : str) : str := rev (lstrip (rev s)).

(** [s.strip()] *)
Definition strip (s : str) : str := rstrip (lstrip s).

(** [s.split()]: the maximal runs of non-whitespace characters. [tok] is
    the run being read, last character first. *)
Fixpoint split_from (tok : str) (s : str) : list str :=
  match s with
  | [] => match tok with [] => [] | _ => [rev tok] end
  | c :: r =>
      if is_space c
      then match tok with
           | [] => split_from [] r
           | _ => rev tok :: split_from [] r
           end
      else split_from (c :: tok) r
  end.

Definition split (s : str) : list str := split_from [] s.

(** ['sep'.join(parts)] *)
Fixpoint join (sep : str) (parts : list str) : str :=
  match parts with
  | [] => []
  | [p] => p
  | p :: rest => p ++ sep ++ join sep rest
  end.

(** [str(n)] for an integer. *)
Definition str_of_Z (n : Z) : str :=
  py (NilZero.string_of_int (Z.to_int n)).

Definition str_of_nat (n : nat) : str := str_of_Z (Z.of_nat n).

(** ['%0<w>d' % n] for a non-negative integer. *)
Definition zero_pad (w : nat) (n : Z) : str :=
  let d := str_of_Z n in
  repeat "0"%char (w - length d) ++ d.

(* ================================================================== *)
(** ** The regular expression of [log_command]

    [re.sub(r'^\s*\d+\s+', '', s)].  The pattern is a sequence of greedy
    repetitions of a character class, so the matcher is the backtracking
    one restricted to that shape: an item takes the longest run it can and
    gives characters back, one at a time and down to its minimum, until the
    rest of the pattern matches. *)

Record rep := Rep { rep_class : ascii -> bool; rep_min : nat }.

(** Length of the longest prefix of [s] inside the class. *)
Fixpoint run_length (p : ascii -> bool) (s : str) : nat :=
  match s with
  | c :: r => if p c then S (run_length p r) else 0
  | [] => 0
  end.

(** Try [k], [k-1], ..., [mn] characters for the current item. *)
Fixpoint backtrack (A : Type) (f : nat -> option A) (mn k : nat)
  : option A :=
  if k <? mn then None
  else match f k with
       | Some r => Some r
       | None => match k with
                 | 0 => None
                 | S k' => backtrack f mn k'
                 end
       end.

(** Match the items at the start of [s]; the result is what follows the
    match. *)
Fixpoint match_reps (items : list rep) (s : str) : option str :=
  match items with
  | [] => Some s
  | it :: rest =>
      backtrack (fun k => match_reps rest (skipn k s))
                (rep_min it) (run_length (rep_class it) s)
  end.

(** [^\s*\d+\s+] *)
Definition history_number : list rep :=
  [Rep is_space 0; Rep is_digit 1; Rep is_space 1].

(** [re.sub(r'^\s*\d+\s+', '', s)]: the pattern is anchored at the start of
    the string and a match is never empty, so at most one match is
    replaced. *)
Definition remove_history_number (s : str) : str :=
  match match_reps history_number s with
  | Some rest => rest
  | None => s
  end.

(* ================================================================== *)
(** ** Results and errors *)

Inductive error : Type :=
| JSONDecodeError   (* json.load: the text is not a JSON document *)
| OverflowError     (* timedelta or datetime out of range *)
| ValueError        (* fromisoformat: the string is not a datetime *)
| TypeError         (* an order between a naive and an aware datetime *)
| Unmodelled.       (* the run leaves the domain of this embedding *)

Inductive result (A : Type) : Type :=
| Ok (a : A)
| Err (e : error).
Arguments Err {A} e.

Definition bind (A B : Type) (r : result A) (k : A -> result B)
  : result B :=
  match r with
  | Ok a => k a
  | Err e => Err e
  end.

Notation "x <- r ;; k" := (bind r (fun x => k))
  (at level 61, r at next level, right associativity).
Notation "' p <- r ;; k" := (bind r (fun p => k))
  (at level 61, p pattern, r at next level, right associativity).


(* ================================================================== *)
(** ** [datetime]

    A naive [datetime] is its seven fields (Python checks their ranges when
    it builds one, see [valid_datetime]); the order is the one of the field
    tuples.  Ordinals are day numbers with 0001-01-01 as day 1, as in
    [datetime.py].  The clock, [datetime.now()], gives a naive datetime; a
    timestamp read from the file may also be an aware one, see [moment]. *)

Record datetime : Type := Datetime {
  year : Z; month : Z; day : Z;
  hour : Z; minute : Z; second : Z; microsecond : Z
}.

Local Open Scope Z_scope.

Definition is_leap (y : Z) : bool :=
  (y mod 4 =? 0) && (negb (y mod 100 =? 0) || (y mod 400 =? 0)).

Definition DAYS_IN_MONTH : list Z :=
  [-1; 31; 28; 31; 30; 31; 30; 31; 31; 30; 31; 30; 31].

Definition DAYS_BEFORE_MONTH : list Z :=
  [-1; 0; 31; 59; 90; 120; 151; 181; 212; 243; 273; 304; 334].

Definition table (t : list Z) (i : Z) : Z := nth (Z.to_nat i) t 0.

Definition days_in_month (y m : Z) : Z :=
  if (m =? 2) && is_leap y then 29 else table DAYS_IN_MONTH m.

Definition days_before_year (y : Z) : Z :=
  let y1 := y - 1 in y1 * 365 + y1 / 4 - y1 / 100 + y1 / 400.

Definition days_before_month (y m : Z) : Z :=
  table DAYS_BEFORE_MONTH m + (if (2 <? m) && is_leap y then 1 else 0).

Definition ymd2ord (y m d : Z) : Z :=
  days_before_year y + days_before_month y m + d.

Definition MAXORDINAL : Z := 3652059.
Definition DI400Y : Z := 146097.
Definition DI100Y : Z := 36524.
Definition DI4Y : Z := 1461.

(** [_ord2ymd] *)
Definition ord2ymd (n : Z) : Z * Z * Z :=
  let n := n - 1 in
  let n400 := n / DI400Y in let n := n mod DI400Y in
  let y := n400 * 400 + 1 in
  let n100 := n / DI100Y in let n := n mod DI100Y in
  let n4 := n / DI4Y in let n := n mod DI4Y in
  let n1 := n / 365 in let n := n mod 365 in
  let y := y + n100 * 100 + n4 * 4 + n1 in
  if (n1 =? 4) || (n100 =? 4) then (y - 1, 12, 31)
  else
    let leapyear := (n1 =? 3) && (negb (n4 =? 24) || (n100 =? 3)) in
    let m := Z.shiftr (n + 50) 5 in
    let preceding :=
      table DAYS_BEFORE_MONTH m + (if (2 <? m) && leapyear then 1 else 0) in
    if n <? preceding
    then
      let m := m - 1 in
      let preceding :=
        preceding
        - (table DAYS_IN_MONTH m + (if (m =? 2) && leapyear then 1 else 0)) in
      (y, m, n - preceding + 1)
    else (y, m, n - preceding + 1).

Definition toordinal (d : datetime) : Z :=
  ymd2ord (year d) (month d) (day d).

(** The field ranges the [datetime] constructor checks. *)
Definition valid_datetime (d : datetime) : bool :=
  (1 <=? year d) && (year d <=? 9999)
  && (1 <=? month d) && (month d <=? 12)
  && (1 <=? day d) && (day d <=? days_in_month (year d) (month d))
  && (0 <=? hour d) && (hour d <? 24)
  && (0 <=? minute d) && (minute d <? 60)
  && (0 <=? second d) && (second d <? 60)
  && (0 <=? microsecond d) && (microsecond d <? 1000000).

(** [d - timedelta(days=n)].  [timedelta] refuses more than 999999999
    days, the subtraction refuses a date outside 0001-01-01..9999-12-31;
    the time of day is kept. *)
Definition minus_days (d : datetime) (n : Z) : result datetime :=
  if 999999999 <? Z.abs n then Err OverflowError
  else
    let o := toordinal d - n in
    if (0 <? o) && (o <=? MAXORDINAL)
    then
      let '(y, m, dd) := ord2ymd o in
      Ok (Datetime y m dd (hour d) (minute d) (second d) (microsecond d))
    else Err OverflowError.

Fixpoint lex_compare (a b : list Z) : comparison :=
  match a, b with
  | [], [] => Eq
  | [], _ :: _ => Lt
  | _ :: _, [] => Gt
  | x :: a', y :: b' =>
      match x ?= y with
      | Eq => lex_compare a' b'
      | c => c
      end
  end.

Definition dt_tuple (d : datetime) : list Z :=
  [year d; month d; day d; hour d; minute d; second d; microsecond d].

Definition dt_compare (a b : datetime) : comparison :=
  lex_compare (dt_tuple a) (dt_tuple b).

(** [a > b] and [a >= b] on datetimes *)
Definition dt_gtb (a b : datetime) : bool :=
  match dt_compare a b with Gt => true | _ => false end.
Definition dt_geb (a b : datetime) : bool :=
  match dt_compare a b with Lt => false | _ => true end.

(** A [datetime] object: a naive one, or an aware one, whose [tzinfo] is a
    [timezone] at a fixed offset from UTC, here in minutes. *)
Inductive moment : Type :=
| Naive (d : datetime)
| Aware (d : datetime) (utcoffset : Z).

Definition fields (m : moment) : datetime :=
  match m with
  | Naive d => d
  | Aware d _ => d
  end.

(** What the constructors check: the ranges of the fields, and an offset
    strictly between minus and plus 24 hours. *)
Definition valid_moment (m : moment) : bool :=
  valid_datetime (fields m)
  && match m with
     | Naive _ => true
     | Aware _ off => (-1440 <? off) && (off <? 1440)
     end.

(** The microseconds from the start of day 0 at UTC to the datetime with
    these fields at this offset, as [datetime.__sub__] counts them. *)
Definition instant (d : datetime) (off : Z) : Z :=
  (((toordinal d * 24 + hour d) * 60 + minute d - off) * 60 + second d)
  * 1000000 + microsecond d.

(** The order of two datetimes: the order of the fields between two naive
    ones and between two aware ones at the same offset, the order of the
    instants between two aware ones at different offsets, and [TypeError]
    between a naive and an aware one. *)
Definition moment_compare (a b : moment) : result comparison :=
  match a, b with
  | Naive x, Naive y => Ok (dt_compare x y)
  | Aware x ox, Aware y oy =>
      Ok (if ox =? oy then dt_compare x y
          else instant x ox ?= instant y oy)
  | _, _ => Err TypeError
  end.

(** [a > b] and [a >= b] on datetime objects *)
Definition dt_gt (a b : moment) : result bool :=
  c <- moment_compare a b;;
  Ok (match c with Gt => true | _ => false end).
Definition dt_ge (a b : moment) : result bool :=
  c <- moment_compare a b;;
  Ok (match c with Lt => false | _ => true end).

(** The date and the time of [isoformat]. *)
Definition naive_isoformat (d : datetime) : str :=
  zero_pad 4 (year d) ++ py "-" ++ zero_pad 2 (month d) ++ py "-"
  ++ zero_pad 2 (day d) ++ py "T" ++ zero_pad 2 (hour d) ++ py ":"
  ++ zero_pad 2 (minute d) ++ py ":" ++ zero_pad 2 (second d)
  ++ (if microsecond d =? 0 then []
      else py "." ++ zero_pad 6 (microsecond d)).

(** The offset of [isoformat]: a sign, hours and minutes. *)
Definition format_offset (off : Z) : str :=
  (if off <? 0 then py "-" else py "+")
  ++ zero_pad 2 (Z.abs off / 60) ++ py ":" ++ zero_pad 2 (Z.abs off mod 60).

(** [d.isoformat()] *)
Definition isoformat (m : moment) : str :=
  match m with
  | Naive d => naive_isoformat d
  | Aware d off => naive_isoformat d ++ format_offset off
  end.

(** The number written by a string of decimal digits. *)
Fixpoint digits_value (acc : Z) (s : str) : option Z :=
  match s with
  | [] => Some acc
  | c :: r =>
      if is_digit c
      then digits_value (acc * 10 + (Z.of_nat (ord c) - 48)) r
      else None
  end.

Definition number (s : str) : option Z :=
  match s with
  | [] => None
  | _ => digits_value 0 s
  end.

(** The end of a timestamp: nothing, or an offset [+HH:MM] or [-HH:MM].
    [Some None] is no offset, [Some (Some (h, m))] the signed hours and
    minutes read. *)
Definition read_offset (s : str) : option (option (Z * Z * Z)) :=
  match s with
  | [] => Some None
  | [sg; o1; o2; c; o3; o4] =>
      if (ascii_eqb sg "+"%char || ascii_eqb sg "-"%char)
         && ascii_eqb c ":"%char
      then match number [o1; o2], number [o3; o4] with
           | Some h, Some m =>
               Some (Some (if ascii_eqb sg "-"%char then -1 else 1, h, m))
           | _, _ => None
           end
      else None
  | _ => None
  end.

(** The fraction of a second at the start of [rest], in microseconds, and
    what follows it: a point and six digits, or no fraction. *)
Definition read_fraction (rest : str) : option Z * str :=
  match rest with
  | c6 :: f1 :: f2 :: f3 :: f4 :: f5 :: f6 :: tz =>
      if ascii_eqb c6 "."%char
      then (number [f1; f2; f3; f4; f5; f6], tz)
      else (Some 0, rest)
  | _ => (Some 0, rest)
  end.

(** [datetime.fromisoformat(s)], on the form [YYYY-MM-DD*HH:MM:SS] with
    any one character for [*], an optional [.ffffff] and an optional
    offset [+HH:MM] or [-HH:MM]: what [isoformat] writes, with another
    separator allowed.  A string of that form is a datetime, or raises
    [ValueError] when a field or the offset is out of range; so does every
    string of fewer than 7 characters.  Left out of the embedding
    ([Unmodelled]) are the strings on which the versions of Python differ
    (an hour of 24, minutes of 60 or more in the offset) and every other
    string: Python raises [ValueError] or reads a further ISO 8601 form. *)
Definition fromisoformat (s : str) : result moment :=
  if (List.length s <? 7)%nat then Err ValueError
  else
  match s with
  | y1 :: y2 :: y3 :: y4 :: c1 :: m1 :: m2 :: c2 :: d1 :: d2 :: _
    :: h1 :: h2 :: c4 :: n1 :: n2 :: c5 :: s1 :: s2 :: rest =>
      let '(us, tz) := read_fraction rest in
      if str_eqb [c1; c2; c4; c5] (py "--::")
      then
        match number [y1; y2; y3; y4], number [m1; m2], number [d1; d2],
              number [h1; h2], number [n1; n2], number [s1; s2], us,
              read_offset tz with
        | Some y, Some m, Some d, Some h, Some n, Some sec, Some u,
          Some off =>
            let dt := Datetime y m d h n sec u in
            if h =? 24 then Err Unmodelled
            else
              match off with
              | None =>
                  if valid_datetime dt then Ok (Naive dt)
                  else Err ValueError
              | Some (sign, oh, om) =>
                  if 60 <=? om then Err Unmodelled
                  else if valid_datetime dt && (oh <? 24)
                  then Ok (Aware dt (sign * (oh * 60 + om)))
                  else Err ValueError
              end
        | _, _, _, _, _, _, _, _ => Err Unmodelled
        end
      else Err Unmodelled
  | _ => Err Unmodelled
  end.

Local Close Scope Z_scope.

(* ================================================================== *)
(** ** JSON: [json.dump(obj, f, indent=2)] and [json.load(f)]

    The documents of the embedding are built from strings, lists, objects
    and the three literals; a number in a document is [Unmodelled].

    The strings of a document are Python strings over all of Unicode: a
    [ustr] is a list of code points, the surrogates U+D800..U+DFFF among
    them, as in a Python [str].  The text of a document is a [str]. *)

Definition ustr := list N.

(** The code point of a character, and a string as its code points. *)
Definition code (c : ascii) : N := N.of_nat (ord c).

Definition widen (s : str) : ustr := map code s.

(** The string of a list of code points that are all below 256. *)
Fixpoint narrow (u : ustr) : option str :=
  match u with
  | [] => Some []
  | n :: r =>
      if (n <? 256)%N
      then match narrow r with
           | Some s => Some (chr (N.to_nat n) :: s)
           | None => None
           end
      else None
  end.

Fixpoint ustr_eqb (a b : ustr) : bool :=
  match a, b with
  | [], [] => true
  | x :: a', y :: b' => (x =? y)%N && ustr_eqb a' b'
  | _, _ => false
  end.

Inductive json : Type :=
| JNull
| JBool (b : bool)
| JStr (s : ustr)
| JArr (items : list json)
| JObj (members : list (ustr * json)).

Definition quote : ascii := chr 34.
Definition backslash : ascii := chr 92.

Definition hex_digit (n : N) : ascii :=
  nth (N.to_nat n) (py "0123456789abcdef") "0"%char.

Local Open Scope N_scope.

(** ['{0:04x}'.format(n)] for [n] below 65536 *)
Definition hex4_text (n : N) : str :=
  [hex_digit (n / 4096); hex_digit (n / 256 mod 16);
   hex_digit (n / 16 mod 16); hex_digit (n mod 16)].

(** The two halves of the surrogate pair that stands for a code point
    above U+FFFF. *)
Definition high_surrogate (c : N) : N := 55296 + (c - 65536) / 1024.
Definition low_surrogate (c : N) : N := 56320 + (c - 65536) mod 1024.

(** One character of a string literal, as [ensure_ascii=True] writes it:
    short escapes, the printable ASCII characters as they are, [\uxxxx]
    for every other character up to U+FFFF, and the two escapes of its
    surrogate pair for a character beyond. *)
Definition escape_char (c : N) : str :=
  if c =? 34 then [backslash; quote]
  else if c =? 92 then [backslash; backslash]
  else if c =? 10 then [backslash; "n"%char]
  else if c =? 13 then [backslash; "r"%char]
  else if c =? 9 then [backslash; "t"%char]
  else if c =? 8 then [backslash; "b"%char]
  else if c =? 12 then [backslash; "f"%char]
  else if (32 <=? c) && (c <=? 126) then [chr (N.to_nat c)]
  else if c <? 65536 then backslash :: "u"%char :: hex4_text c
  else backslash :: "u"%char :: hex4_text (high_surrogate c)
       ++ backslash :: "u"%char :: hex4_text (low_surrogate c).

Local Close Scope N_scope.

Definition encode_string (s : ustr) : str :=
  quote :: flat_map escape_char s ++ [quote].

Definition newline : ascii := chr 10.

(** A line break followed by the indentation of [level]. *)
Definition newline_indent (level : nat) : str :=
  newline :: repeat " "%char (2 * level).

(** The text [json.dump] writes for a value that starts at nesting depth
    [level]. *)
Fixpoint encode (level : nat) (v : json) {struct v} : str :=
  match v with
  | JNull => py "null"
  | JBool true => py "true"
  | JBool false => py "false"
  | JStr s => encode_string s
  | JArr [] => py "[]"
  | JArr (x :: xs) =>
      py "[" ++ newline_indent (S level) ++ encode (S level) x
      ++ (fix items (l : list json) : str :=
            match l with
            | [] => []
            | y :: r =>
                py "," ++ newline_indent (S level) ++ encode (S level) y
                ++ items r
            end) xs
      ++ newline_indent level ++ py "]"
  | JObj [] => py "{}"
  | JObj ((k, x) :: ms) =>
      py "{" ++ newline_indent (S level) ++ encode_string k ++ py ": "
      ++ encode (S level) x
      ++ (fix members (l : list (ustr * json)) : str :=
            match l with
            | [] => []
            | (k', y) :: r =>
                py "," ++ newline_indent (S level) ++ encode_string k'
                ++ py ": " ++ encode (S level) y ++ members r
            end) ms
      ++ newline_indent level ++ py "}"
  end.

(** [json.dumps(v, indent=2)] *)
Definition dumps (v : json) : str := encode 0 v.

Definition hex_value (c : ascii) : option N :=
  let n := ord c in
  if (48 <=? n) && (n <=? 57) then Some (N.of_nat (n - 48))
  else if (97 <=? n) && (n <=? 102) then Some (N.of_nat (n - 87))
  else if (65 <=? n) && (n <=? 70) then Some (N.of_nat (n - 55))
  else None.

Definition hex4 (a b c d : ascii) : option N :=
  match hex_value a, hex_value b, hex_value c, hex_value d with
  | Some x, Some y, Some z, Some w =>
      Some (((x * 16 + y) * 16 + z) * 16 + w)%N
  | _, _, _, _ => None
  end.

(** The character a one-letter escape stands for. *)
Definition unescape (e : ascii) : option N :=
  let n := ord e in
  if n =? 34 then Some 34%N
  else if n =? 92 then Some 92%N
  else if n =? 47 then Some 47%N
  else if n =? 98 then Some 8%N
  else if n =? 102 then Some 12%N
  else if n =? 110 then Some 10%N
  else if n =? 114 then Some 13%N
  else if n =? 116 then Some 9%N
  else None.

(** U+D800..U+DBFF and U+DC00..U+DFFF *)
Definition is_high_surrogate (n : N) : bool :=
  ((55296 <=? n) && (n <=? 56319))%N.
Definition is_low_surrogate (n : N) : bool :=
  ((56320 <=? n) && (n <=? 57343))%N.

(** The code point a surrogate pair stands for. *)
Definition join_surrogates (hi lo : N) : N :=
  (65536 + ((hi - 55296) * 1024 + (lo - 56320)))%N.

(** [scanstring]: read a string literal whose opening quote has been
    consumed; the result is the string and the text after the closing
    quote.  A [\uXXXX] that is a high surrogate and is followed by a
    [\uXXXX] that is a low surrogate is read, with it, as the one character
    of the pair; any other [\uXXXX] is the code point it names. *)
Fixpoint scanstring (s : str) : result (ustr * str) :=
  match s with
  | [] => Err JSONDecodeError
  | c :: r =>
      if ord c =? 34 then Ok ([], r)
      else if ord c =? 92 then
        match r with
        | [] => Err JSONDecodeError
        | e :: r1 =>
            if ord e =? 117 then
              match r1 with
              | h1 :: h2 :: h3 :: h4 :: r2 =>
                  match hex4 h1 h2 h3 h4 with
                  | None => Err JSONDecodeError
                  | Some n =>
                      match r2 with
                      | b :: u :: g1 :: g2 :: g3 :: g4 :: r3 =>
                          if is_high_surrogate n && (ord b =? 92)
                             && (ord u =? 117)
                          then
                            match hex4 g1 g2 g3 g4 with
                            | None => Err JSONDecodeError
                            | Some n2 =>
                                if is_low_surrogate n2
                                then '(x, rest) <- scanstring r3;;
                                     Ok (join_surrogates n n2 :: x, rest)
                                else '(x, rest) <- scanstring r2;;
                                     Ok (n :: x, rest)
                            end
                          else '(x, rest) <- scanstring r2;;
                               Ok (n :: x, rest)
                      | _ => '(x, rest) <- scanstring r2;; Ok (n :: x, rest)
                      end
                  end
              | _ => Err JSONDecodeError
              end
            else
              match unescape e with
              | Some ch => '(x, rest) <- scanstring r1;; Ok (ch :: x, rest)
              | None => Err JSONDecodeError
              end
        end
      else if ord c <? 32 then Err JSONDecodeError
      else '(x, rest) <- scanstring r;; Ok (code c :: x, rest)
  end.

(** The decoder's whitespace: space, tab, line feed, carriage return. *)
Definition is_json_ws (c : ascii) : bool :=
  let n := ord c in (n =? 32) || (n =? 9) || (n =? 10) || (n =? 13).

Fixpoint skip_ws (s : str) : str :=
  match s with
  | c :: r => if is_json_ws c then skip_ws r else s
  | [] => []
  end.

(** The scanner of [json.decoder]: [scan_once] reads one value,
    [JSONArray] and [JSONObject] read what follows an opening bracket or
    brace.  [fuel] bounds the depth of the calls; running out of it is
    [Unmodelled] ([loads] gives enough for every text). *)
Fixpoint scan_once (fuel : nat) (s : str) : result (json * str) :=
  match fuel with
  | O => Err Unmodelled
  | S fuel' =>
      match s with
      | [] => Err JSONDecodeError
      | c :: r =>
          if ord c =? 34 then '(x, r') <- scanstring r;; Ok (JStr x, r')
          else if ord c =? 123 then JSONObject fuel' r
          else if ord c =? 91 then JSONArray fuel' r
          else if startswith (py "null") s then Ok (JNull, skipn 4 s)
          else if startswith (py "true") s then Ok (JBool true, skipn 4 s)
          else if startswith (py "false") s then Ok (JBool false, skipn 5 s)
          else if is_digit c || (ord c =? 45) || startswith (py "NaN") s
                  || startswith (py "Infinity") s
          then Err Unmodelled
          else Err JSONDecodeError
      end
  end

with JSONArray (fuel : nat) (s : str) : result (json * str) :=
  match fuel with
  | O => Err Unmodelled
  | S fuel' =>
      match skip_ws s with
      | [] => Err JSONDecodeError
      | c :: r =>
          if ord c =? 93 then Ok (JArr [], r)
          else '(vs, r') <- array_items fuel' (c :: r);; Ok (JArr vs, r')
      end
  end

with array_items (fuel : nat) (s : str) : result (list json * str) :=
  match fuel with
  | O => Err Unmodelled
  | S fuel' =>
      '(v, r) <- scan_once fuel' s;;
      match skip_ws r with
      | [] => Err JSONDecodeError
      | c :: r1 =>
          if ord c =? 93 then Ok ([v], r1)
          else if ord c =? 44
          then '(vs, r2) <- array_items fuel' (skip_ws r1);;
               Ok (v :: vs, r2)
          else Err JSONDecodeError
      end
  end

with JSONObject (fuel : nat) (s : str) : result (json * str) :=
  match fuel with
  | O => Err Unmodelled
  | S fuel' =>
      match skip_ws s with
      | [] => Err JSONDecodeError
      | c :: r =>
          if ord c =? 125 then Ok (JObj [], r)
          else if ord c =? 34
          then '(ms, r') <- object_members fuel' r;; Ok (JObj ms, r')
          else Err JSONDecodeError
      end
  end

(** [s] starts after the opening quote of a key. *)
with object_members (fuel : nat) (s : str)
  : result (list (ustr * json) * str) :=
  match fuel with
  | O => Err Unmodelled
  | S fuel' =>
      '(k, r) <- scanstring s;;
      match skip_ws r with
      | [] => Err JSONDecodeError
      | c :: r1 =>
          if ord c =? 58
          then
            '(v, r2) <- scan_once fuel' (skip_ws r1);;
            match skip_ws r2 with
            | [] => Err JSONDecodeError
            | c' :: r3 =>
                if ord c' =? 125 then Ok ([(k, v)], r3)
                else if ord c' =? 44
                then
                  match skip_ws r3 with
                  | [] => Err JSONDecodeError
                  | q :: r4 =>
                      if ord q =? 34
                      then '(ms, r5) <- object_members fuel' r4;;
                           Ok ((k, v) :: ms, r5)
                      else Err JSONDecodeError
                  end
                else Err JSONDecodeError
            end
          else Err JSONDecodeError
      end
  end.

(** [json.loads(s)]: one value, with whitespace around it and nothing
    else. *)
Definition loads (s : str) : result json :=
  '(v, r) <- scan_once (3 * length s + 3) (skip_ws s);;
  match skip_ws r with
  | [] => Ok v
  | _ :: _ => Err JSONDecodeError
  end.

(* ================================================================== *)
(** ** Dictionaries, counters and sorting

    A [dict] keeps its keys in insertion order, which is the order
    [items()] and a stable sort see. *)

Section Dict.
Variable V : Type.

Definition dict : Type := list (str * V).

Fixpoint dict_get (k : str) (d : dict) : option V :=
  match d with
  | [] => None
  | (k', v) :: r => if str_eqb k k' then Some v else dict_get k r
  end.

(** [d[k] = v]: a present key keeps its place, a new key goes last. *)
Fixpoint dict_set (k : str) (v : V) (d : dict) : dict :=
  match d with
  | [] => [(k, v)]
  | (k', v') :: r =>
      if str_eqb k k' then (k', v) :: r else (k', v') :: dict_set k v r
  end.

Definition dict_keys (d : dict) : list str := map fst d.
End Dict.

(** [Counter(xs)]: [c[x] = c.get(x, 0) + 1] for each element in turn. *)
Definition count_elements (c : dict nat) (xs : list str) : dict nat :=
  fold_left
    (fun c x =>
       dict_set x (match dict_get x c with Some n => n | None => 0 end + 1) c)
    xs c.

Definition Counter (xs : list str) : dict nat := count_elements [] xs.

Section Sorted.
Variable A : Type.
Variable key : A -> nat.

(** [x] precedes the sorted [l] in the input: it goes before the first
    element whose key is not greater. *)
Fixpoint insert_desc (x : A) (l : list A) : list A :=
  match l with
  | [] => [x]
  | y :: r => if key x <? key y then y :: insert_desc x r else x :: l
  end.

(** [sorted(l, key=key, reverse=True)]: stable, greatest key first. *)
Fixpoint sorted_desc (l : list A) : list A :=
  match l with
  | [] => []
  | x :: r => insert_desc x (sorted_desc r)
  end.
End Sorted.

Fixpoint insert_str (x : str) (l : list str) : list str :=
  match l with
  | [] => [x]
  | y :: r => if str_ltb y x then y :: insert_str x r else x :: l
  end.

(** [sorted(l)] on strings *)
Fixpoint sorted_str (l : list str) : list str :=
  match l with
  | [] => []
  | x :: r => insert_str x (sorted_str r)
  end.

Fixpoint mem_str (x : str) (l : list str) : bool :=
  match l with
  | [] => false
  | y :: r => str_eqb x y || mem_str x r
  end.

(** The elements of [set(l)], each once. *)
Fixpoint set_of (l : list str) : list str :=
  match l with
  | [] => []
  | x :: r => if mem_str x r then set_of r else x :: set_of r
  end.

(* ================================================================== *)
(** ** The tracker *)

(** One element of [self.commands]: a dict of four strings. *)
Record entry : Type := Entry {
  command : str;
  base_command : str;
  timestamp : str;
  full_command : str
}.

(** [commands] is [self.commands]; [commands_file] is the content of
    [commands.json], [None] while the file does not exist. *)
Record tracker : Type := Tracker {
  commands : list entry;
  commands_file : option str
}.

Definition entry_to_json (e : entry) : json :=
  JObj [(widen (py "command"), JStr (widen (command e)));
        (widen (py "base_command"), JStr (widen (base_command e)));
        (widen (py "timestamp"), JStr (widen (timestamp e)));
        (widen (py "full_command"), JStr (widen (full_command e)))].

Definition commands_to_json (cs : list entry) : json :=
  JArr (map entry_to_json cs).

(** The entry a document stands for.  A string with a character beyond
    U+00FF is not a string of the embedding ([Unmodelled]; see [Unicode]
    for the file operations on all strings). *)
Definition json_to_entry (v : json) : result entry :=
  match v with
  | JObj [(k1, JStr a); (k2, JStr b); (k3, JStr c); (k4, JStr d)] =>
      if ustr_eqb k1 (widen (py "command"))
         && ustr_eqb k2 (widen (py "base_command"))
         && ustr_eqb k3 (widen (py "timestamp"))
         && ustr_eqb k4 (widen (py "full_command"))
      then
        match narrow a, narrow b, narrow c, narrow d with
        | Some a', Some b', Some c', Some d' => Ok (Entry a' b' c' d')
        | _, _, _, _ => Err Unmodelled
        end
      else Err Unmodelled
  | _ => Err Unmodelled
  end.

Fixpoint json_to_entries (l : list json) : result (list entry) :=
  match l with
  | [] => Ok []
  | v :: r =>
      e <- json_to_entry v;; es <- json_to_entries r;; Ok (e :: es)
  end.

(** The history a document stands for.  A document that is not a list of
    such entries is valid for [json.load], and [Unmodelled] here. *)
Definition json_to_commands (v : json) : result (list entry) :=
  match v with
  | JArr l => json_to_entries l
  | _ => Err Unmodelled
  end.

(** [load_commands] *)
Definition load_commands (t : tracker) : result tracker :=
  match commands_file t with
  | Some text =>
      v <- loads text;;
      cs <- json_to_commands v;;
      Ok (Tracker cs (commands_file t))
  | None => Ok (Tracker [] (commands_file t))
  end.

(** [CommandTracker(data_dir)], for a directory whose [commands.json] has
    the content [file]. *)
Definition init (file : option str) : result tracker :=
  load_commands (Tracker [] file).

(** How a write to the file may fail: [open(path, 'w')] raises before the
    file is touched, or the file has been opened, hence emptied, and the
    write raises when [n] characters of the text have reached it. *)
Inductive fault : Type :=
| NoFault
| OpenFails
| WriteFails (n : nat).

(** [save_commands]: [open(self.commands_file, 'w')] empties the file,
    [json.dump] writes the text to it from left to right. *)
Definition save_commands_io (f : fault) (t : tracker) : tracker :=
  let text := dumps (commands_to_json (commands t)) in
  match f with
  | NoFault => Tracker (commands t) (Some text)
  | OpenFails => t
  | WriteFails n => Tracker (commands t) (Some (firstn n text))
  end.

Definition save_commands (t : tracker) : tracker :=
  save_commands_io NoFault t.

(** The file operations on a history whose strings are any Python strings.
    [load_commands] and [save_commands] do not look into the strings, so
    they are the same functions over entries of [ustr]; the tracker above
    is their restriction to the strings up to U+00FF. *)
Module Unicode.

Record entry : Type := Entry {
  command : ustr;
  base_command : ustr;
  timestamp : ustr;
  full_command : ustr
}.

Record tracker : Type := Tracker {
  commands : list entry;
  commands_file : option str
}.

Definition entry_to_json (e : entry) : json :=
  JObj [(widen (py "command"), JStr (command e));
        (widen (py "base_command"), JStr (base_command e));
        (widen (py "timestamp"), JStr (timestamp e));
        (widen (py "full_command"), JStr (full_command e))].

Definition commands_to_json (cs : list entry) : json :=
  JArr (map entry_to_json cs).

Definition json_to_entry (v : json) : result entry :=
  match v with
  | JObj [(k1, JStr a); (k2, JStr b); (k3, JStr c); (k4, JStr d)] =>
      if ustr_eqb k1 (widen (py "command"))
         && ustr_eqb k2 (widen (py "base_command"))
         && ustr_eqb k3 (widen (py "timestamp"))
         && ustr_eqb k4 (widen (py "full_command"))
      then Ok (Entry a b c d)
      else Err Unmodelled
  | _ => Err Unmodelled
  end.

Fixpoint json_to_entries (l : list json) : result (list entry) :=
  match l with
  | [] => Ok []
  | v :: r =>
      e <- json_to_entry v;; es <- json_to_entries r;; Ok (e :: es)
  end.

Definition json_to_commands (v : json) : result (list entry) :=
  match v with
  | JArr l => json_to_entries l
  | _ => Err Unmodelled
  end.

(** [load_commands] *)
Definition load_commands (t : tracker) : result tracker :=
  match commands_file t with
  | Some text =>
      v <- loads text;;
      cs <- json_to_commands v;;
      Ok (Tracker cs (commands_file t))
  | None => Ok (Tracker [] (commands_file t))
  end.

(** [save_commands] *)
Definition save_commands (t : tracker) : tracker :=
  Tracker (commands t) (Some (dumps (commands_to_json (commands t)))).

End Unicode.

(** An entry of the tracker as an entry over all strings. *)
Definition widen_entry (e : entry) : Unicode.entry :=
  Unicode.Entry (widen (command e)) (widen (base_command e))
                (widen (timestamp e)) (widen (full_command e)).

Definition MAX_COMMANDS : nat := 10000.

(** [l[-n:]] for [n > 0] *)
Definition last_n (A : Type) (n : nat) (l : list A) : list A :=
  skipn (length l - n) l.

(** [log_command], with the clock reading [now] and the fault, if any, of
    its write. *)
Definition log_command_io (f : fault) (t : tracker) (command_line : str)
    (now : datetime) : tracker :=
  let command_line := strip command_line in
  let command := remove_history_number command_line in
  let command := strip command in
  match command with
  | [] => t
  | _ :: _ =>
      let base_command :=
        match split command with
        | w :: _ => w
        | [] => command
        end in
      let entry :=
        Entry command base_command (isoformat (Naive now)) command_line in
      let cs := commands t ++ [entry] in
      let cs := if MAX_COMMANDS <? length cs then last_n MAX_COMMANDS cs
                else cs in
      save_commands_io f (Tracker cs (commands_file t))
  end.

Definition log_command (t : tracker) (command_line : str) (now : datetime)
  : tracker :=
  log_command_io NoFault t command_line now.

(* ================================================================== *)
(** ** [get_stats] *)

Record stats : Type := Stats {
  total_commands : nat;
  unique_base_commands : nat;
  base_command_counts : dict nat;
  full_command_counts : dict nat;
  last_used : dict str;
  period_days : option Z
}.

(** [[c for c in cs if datetime.fromisoformat(c['timestamp']) >= cutoff]] *)
Fixpoint commands_since (cutoff : datetime) (cs : list entry)
  : result (list entry) :=
  match cs with
  | [] => Ok []
  | c :: r =>
      ts <- fromisoformat (timestamp c);;
      keep <- dt_ge ts (Naive cutoff);;
      rest <- commands_since cutoff r;;
      Ok (if keep then c :: rest else rest)
  end.

(** The loop that fills [last_used]. *)
Fixpoint last_used_loop (last : dict moment) (cs : list entry)
  : result (dict moment) :=
  match cs with
  | [] => Ok last
  | cmd :: r =>
      let base := base_command cmd in
      ts <- fromisoformat (timestamp cmd);;
      match dict_get base last with
      | None => last_used_loop (dict_set base ts last) r
      | Some old =>
          gt <- dt_gt ts old;;
          if gt then last_used_loop (dict_set base ts last) r
          else last_used_loop last r
      end
  end.

(** [get_stats].  [if days:] is false for [None] and for 0. *)
Definition get_stats (t : tracker) (now : datetime) (days : option Z)
  : result stats :=
  commands_to_analyze <-
    match days with
    | None => Ok (commands t)
    | Some d =>
        if (d =? 0)%Z then Ok (commands t)
        else cutoff <- minus_days now d;;
             commands_since cutoff (commands t)
    end;;
  let base_command_counts := Counter (map base_command commands_to_analyze) in
  let full_command_counts := Counter (map command commands_to_analyze) in
  last <- last_used_loop [] commands_to_analyze;;
  Ok (Stats (length commands_to_analyze)
            (length base_command_counts)
            base_command_counts
            full_command_counts
            (map (fun kv => (fst kv, isoformat (snd kv))) last)
            days).

(* ================================================================== *)
(** ** [search_commands]

    The lines the method prints, one string for each call of [print]. *)

Definition matches (query : str) (c : entry) : bool :=
  contains (lower query) (lower (command c))
  || contains (lower query) (lower (base_command c)).

(** The loop that fills [grouped]. *)
Definition group_by_base (matching : list entry) : dict (list entry) :=
  fold_left
    (fun grouped cmd =>
       let base := base_command cmd in
       match dict_get base grouped with
       | None => dict_set base [cmd] grouped
       | Some cmds => dict_set base (cmds ++ [cmd]) grouped
       end)
    matching [].

(** [sorted(grouped.items(), key=lambda x: len(x[1]), reverse=True)] *)
Definition search_groups (t : tracker) (query : str)
  : list (str * list entry) :=
  sorted_desc (fun g => length (snd g))
              (group_by_base (filter (matches query) (commands t))).

(** [sorted(unique_commands)] for one group *)
Definition unique_sorted (cmds : list entry) : list str :=
  sorted_str (set_of (map command cmds)).

(** What the body of the loop over the groups prints for one group. *)
Definition group_lines (g : str * list entry) : list str :=
  let unique_commands := unique_sorted (snd g) in
  [newline :: fst g ++ py " (" ++ str_of_nat (length (snd g))
   ++ py " occurrences):"]
  ++ map (fun full_cmd => py "  " ++ full_cmd) (firstn 5 unique_commands)
  ++ (if 5 <? length unique_commands
      then [py "  ... and " ++ str_of_nat (length unique_commands - 5)
            ++ py " more"]
      else []).

Definition search_commands (t : tracker) (query : str) : list str :=
  match filter (matches query) (commands t) with
  | [] => [py "No commands found matching '" ++ query ++ py "'"]
  | _ :: _ =>
      [newline :: py "Commands matching '" ++ query ++ py "':";
       repeat "="%char 70]
      ++ flat_map group_lines (search_groups t query)
  end.

(* ================================================================== *)
(** ** [export_stats], the CSV format

    Percentages are binary64 numbers, as in Python; a count is converted
    exactly (counts stay far below 2^53). *)

Definition float_of_nat (n : nat) : float :=
  PrimFloat.of_uint63 (Uint63.of_Z (Z.of_nat n)).

(** [(count / total * 100) if total > 0 else 0] *)
Definition percentage (count total : nat) : float :=
  if 0 <? total
  then PrimFloat.mul (PrimFloat.div (float_of_nat count) (float_of_nat total))
                     (float_of_nat 100)
  else float_of_nat 0.

(** [num / den] rounded to the nearest integer, a tie to the even one. *)
Definition round_half_even (num den : Z) : Z :=
  let q := (num / den)%Z in
  let r := (num mod den)%Z in
  if (2 * r <? den)%Z then q
  else if (den <? 2 * r)%Z then (q + 1)%Z
  else if Z.even q then q else (q + 1)%Z.

(** [f'{x:.2f}']: the decimal with two fractional digits nearest to the
    exact value of [x]. *)
Definition format_2f (x : float) : str :=
  match Prim2SF x with
  | S754_zero s => (if s then py "-" else []) ++ py "0.00"
  | S754_infinity s => (if s then py "-" else []) ++ py "inf"
  | S754_nan => py "nan"
  | S754_finite s m e =>
      let hundredths :=
        if (0 <=? e)%Z then (Zpos m * 2 ^ e * 100)%Z
        else round_half_even (Zpos m * 100) (2 ^ (- e)) in
      (if s then py "-" else [])
      ++ str_of_Z (hundredths / 100) ++ py "."
      ++ zero_pad 2 (hundredths mod 100)
  end.

(** One line of the table: no quoting, the values joined by commas. *)
Definition csv_row (s : stats) (item : str * nat) : str :=
  let cmd := fst item in
  let count := snd item in
  let last := match dict_get cmd (last_used s) with
              | Some l => l
              | None => []
              end in
  cmd ++ py "," ++ str_of_nat count ++ py ","
  ++ format_2f (percentage count (total_commands s)) ++ py "," ++ last.

(** The list [lines] of the CSV branch. *)
Definition csv_lines (s : stats) : list str :=
  py "Command,Count,Percentage,Last Used"
  :: map (csv_row s) (sorted_desc snd (base_command_counts s)).

(** [export_stats]: the text [output].  The formats [json] and [text] print
    numbers and Python's [str] of a dict, and are [Unmodelled]. *)
Definition export_stats (t : tracker) (now : datetime) (format_type : str)
  : result str :=
  s <- get_stats t now None;;
  if str_eqb format_type (py "json") then Err Unmodelled
  else if str_eqb format_type (py "csv")
  then Ok (join [newline] (csv_lines s))
  else Err Unmodelled.

(* ================================================================== *)
(** ** Views of the operations used to state their properties *)

(** [command.split()[0] if command.split() else command] *)
Definition first_word (command : str) : str :=
  match split command with
  | w :: _ => w
  | [] => command
  end.

(** The dict [entry] that [log_command] builds for a line, [None] when it
    returns before building one. *)
Definition new_entry (command_line : str) (now : datetime) : option entry :=
  let stripped := strip command_line in
  let command := strip (remove_history_number stripped) in
  match command with
  | [] => None
  | _ :: _ =>
      Some (Entry command (first_word command) (isoformat (Naive now)) stripped)
  end.

(** The history after the test on its length in [log_command]. *)
Definition cap (cs : list entry) : list entry :=
  if MAX_COMMANDS <? length cs then last_n MAX_COMMANDS cs else cs.

(** A run of calls of [log_command], each line with its clock reading. *)
Definition log_all (t : tracker) (inputs : list (str * datetime)) : tracker :=
  fold_left (fun t i => log_command t (fst i) (snd i)) inputs t.

(** The entries a run of calls builds, in order. *)
Definition entries_of (inputs : list (str * datetime)) : list entry :=
  flat_map (fun i => match new_entry (fst i) (snd i) with
                     | Some e => [e]
                     | None => []
                     end) inputs.

(** A history number read without a regular expression: a non-empty run of
    digits, then a non-empty run of whitespace. *)
Definition drop_ordinal (s : str) : str :=
  let digits := run_length is_digit s in
  let spaces := run_length is_space (skipn digits s) in
  if (0 <? digits) && (0 <? spaces) then skipn (digits + spaces) s else s.

(** The normalisation in the order the specification gives: the history
    number is removed from the raw line, then the rest is stripped. *)
Definition spec_normalize (raw : str) : str :=
  strip (remove_history_number raw).

(** The part of [get_stats] that follows the filter. *)
Definition summarize (commands_to_analyze : list entry) (days : option Z)
  : result stats :=
  last <- last_used_loop [] commands_to_analyze;;
  Ok (Stats (length commands_to_analyze)
            (length (Counter (map base_command commands_to_analyze)))
            (Counter (map base_command commands_to_analyze))
            (Counter (map command commands_to_analyze))
            (map (fun kv => (fst kv, isoformat (snd kv))) last)
            days).

(** Equality of dicts in Python: the same keys with the same values, in
    any order. *)
Definition dict_eq (V : Type) (a b : dict V) : Prop :=
  forall k, dict_get k a = dict_get k b.

(** Equality of the dicts [get_stats] returns. *)
Definition stats_eq (a b : stats) : Prop :=
  total_commands a = total_commands b
  /\ unique_base_commands a = unique_base_commands b
  /\ dict_eq (base_command_counts a) (base_command_counts b)
  /\ dict_eq (full_command_counts a) (full_command_counts b)
  /\ dict_eq (last_used a) (last_used b)
  /\ period_days a = period_days b.

(** Two runs end alike: the same exception, or equal results. *)
Definition same_outcome (a b : result stats) : Prop :=
  match a, b with
  | Ok x, Ok y => stats_eq x y
  | Err e, Err e' => e = e'
  | _, _ => False
  end.

(** The fields a reader of comma-separated values sees in a line. *)
Fixpoint comma_fields_from (field : str) (s : str) : list str :=
  match s with
  | [] => [rev field]
  | c :: r =>
      if ascii_eqb c ","%char then rev field :: comma_fields_from [] r
      else comma_fields_from (c :: field) r
  end.

Definition comma_fields (s : str) : list str := comma_fields_from [] s.

(** [a >= b] on the sizes of two groups *)
Definition size_ge (a b : str * list entry) : Prop :=
  length (snd b) <= length (snd a).

Definition not_space (c : ascii) : bool := negb (is_space c).

(** The first whitespace-delimited token of a string. *)
Definition first_token (s : str) : str :=
  firstn (run_length not_space s) s.

Definition the_clock : datetime := Datetime 2024 2 29 13 5 9 120.

(** The text [encode] writes for the items of a list after the first. *)
Fixpoint encode_items (level : nat) (l : list json) : str :=
  match l with
  | [] => []
  | y :: r =>
      py "," ++ newline_indent level ++ encode level y
      ++ encode_items level r
  end.

(** A tracker whose file holds one entry, for the line [ls]. *)
Definition one_entry_tracker : tracker :=
  log_command (Tracker [] None) (py "ls") the_clock.

(** The number of occurrences of [k] in [xs]. *)
Definition occurrences (k : str) (xs : list str) : nat :=
  length (filter (str_eqb k) xs).

(** [fromisoformat] reads the timestamp of the entry as a naive
    datetime. *)
Definition naive_timestamp (c : entry) : bool :=
  match fromisoformat (timestamp c) with
  | Ok (Naive _) => true
  | _ => false
  end.

(** The timestamp of the entry is a naive datetime that is not before
    [cutoff]. *)
Definition since (cutoff : datetime) (c : entry) : bool :=
  match fromisoformat (timestamp c) with
  | Ok (Naive ts) => dt_geb ts cutoff
  | _ => false
  end.

(** The later of a timestamp on record, if any, and a new one; the one on
    record stays unless the new one is greater. *)
Definition later (old : option datetime) (ts : datetime) : datetime :=
  match old with
  | None => ts
  | Some o => if dt_gtb ts o then ts else o
  end.

(** The greatest among [old] and the naive timestamps of the entries of
    [cs] whose base command is [k]. *)
Fixpoint latest (k : str) (old : option datetime) (cs : list entry)
  : option datetime :=
  match cs with
  | [] => old
  | c :: r =>
      if str_eqb k (base_command c)
      then match fromisoformat (timestamp c) with
           | Ok (Naive ts) => latest k (Some (later old ts)) r
           | _ => latest k old r
           end
      else latest k old r
  end.

Definition with_period (s : stats) (days : option Z) : stats :=
  Stats (total_commands s) (unique_base_commands s) (base_command_counts s)
        (full_command_counts s) (last_used s) days.

(** Two entries of one day, and the same two in the other order. *)
Definition two_entries : list entry :=
  [Entry (py "git status") (py "git") (py "2024-02-28T09:00:00")
         (py "git status");
   Entry (py "git add .") (py "git") (py "2024-02-28T09:30:00.000500")
         (py "12  git add .")].

(** The number of commas in a string. *)
Definition commas (s : str) : nat :=
  length (filter (fun c => ascii_eqb c ","%char) s).

(** A history with a base command that holds a comma. *)
Definition comma_tracker : tracker :=
  log_command one_entry_tracker (py "a,b c") the_clock.

(** [q] occurs in [s]. *)
Definition substring (q s : str) : Prop := exists a b, s = a ++ q ++ b.

(** [a < b] on strings, as a proposition *)
Definition str_lt (a b : str) : Prop := str_ltb a b = true.

(** The entries of [cs] whose base command is [b]. *)
Definition with_base (b : str) (cs : list entry) : list entry :=
  filter (fun c => str_eqb b (base_command c)) cs.

(** The history after the lines [git status], [git add .] and [ls]. *)
Definition example_tracker : tracker :=
  log_all (Tracker [] None)
    [(py "git status", the_clock); (py "git add .", the_clock);
     (py "ls", the_clock)].

(** [a] does not come after [b] in a descending order on [key]. *)
Definition key_ge (A : Type) (key : A -> nat) (a b : A) : Prop :=
  key b <= key a.

(** The number written by the digits of [d] after the digits already read,
    whose value is [acc]. *)
Fixpoint uint_value (acc : Z) (d : Decimal.uint) : Z :=
  match d with
  | Decimal.Nil => acc
  | Decimal.D0 l => uint_value (acc * 10 + 0) l
  | Decimal.D1 l => uint_value (acc * 10 + 1) l
  | Decimal.D2 l => uint_value (acc * 10 + 2) l
  | Decimal.D3 l => uint_value (acc * 10 + 3) l
  | Decimal.D4 l => uint_value (acc * 10 + 4) l
  | Decimal.D5 l => uint_value (acc * 10 + 5) l
  | Decimal.D6 l => uint_value (acc * 10 + 6) l
  | Decimal.D7 l => uint_value (acc * 10 + 7) l
  | Decimal.D8 l => uint_value (acc * 10 + 8) l
  | Decimal.D9 l => uint_value (acc * 10 + 9) l
  end.

(** What holds of an entry that [log_command] built. *)
Definition well_formed (e : entry) : Prop :=
  command e <> []
  /\ strip (command e) = command e
  /\ base_command e <> []
  /\ forallb not_space (base_command e) = true
  /\ (exists rest,
        command e = base_command e ++ rest
        /\ match rest with
           | [] => True
           | c :: _ => is_space c = true
           end)
  /\ strip (full_command e) = full_command e
  /\ exists number, full_command e = number ++ command e.

(** The clock readings of a run of calls are datetimes. *)
Definition valid_clocks (inputs : list (str * datetime)) : Prop :=
  Forall (fun i => valid_datetime (snd i) = true) inputs.

(** The file holds the history: it is the text of [commands], or there is
    no file yet and no command. *)
Definition in_sync (t : tracker) : Prop :=
  commands_file t = Some (dumps (commands_to_json (commands t)))
  \/ (commands t = [] /\ commands_file t = None).

(** The sum of the values of a counter. *)
Definition total_count (d : dict nat) : nat := list_sum (map snd d).

(** The number of entries in the groups of a search. *)
Definition group_sizes (groups : list (str * list entry)) : nat :=
  list_sum (map (fun g => length (snd g)) groups).

(** The distinct elements of [xs] in the order of their first occurrence,
    after those of [seen]. *)
Fixpoint first_seen_from (seen : list str) (xs : list str) : list str :=
  match xs with
  | [] => seen
  | x :: r =>
      if mem_str x seen then first_seen_from seen r
      else first_seen_from (seen ++ [x]) r
  end.

Definition first_seen (xs : list str) : list str := first_seen_from [] xs.

(** A line feed or a printable ASCII character. *)
Definition printable (c : ascii) : bool :=
  (ord c =? 10) || ((32 <=? ord c) && (ord c <=? 126)).

(* ================================================================== *)
(** ** [show_top] and [show_stats]

    The lines the two methods print.  An exception of [get_stats] is
    raised before the first line is printed. *)

(** [f'{s:>w}'] and [f'{s:<w}']: padding with spaces, never cutting. *)
Definition rjust (w : nat) (s : str) : str :=
  repeat " "%char (w - length s) ++ s.

Definition ljust (w : nat) (s : str) : str :=
  s ++ repeat " "%char (w - length s).

(** [l[:n]]: a negative [n] counts from the end. *)
Definition slice_to (A : Type) (n : Z) (l : list A) : list A :=
  if (0 <=? n)%Z then firstn (Z.to_nat n) l
  else firstn (length l - Z.to_nat (- n)) l.

(** [enumerate(l, i)] *)
Fixpoint enumerate (A : Type) (i : nat) (l : list A) : list (nat * A) :=
  match l with
  | [] => []
  | x :: r => (i, x) :: enumerate (S i) r
  end.

(** [f'{x:.1f}']: the decimal with one fractional digit nearest to the
    exact value of [x]. *)
Definition format_1f (x : float) : str :=
  match Prim2SF x with
  | S754_zero s => (if s then py "-" else []) ++ py "0.0"
  | S754_infinity s => (if s then py "-" else []) ++ py "inf"
  | S754_nan => py "nan"
  | S754_finite s m e =>
      let tenths :=
        if (0 <=? e)%Z then (Zpos m * 2 ^ e * 10)%Z
        else round_half_even (Zpos m * 10) (2 ^ (- e)) in
      (if s then py "-" else [])
      ++ str_of_Z (tenths / 10) ++ py "." ++ str_of_Z (tenths mod 10)
  end.

(** The digits of a number, last first, with a comma after every third. *)
Fixpoint group_thousands (k : nat) (digits : str) : str :=
  match digits with
  | [] => []
  | c :: r =>
      if k =? 3 then ","%char :: c :: group_thousands 1 r
      else c :: group_thousands (S k) r
  end.

(** [f'{n:,}'] *)
Definition with_commas (n : nat) : str :=
  rev (group_thousands 0 (rev (str_of_nat n))).

(** [dt.strftime('%Y-%m-%d %H:%M')].  What [%Y] writes for a year below
    1000 depends on the platform, and is [Unmodelled]. *)
Definition strftime_minutes (dt : datetime) : result str :=
  if (1000 <=? year dt)%Z
  then Ok (zero_pad 4 (year dt) ++ py "-" ++ zero_pad 2 (month dt) ++ py "-"
           ++ zero_pad 2 (day dt) ++ py " " ++ zero_pad 2 (hour dt)
           ++ py ":" ++ zero_pad 2 (minute dt))
  else Err Unmodelled.

(** One line of [show_top]. *)
Definition top_row (s : stats) (row : nat * (str * nat)) : str :=
  let i := fst row in
  let cmd := fst (snd row) in
  let count := snd (snd row) in
  rjust 2 (str_of_nat i) ++ py ". " ++ ljust 30 cmd ++ py " "
  ++ rjust 6 (str_of_nat count) ++ py " times ("
  ++ rjust 5 (format_1f (percentage count (total_commands s))) ++ py "%)".

(** [show_top] *)
Definition show_top (t : tracker) (now : datetime) (n : Z)
    (days : option Z) : result (list str) :=
  s <- get_stats t now days;;
  let sorted_commands :=
    slice_to n (sorted_desc snd (base_command_counts s)) in
  Ok ([newline :: py "Top " ++ str_of_Z n ++ py " Commands:";
       repeat "="%char 70]
      ++ map (top_row s) (enumerate 1 sorted_commands)).

(** The text after [Last:] in a line of [show_stats]. *)
Definition last_str (s : stats) (cmd : str) : result str :=
  match dict_get cmd (last_used s) with
  | Some (c :: l) =>
      last_dt <- fromisoformat (c :: l);;
      strftime_minutes (fields last_dt)
  | Some [] | None => Ok (py "Never")
  end.

(** One line of the table of [show_stats]. *)
Definition stats_row (s : stats) (row : nat * (str * nat)) : result str :=
  let i := fst row in
  let cmd := fst (snd row) in
  let count := snd (snd row) in
  last <- last_str s cmd;;
  Ok (rjust 2 (str_of_nat i) ++ py ". " ++ ljust 20 cmd ++ py " "
      ++ rjust 6 (str_of_nat count) ++ py " times ("
      ++ rjust 5 (format_1f (percentage count (total_commands s)))
      ++ py "%)  Last: " ++ last).

Fixpoint stats_rows (s : stats) (rows : list (nat * (str * nat)))
  : result (list str) :=
  match rows with
  | [] => Ok []
  | row :: rest =>
      line <- stats_row s row;;
      lines <- stats_rows s rest;;
      Ok (line :: lines)
  end.

(** [show_stats] *)
Definition show_stats (t : tracker) (now : datetime) (days : option Z)
  : result (list str) :=
  s <- get_stats t now days;;
  let sorted_commands :=
    firstn 20 (sorted_desc snd (base_command_counts s)) in
  rows <- stats_rows s (enumerate 1 sorted_commands);;
  Ok ([newline :: repeat "="%char 70;
       py "COMMAND USAGE STATISTICS";
       repeat "="%char 70;
       match period_days s with
       | Some d =>
           if (d =? 0)%Z then py "Period: All time"
           else py "Period: Last " ++ str_of_Z d ++ py " days"
       | None => py "Period: All time"
       end;
       py "Total Commands: " ++ with_commas (total_commands s);
       py "Unique Commands: " ++ str_of_nat (unique_base_commands s);
       [];
       py "Most Used Commands:";
       repeat "-"%char 70]
      ++ rows).

(* ================================================================== *)
(** ** Strings over all of Unicode and the file *)

(** Every element is a code point: at most U+10FFFF. *)
Definition is_str (s : ustr) : bool :=
  forallb (fun c => (c <? 1114112)%N) s.

(** What [json.load] reads where [json.dump] wrote [s]: a high surrogate
    and the low surrogate next to it become the character of the pair. *)
Fixpoint join_pairs (s : ustr) : ustr :=
  match s with
  | [] => []
  | a :: r =>
      match r with
      | b :: r' =>
          if is_high_surrogate a && is_low_surrogate b
          then join_surrogates a b :: join_pairs r'
          else a :: join_pairs r
      | [] => [a]
      end
  end.

(** No high surrogate has a low surrogate next to it. *)
Fixpoint no_surrogate_pair (s : ustr) : bool :=
  match s with
  | [] => true
  | a :: r =>
      match r with
      | b :: _ => negb (is_high_surrogate a && is_low_surrogate b)
      | [] => true
      end && no_surrogate_pair r
  end.

(** The text starts with [\u] and four characters that are the digits of
    a low surrogate, or are not hexadecimal digits. *)
Definition low_escape_ahead (x : str) : bool :=
  match x with
  | b :: x1 =>
      (ord b =? 92)
      && match x1 with
         | u :: x2 =>
             (ord u =? 117)
             && match x2 with
                | g1 :: g2 :: g3 :: g4 :: _ =>
                    match hex4 g1 g2 g3 g4 with
                    | Some n => is_low_surrogate n
                    | None => true
                    end
                | _ => false
                end
         | [] => false
         end
  | [] => false
  end.

(** [p] holds of the [fuel] numbers from [n] on. *)
Fixpoint all_from (fuel : nat) (n : N) (p : N -> bool) : bool :=
  match fuel with
  | O => true
  | S f => p n && all_from f (N.succ n) p
  end.

(** The four strings of an entry are Python strings. *)
Definition is_entry (e : Unicode.entry) : bool :=
  is_str (Unicode.command e) && is_str (Unicode.base_command e)
  && is_str (Unicode.timestamp e) && is_str (Unicode.full_command e).

(** No string of the entry holds a surrogate pair. *)
Definition pair_free (e : Unicode.entry) : bool :=
  no_surrogate_pair (Unicode.command e)
  && no_surrogate_pair (Unicode.base_command e)
  && no_surrogate_pair (Unicode.timestamp e)
  && no_surrogate_pair (Unicode.full_command e).

(** The entry with the surrogate pairs of its strings joined. *)
Definition join_entry (e : Unicode.entry) : Unicode.entry :=
  Unicode.Entry (join_pairs (Unicode.command e))
                (join_pairs (Unicode.base_command e))
                (join_pairs (Unicode.timestamp e))
                (join_pairs (Unicode.full_command e)).

(** A history whose one command is the two surrogates U+D83D U+DE00. *)
Definition surrogate_history : list Unicode.entry :=
  [Unicode.Entry [55357%N; 56832%N] [55357%N; 56832%N]
                 (widen (py "2024-02-29T13:05:09"))
                 [55357%N; 56832%N]].

(* ================================================================== *)
(** ** Timestamps that are not naive datetimes *)

(** What the timestamp of [c] raises where it is compared with a naive
    datetime: the exception of [fromisoformat], or [TypeError] when it is
    an aware datetime. *)
Definition raised_by (c : entry) (e : error) : Prop :=
  fromisoformat (timestamp c) = Err e
  \/ (e = TypeError
      /\ exists d off, fromisoformat (timestamp c) = Ok (Aware d off)).

(** A dict of naive datetimes as a dict of datetime objects. *)
Definition naive_values (d : dict datetime) : dict moment :=
  map (fun kv => (fst kv, Naive (snd kv))) d.

(** Two entries of one base command, stamped at the same instant at two
    offsets from UTC. *)
Definition offset_entries : list entry :=
  [Entry (py "ls") (py "ls") (py "2024-01-01T12:00:00+00:00") (py "ls");
   Entry (py "ls -l") (py "ls") (py "2024-01-01T13:00:00+01:00")
         (py "ls -l")].

(** Two datetimes are both naive or both aware. *)
Definition same_kind (a b : moment) : bool :=
  match a, b with
  | Naive _, Naive _ => true
  | Aware _ _, Aware _ _ => true
  | _, _ => false
  end.

(** The microseconds from the start of a day to a time of that day. *)
Definition time_of_day (d : datetime) : Z :=
  (((hour d * 60 + minute d) * 60 + second d) * 1000000 + microsecond d)%Z.

(** The instant of a datetime object: of an aware one at its offset, of a
    naive one as if at UTC. *)
Definition moment_instant (m : moment) : Z :=
  match m with
  | Naive d => instant d 0
  | Aware d off => instant d off
  end.

(* ================================================================== *)
(** ** Letter case *)

(** An upper-case letter among the characters U+0000..U+00FF: A to Z, and
    the letters from U+00C0 to U+00DE, which leaves out the multiplication
    sign, U+00D7. *)
Definition is_upper (c : ascii) : bool :=
  let n := ord c in
  ((65 <=? n) && (n <=? 90))
  || ((192 <=? n) && (n <=? 222) && negb (n =? 215)).

(** Two characters are the same but for letter case: they are equal, or
    one is an upper-case letter and the other its lower-case form, 32 code
    points further. *)
Definition same_letter (c d : ascii) : bool :=
  ascii_eqb c d
  || (is_upper c && (ord d =? ord c + 32))
  || (is_upper d && (ord c =? ord d + 32)).

(** Two strings are the same but for letter case. *)
Definition same_letters (q w : str) : Prop :=
  Forall2 (fun c d => same_letter c d = true) q w.

(** The history after three lines of mixed letter case. *)
Definition mixed_case_tracker : tracker :=
  log_all (Tracker [] None)
    [(py "Git Status", the_clock); (py "GIT add .", the_clock);
     (py "ls", the_clock)].

(** An entry stamped with an aware datetime and an entry whose timestamp
    names a month 13. *)
Definition unreadable_entries : list entry :=
  [Entry (py "ls") (py "ls") (py "2024-01-01T12:00:00+00:00") (py "ls");
   Entry (py "cd") (py "cd") (py "2024-13-01T12:00:00") (py "cd")].

(* ================================================================== *)
(** * Properties *)

Unset Implicit Arguments.

(** ** Characters and strings *)

Lemma ascii_eqb_eq (a b : ascii) : ascii_eqb a b = true <-> a = b.
Proof. apply Ascii.eqb_eq. Qed.

Lemma str_eqb_eq (a b : str) : str_eqb a b = true <-> a = b.
Proof.
  revert b; induction a as [|x a IH]; intros [|y b]; simpl;
    try (split; [discriminate | discriminate]); try tauto.
  rewrite andb_true_iff, ascii_eqb_eq, IH.
  split; [intros [-> ->]; reflexivity | intros H; inversion H; auto].
Qed.

Lemma str_eqb_refl (a : str) : str_eqb a a = true.
Proof. apply str_eqb_eq; reflexivity. Qed.

Lemma str_eqb_neq (a b : str) : str_eqb a b = false <-> a <> b.
Proof.
  rewrite <- str_eqb_eq. destruct (str_eqb a b); split; congruence.
Qed.

Lemma str_eqb_sym (a b : str) : str_eqb a b = str_eqb b a.
Proof.
  destruct (str_eqb a b) eqn:E.
  - apply str_eqb_eq in E; subst; symmetry; apply str_eqb_refl.
  - symmetry; apply str_eqb_neq; apply str_eqb_neq in E; congruence.
Qed.

Lemma digit_not_space (c : ascii) : is_digit c = true -> is_space c = false.
Proof.
  destruct c as [[] [] [] [] [] [] [] []]; try discriminate; reflexivity.
Qed.

Lemma lstrip_head (s : str) :
  match lstrip s with
  | [] => True
  | c :: _ => is_space c = false
  end.
Proof.
  induction s as [|c r IH]; simpl; [exact I|].
  destruct (is_space c) eqn:E; [exact IH | exact E].
Qed.

Lemma lstrip_all_space (s : str) :
  forallb is_space s = true -> lstrip s = [].
Proof.
  induction s as [|c r IH]; simpl; [reflexivity|].
  intros H; apply andb_true_iff in H as [-> H]; auto.
Qed.

Lemma lstrip_fixed (c : ascii) (r : str) :
  is_space c = false -> lstrip (c :: r) = c :: r.
Proof. intros H; simpl; rewrite H; reflexivity. Qed.

Lemma lstrip_suffix (s : str) : exists w, s = w ++ lstrip s.
Proof.
  induction s as [|c r [w IH]]; simpl; [exists []; reflexivity|].
  destruct (is_space c); [|exists []; reflexivity].
  exists (c :: w); simpl; congruence.
Qed.

(** A stripped string is empty or starts with a character that is not
    whitespace. *)
Lemma strip_head (s : str) :
  match strip s with
  | [] => True
  | c :: _ => is_space c = false
  end.
Proof.
  unfold strip, rstrip.
  pose proof (lstrip_head s) as H.
  destruct (lstrip s) as [|c r] eqn:E; [exact I|].
  destruct (lstrip_suffix (rev (c :: r))) as [w Hw].
  apply (f_equal (@rev ascii)) in Hw.
  rewrite rev_involutive, rev_app_distr in Hw.
  destruct (rev (lstrip (rev (c :: r)))) as [|c' r'] eqn:E'; [exact I|].
  simpl in Hw; inversion Hw; subst; exact H.
Qed.

Lemma strip_all_space (s : str) : forallb is_space s = true -> strip s = [].
Proof.
  intros H; unfold strip; rewrite (lstrip_all_space _ H); reflexivity.
Qed.

Lemma run_length_skipn (p : ascii -> bool) (s : str) (k : nat) :
  k < run_length p s -> exists c r, skipn k s = c :: r /\ p c = true.
Proof.
  revert k; induction s as [|c r IH]; simpl; intros k Hk; [lia|].
  destruct (p c) eqn:E; [|lia].
  destruct k as [|k]; simpl; [eauto|].
  apply IH; lia.
Qed.

Lemma run_length_zero (p : ascii -> bool) (c : ascii) (r : str) :
  p c = false -> run_length p (c :: r) = 0.
Proof. intros H; simpl; rewrite H; reflexivity. Qed.

Lemma backtrack_none (A : Type) (f : nat -> option A) (mn n : nat) :
  (forall k, mn <= k <= n -> f k = None) -> backtrack f mn n = None.
Proof.
  induction n as [|n IH]; intros H; simpl.
  - destruct mn; simpl; [|reflexivity].
    rewrite H by lia; reflexivity.
  - destruct (Nat.ltb_spec (S n) mn) as [Hlt|Hge]; [reflexivity|].
    rewrite (H (S n)) by lia.
    destruct (Nat.eq_dec mn (S n)) as [->|Hne].
    + destruct n; simpl; [reflexivity|].
      rewrite (proj2 (Nat.ltb_lt _ _)) by lia; reflexivity.
    + apply IH; intros k Hk; apply H; lia.
Qed.

(** The greedy choice is the only one that can succeed when every shorter
    one fails. *)
Lemma backtrack_greedy (A : Type) (f : nat -> option A) (mn n : nat) :
  (forall k, mn <= k < n -> f k = None) ->
  backtrack f mn n = if n <? mn then None else f n.
Proof.
  intros H. destruct n as [|n]; simpl.
  - destruct mn; simpl; [|reflexivity]. destruct (f 0); reflexivity.
  - destruct (Nat.ltb_spec (S n) mn) as [Hlt|Hge]; [reflexivity|].
    destruct (f (S n)) eqn:E; [reflexivity|].
    apply backtrack_none; intros k Hk; apply H; lia.
Qed.

Lemma match_space_run (s : str) :
  match_reps [Rep is_space 1] s =
  if 0 <? run_length is_space s
  then Some (skipn (run_length is_space s) s) else None.
Proof.
  simpl. destruct (run_length is_space s) as [|n]; reflexivity.
Qed.

Lemma match_digits_spaces (s : str) :
  match_reps [Rep is_digit 1; Rep is_space 1] s =
  let digits := run_length is_digit s in
  let spaces := run_length is_space (skipn digits s) in
  if (0 <? digits) && (0 <? spaces)
  then Some (skipn (digits + spaces) s) else None.
Proof.
  change (match_reps [Rep is_digit 1; Rep is_space 1] s)
    with (backtrack (fun k => match_reps [Rep is_space 1] (skipn k s))
                    1 (run_length is_digit s)).
  rewrite backtrack_greedy.
  - cbv zeta. rewrite match_space_run, skipn_skipn.
    rewrite (Nat.add_comm (run_length is_space _)).
    destruct (run_length is_digit s) as [|d] eqn:Ed; [reflexivity|].
    reflexivity.
  - intros k Hk. rewrite match_space_run.
    destruct (run_length_skipn is_digit s k) as (c & r & -> & Hc); [lia|].
    rewrite run_length_zero by (apply digit_not_space; exact Hc).
    reflexivity.
Qed.

(** On a string that does not start with whitespace the regular expression
    removes exactly a run of digits followed by a run of whitespace. *)
Lemma remove_history_number_drop_ordinal (s : str) :
  run_length is_space s = 0 -> remove_history_number s = drop_ordinal s.
Proof.
  intros H. unfold remove_history_number, drop_ordinal.
  change (match_reps history_number s)
    with (backtrack
            (fun k => match_reps [Rep is_digit 1; Rep is_space 1] (skipn k s))
            0 (run_length is_space s)).
  rewrite H, backtrack_greedy by (intros k Hk; lia).
  change (skipn 0 s) with s. change (0 <? 0) with false. cbv iota.
  rewrite match_digits_spaces. cbv zeta.
  destruct ((0 <? run_length is_digit s)
            && (0 <? run_length is_space (skipn (run_length is_digit s) s)));
    reflexivity.
Qed.

Lemma strip_no_leading_space (s : str) : run_length is_space (strip s) = 0.
Proof.
  pose proof (strip_head s) as H.
  destruct (strip s) as [|c r]; [reflexivity|].
  apply run_length_zero; exact H.
Qed.

Lemma log_command_io_eq (f : fault) (t : tracker) (line : str)
    (now : datetime) :
  log_command_io f t line now =
  match new_entry line now with
  | None => t
  | Some e =>
      save_commands_io f (Tracker (cap (commands t ++ [e])) (commands_file t))
  end.
Proof.
  unfold log_command_io, new_entry, cap, first_word.
  destruct (strip (remove_history_number (strip line))); reflexivity.
Qed.

Lemma commands_save_commands_io (f : fault) (t : tracker) :
  commands (save_commands_io f t) = commands t.
Proof. destruct f; reflexivity. Qed.

Lemma commands_log_command (t : tracker) (line : str) (now : datetime) :
  commands (log_command t line now) =
  match new_entry line now with
  | None => commands t
  | Some e => cap (commands t ++ [e])
  end.
Proof.
  unfold log_command. rewrite log_command_io_eq.
  destruct (new_entry line now); [|reflexivity].
  apply commands_save_commands_io.
Qed.

Lemma MAX_COMMANDS_pos : 0 < MAX_COMMANDS.
Proof. apply Nat.ltb_lt; vm_compute; reflexivity. Qed.

Lemma last_n_snoc (A : Type) (n : nat) (l : list A) (x : A) :
  0 < n -> last_n n (l ++ [x]) = last_n (n - 1) l ++ [x].
Proof.
  intros Hn. unfold last_n. rewrite length_app, skipn_app. simpl length.
  replace (length l + 1 - n) with (length l - (n - 1)) by lia.
  replace (length l - (n - 1) - length l) with 0 by lia.
  reflexivity.
Qed.

Lemma cap_snoc (l : list entry) (e : entry) :
  exists older, cap (l ++ [e]) = older ++ [e].
Proof.
  unfold cap. destruct (MAX_COMMANDS <? length (l ++ [e])).
  - rewrite last_n_snoc by apply MAX_COMMANDS_pos. eauto.
  - eauto.
Qed.

Lemma split_from_first (s tok : str) :
  tok <> [] \/ (exists c r, s = c :: r /\ is_space c = false) ->
  exists more, split_from tok s = (rev tok ++ first_token s) :: more.
Proof.
  unfold first_token. revert tok.
  induction s as [|c r IH]; intros tok H; simpl.
  - destruct H as [H | (c & r & H & _)]; [|discriminate].
    destruct tok; [congruence|]. rewrite app_nil_r; eauto.
  - unfold not_space at 1 2. destruct (is_space c) eqn:E; simpl.
    + destruct H as [H | (c' & r' & H & H')];
        [|inversion H; subst; congruence].
      destruct tok; [congruence|]. rewrite app_nil_r; eauto.
    + destruct (IH (c :: tok)) as [more Hm]; [left; discriminate|].
      exists more. rewrite Hm. simpl. rewrite <- app_assoc. reflexivity.
Qed.

(** The word [log_command] takes as base command is the first token of the
    command. *)
Lemma first_word_first_token (c : str) :
  strip c = c -> first_word c = first_token c.
Proof.
  intros H. unfold first_word, split.
  pose proof (strip_head c) as Hh. rewrite H in Hh.
  destruct c as [|x r]; [reflexivity|].
  destruct (split_from_first (x :: r) []) as [more Hm]; [right; eauto|].
  rewrite Hm. reflexivity.
Qed.

Lemma lstrip_idem (s : str) : lstrip (lstrip s) = lstrip s.
Proof.
  pose proof (lstrip_head s) as H.
  destruct (lstrip s) as [|c r]; [reflexivity|].
  apply lstrip_fixed; exact H.
Qed.

Lemma rstrip_idem (s : str) : rstrip (rstrip s) = rstrip s.
Proof.
  unfold rstrip. rewrite rev_involutive, lstrip_idem. reflexivity.
Qed.

Lemma rstrip_keeps_head (c : ascii) (r : str) :
  is_space c = false -> exists r', rstrip (c :: r) = c :: r'.
Proof.
  intros Hc. unfold rstrip.
  destruct (lstrip_suffix (rev (c :: r))) as [w Hw].
  assert (Hne : lstrip (rev (c :: r)) <> []).
  { simpl. clear Hw. induction (rev r) as [|y l IHl]; simpl.
    - rewrite Hc; discriminate.
    - destruct (is_space y); [exact IHl | discriminate]. }
  apply (f_equal (@rev ascii)) in Hw.
  rewrite rev_involutive, rev_app_distr in Hw.
  destruct (rev (lstrip (rev (c :: r)))) as [|c' r'] eqn:E.
  - exfalso; apply Hne. apply (f_equal (@rev ascii)) in E.
    rewrite rev_involutive in E. exact E.
  - simpl in Hw. inversion Hw; subst. eauto.
Qed.

Lemma strip_idem (s : str) : strip (strip s) = strip s.
Proof.
  unfold strip.
  pose proof (lstrip_head s) as H.
  destruct (lstrip s) as [|c r]; [reflexivity|].
  destruct (rstrip_keeps_head c r H) as [r' Hr].
  pose proof (rstrip_idem (c :: r)) as Hi.
  rewrite Hr in *. rewrite lstrip_fixed by exact H. exact Hi.
Qed.

(** The entry of a line, with the regular expression and [split] read as
    plain prefixes. *)
Lemma new_entry_normal_form (line : str) (now : datetime) :
  new_entry line now =
  match strip (drop_ordinal (strip line)) with
  | [] => None
  | c :: r =>
      Some (Entry (c :: r) (first_token (c :: r)) (isoformat (Naive now))
                  (strip line))
  end.
Proof.
  unfold new_entry.
  rewrite remove_history_number_drop_ordinal
    by apply strip_no_leading_space.
  destruct (strip (drop_ordinal (strip line))) as [|c r] eqn:E;
    [reflexivity|].
  rewrite first_word_first_token; [reflexivity|].
  rewrite <- E. apply strip_idem.
Qed.

(* ------------------------------------------------------------------ *)
(** ** C1: the stored raw line *)

(** C1, as stated: the entry stored for a line keeps the line exactly as
    received.  It fails for a line with surrounding whitespace:
    [log_command] strips the line before it looks at it and stores the
    stripped line under [full_command]. *)
Lemma full_command_untouched_counterexample :
  ~ (forall (line : str) (now : datetime),
       match commands (log_command (Tracker [] None) line now) with
       | [e] => full_command e = line
       | _ => True
       end).
Proof.
  intros H. specialize (H (py " 42  ls -la ") the_clock).
  vm_compute in H. discriminate H.
Qed.

(** C1, amended: the entry stored for a line holds, under [full_command],
    the line with its leading and trailing whitespace stripped and nothing
    else changed (a history number stays); it is the last entry of the
    history.  A line that yields no entry leaves the tracker as it was. *)
Theorem log_command_full_command (t : tracker) (line : str)
    (now : datetime) :
  match new_entry line now with
  | Some e =>
      full_command e = strip line
      /\ exists older, commands (log_command t line now) = older ++ [e]
  | None => log_command t line now = t
  end.
Proof.
  pose proof (commands_log_command t line now) as Hc.
  unfold log_command in *. rewrite log_command_io_eq.
  destruct (new_entry line now) as [e|] eqn:E; [|reflexivity].
  split.
  - unfold new_entry in E.
    destruct (strip (remove_history_number (strip line))); [discriminate|].
    inversion E; reflexivity.
  - rewrite log_command_io_eq, E in Hc. rewrite Hc. apply cap_snoc.
Qed.

(* ------------------------------------------------------------------ *)
(** ** The two orders of normalisation *)

Lemma space_not_digit (c : ascii) : is_space c = true -> is_digit c = false.
Proof.
  intros H. destruct (is_digit c) eqn:E; [|reflexivity].
  rewrite (digit_not_space c E) in H. discriminate.
Qed.

Lemma lstrip_skipn (s : str) : lstrip s = skipn (run_length is_space s) s.
Proof.
  induction s as [|c r IH]; [reflexivity|].
  simpl. destruct (is_space c); [exact IH | reflexivity].
Qed.

(** The regular expression on any string: the leading whitespace is
    skipped, then come the digits and the whitespace. *)
Lemma match_history_number (s : str) :
  match_reps history_number s
  = match_reps [Rep is_digit 1; Rep is_space 1] (lstrip s).
Proof.
  change (match_reps history_number s)
    with (backtrack
            (fun k => match_reps [Rep is_digit 1; Rep is_space 1] (skipn k s))
            0 (run_length is_space s)).
  rewrite backtrack_greedy.
  - rewrite lstrip_skipn. reflexivity.
  - intros k Hk. rewrite match_digits_spaces. cbv zeta.
    destruct (run_length_skipn is_space s k) as (c & r & -> & Hc); [lia|].
    rewrite run_length_zero by (apply space_not_digit; exact Hc).
    reflexivity.
Qed.

Lemma strip_lstrip (s : str) : strip (lstrip s) = strip s.
Proof. unfold strip. rewrite lstrip_idem. reflexivity. Qed.

(** The stated order, without the regular expression. *)
Lemma spec_normalize_drop_ordinal (line : str) :
  spec_normalize line = strip (drop_ordinal (lstrip line)).
Proof.
  unfold spec_normalize, remove_history_number, drop_ordinal.
  rewrite match_history_number, match_digits_spaces. cbv zeta.
  destruct ((0 <? run_length is_digit (lstrip line))
            && (0 <? run_length is_space
                       (skipn (run_length is_digit (lstrip line))
                              (lstrip line))));
    [reflexivity|].
  symmetry. apply strip_lstrip.
Qed.

Lemma lstrip_app (x y : str) :
  lstrip x <> [] -> lstrip (x ++ y) = lstrip x ++ y.
Proof.
  induction x as [|c x IH]; simpl; [congruence|].
  destruct (is_space c); [exact IH | reflexivity].
Qed.

Lemma rstrip_app (a b : str) :
  rstrip b <> [] -> rstrip (a ++ b) = a ++ rstrip b.
Proof.
  unfold rstrip. intros H.
  rewrite rev_app_distr, lstrip_app.
  - rewrite rev_app_distr, rev_involutive. reflexivity.
  - intros E. apply H. rewrite E. reflexivity.
Qed.

Lemma strip_rstrip (c : ascii) (r : str) :
  is_space c = false -> strip (rstrip (c :: r)) = strip (c :: r).
Proof.
  intros Hc. destruct (rstrip_keeps_head c r Hc) as [r' Hr].
  unfold strip. rewrite Hr, !lstrip_fixed by exact Hc.
  rewrite <- Hr. apply rstrip_idem.
Qed.

(** A string is a run inside a class followed by nothing or by a character
    outside it. *)
Lemma span_class (p : ascii -> bool) (s : str) :
  exists a b,
    s = a ++ b /\ forallb p a = true
    /\ match b with [] => True | c :: _ => p c = false end.
Proof.
  induction s as [|c s (a & b & Hs & Ha & Hb)].
  - exists [], []. auto.
  - destruct (p c) eqn:E.
    + exists (c :: a), b. simpl. rewrite E, Ha, Hs. auto.
    + exists [], (c :: s). auto.
Qed.

Lemma run_length_app (p : ascii -> bool) (a b : str) :
  forallb p a = true ->
  run_length p (a ++ b) = length a + run_length p b.
Proof.
  induction a as [|c a IH]; simpl; [reflexivity|].
  intros H. apply andb_true_iff in H as [-> H]. rewrite IH by exact H.
  reflexivity.
Qed.

Lemma skipn_length_app (A : Type) (a b : list A) :
  skipn (length a) (a ++ b) = b.
Proof. induction a as [|x a IH]; [reflexivity | exact IH]. Qed.

(** A history number followed by a character that is not whitespace. *)
Lemma drop_ordinal_parts (d s : str) (c : ascii) (r : str) :
  forallb is_digit d = true -> forallb is_space s = true ->
  is_space c = false -> (s = [] -> is_digit c = false) ->
  drop_ordinal (d ++ s ++ c :: r) =
  if (0 <? length d) && (0 <? length s) then c :: r
  else d ++ s ++ c :: r.
Proof.
  intros Hd Hs Hc Hsc. unfold drop_ordinal.
  assert (Hrun : run_length is_digit (d ++ s ++ c :: r) = length d).
  { rewrite (run_length_app _ _ _ Hd).
    destruct s as [|x s].
    - simpl. rewrite (Hsc eq_refl). lia.
    - simpl in Hs. apply andb_true_iff in Hs as [Hx _].
      simpl. rewrite (space_not_digit x Hx). lia. }
  rewrite Hrun, skipn_length_app, (run_length_app _ _ _ Hs).
  rewrite (run_length_zero is_space c r Hc), Nat.add_0_r.
  destruct ((0 <? length d) && (0 <? length s)); [|reflexivity].
  rewrite Nat.add_comm, <- skipn_skipn, skipn_length_app, skipn_length_app.
  reflexivity.
Qed.

Lemma lstrip_app_spaces (w t : str) :
  forallb is_space w = true -> lstrip (w ++ t) = lstrip t.
Proof.
  induction w as [|c w IH]; simpl; [reflexivity|].
  intros H. apply andb_true_iff in H as [-> H]. apply IH, H.
Qed.

Lemma forallb_rev (p : ascii -> bool) (s : str) :
  forallb p s = true -> forallb p (rev s) = true.
Proof.
  rewrite !forallb_forall. intros H x Hx. apply H, in_rev, Hx.
Qed.

Lemma rstrip_app_spaces (t w : str) :
  forallb is_space w = true -> rstrip (t ++ w) = rstrip t.
Proof.
  intros H. unfold rstrip.
  rewrite rev_app_distr, lstrip_app_spaces by (apply forallb_rev, H).
  reflexivity.
Qed.

Lemma lstrip_digits (d : str) : forallb is_digit d = true -> lstrip d = d.
Proof.
  destruct d as [|c d]; [reflexivity|]. simpl.
  intros H. apply andb_true_iff in H as [H _].
  rewrite (digit_not_space c H). reflexivity.
Qed.

Lemma rstrip_digits (d : str) : forallb is_digit d = true -> rstrip d = d.
Proof.
  intros H. unfold rstrip.
  rewrite lstrip_digits by (apply forallb_rev, H). apply rev_involutive.
Qed.

(** Stripping the end of a line first changes nothing to its command,
    unless what is left is a run of digits. *)
Lemma drop_ordinal_rstrip (l : str) :
  lstrip l = l ->
  rstrip l = [] \/ forallb is_digit (rstrip l) = false ->
  strip (drop_ordinal (rstrip l)) = strip (drop_ordinal l).
Proof.
  intros Hl Hnd.
  destruct (span_class is_digit l) as (d & b & Hb & Hd & Hbh).
  destruct (span_class is_space b) as (s & r & Hr & Hs & Hrh).
  subst b. destruct r as [|c r].
  - (* the line is digits and whitespace only: it holds no digit *)
    rewrite app_nil_r in Hb. subst l.
    rewrite (rstrip_app_spaces d s Hs), (rstrip_digits d Hd) in Hnd.
    destruct Hnd as [->|Hnd]; [|rewrite Hd in Hnd; discriminate].
    simpl app in *.
    rewrite <- Hl, (lstrip_all_space s Hs). reflexivity.
  - (* a character that is not whitespace follows the digits and the
       whitespace *)
    subst l.
    destruct (rstrip_keeps_head c r Hrh) as [r' Hr'].
    assert (Hrs : rstrip (d ++ s ++ c :: r) = d ++ s ++ c :: r').
    { rewrite !rstrip_app, Hr'; [reflexivity | | ].
      - rewrite Hr'. discriminate.
      - rewrite rstrip_app, Hr'; [|rewrite Hr'; discriminate].
        destruct s; discriminate. }
    assert (Hsc : s = [] -> is_digit c = false)
      by (intros ->; exact Hbh).
    rewrite Hrs, !drop_ordinal_parts by assumption.
    destruct ((0 <? length d) && (0 <? length s)).
    + rewrite <- Hr'. apply strip_rstrip, Hrh.
    + rewrite <- Hrs.
      destruct (d ++ s ++ c :: r) as [|x l] eqn:E; [reflexivity|].
      apply strip_rstrip.
      pose proof (lstrip_head (x :: l)) as Hh. rewrite Hl in Hh. exact Hh.
Qed.

(** The order of [log_command] and the stated order give the same command
    for every line but those that hold digits only. *)
Lemma normalization_orders_agree (line : str) :
  strip line = [] \/ forallb is_digit (strip line) = false ->
  strip (drop_ordinal (strip line)) = spec_normalize line.
Proof.
  intros H. rewrite spec_normalize_drop_ordinal. unfold strip at 2.
  apply drop_ordinal_rstrip; [apply lstrip_idem | exact H].
Qed.

(* ------------------------------------------------------------------ *)
(** ** C6: normalisation of a line *)

(** C6, as stated: the history number is removed from the line, then the
    rest is stripped.  [log_command] strips first, so the whitespace that
    ends a line of digits is gone when the history number is looked for:
    the line [42 ] is logged as the command [42], where the stated order
    leaves nothing to log. *)
Lemma normalization_order_counterexample :
  ~ (forall (line : str) (now : datetime),
       map command (commands (log_command (Tracker [] None) line now)) =
       match spec_normalize line with
       | [] => []
       | c :: r => [c :: r]
       end).
Proof.
  intros H. specialize (H (py "42 ") the_clock).
  vm_compute in H. discriminate H.
Qed.

(** C6, amended: normalisation strips surrounding whitespace, then a leading
    run of decimal digits followed by whitespace, then surrounding
    whitespace again; the base command is the first whitespace-delimited
    token of the command.  An empty command produces no entry and leaves
    the tracker unchanged, which is the case of every whitespace-only line.
    The line [ 42  ls -la ] is stored with command [ls -la] and base
    command [ls].  The command is the one of the stated order for every
    line but those that hold digits only. *)
Theorem log_command_normalization (t : tracker) (line : str)
    (now : datetime) :
  let cmd := strip (drop_ordinal (strip line)) in
  new_entry line now =
    match cmd with
    | [] => None
    | _ :: _ =>
        Some (Entry cmd (first_token cmd) (isoformat (Naive now))
                    (strip line))
    end
  /\ commands (log_command t line now) =
       match new_entry line now with
       | Some e => cap (commands t ++ [e])
       | None => commands t
       end
  /\ (cmd = [] -> log_command t line now = t)
  /\ (forallb is_space line = true -> log_command t line now = t)
  /\ (strip line = [] \/ forallb is_digit (strip line) = false ->
      cmd = spec_normalize line)
  /\ (exists e,
        new_entry (py " 42  ls -la ") now = Some e
        /\ command e = py "ls -la" /\ base_command e = py "ls")
  /\ log_command t (py "   ") now = t.
Proof.
  cbv zeta.
  assert (Hnone : forall l, strip (drop_ordinal (strip l)) = [] ->
                            log_command t l now = t).
  { intros l Hl. unfold log_command. rewrite log_command_io_eq.
    rewrite new_entry_normal_form, Hl. reflexivity. }
  split; [|split; [|split; [|split; [|split; [|split]]]]].
  - rewrite new_entry_normal_form.
    destruct (strip (drop_ordinal (strip line))); reflexivity.
  - apply commands_log_command.
  - apply Hnone.
  - intros Hs. apply Hnone. rewrite (strip_all_space _ Hs). reflexivity.
  - apply normalization_orders_agree.
  - eexists. split; [|split].
    + unfold new_entry.
      replace (strip (py " 42  ls -la ")) with (py "42  ls -la")
        by (vm_compute; reflexivity).
      replace (strip (remove_history_number (py "42  ls -la")))
        with (py "ls -la") by (vm_compute; reflexivity).
      reflexivity.
    + reflexivity.
    + vm_compute; reflexivity.
  - apply Hnone. vm_compute; reflexivity.
Qed.

(** The theorem at the line [  7 make ] and at a line of two spaces. *)
Lemma log_command_normalization_witness :
  new_entry (py "  7 make ") the_clock =
    Some (Entry (py "make") (py "make") (isoformat (Naive the_clock))
                (py "7 make"))
  /\ log_command (Tracker [] None) (py "  ") the_clock = Tracker [] None.
Proof.
  destruct (log_command_normalization (Tracker [] None) (py "  7 make ")
              the_clock) as (H1 & _).
  destruct (log_command_normalization (Tracker [] None) (py "  ")
              the_clock) as (_ & _ & _ & H4 & _).
  split.
  - rewrite H1. vm_compute. reflexivity.
  - apply H4. vm_compute. reflexivity.
Defined.

(* ------------------------------------------------------------------ *)
(** ** C4: the bound on the history *)

Lemma length_last_n (A : Type) (n : nat) (l : list A) :
  n <= length l -> length (last_n n l) = n.
Proof. intros H. unfold last_n. rewrite length_skipn. lia. Qed.

Lemma last_n_all (A : Type) (n : nat) (l : list A) :
  length l <= n -> last_n n l = l.
Proof.
  intros H. unfold last_n. replace (length l - n) with 0 by lia. reflexivity.
Qed.

Lemma last_n_last_n (A : Type) (n m : nat) (l : list A) :
  n <= m -> last_n n (last_n m l) = last_n n l.
Proof.
  intros H. unfold last_n. rewrite length_skipn, skipn_skipn.
  f_equal. lia.
Qed.

Lemma cap_small (l : list entry) : length l <= MAX_COMMANDS -> cap l = l.
Proof.
  intros H. unfold cap.
  destruct (Nat.ltb_spec MAX_COMMANDS (length l)); [lia | reflexivity].
Qed.

Lemma cap_large (l : list entry) :
  MAX_COMMANDS < length l -> cap l = last_n MAX_COMMANDS l.
Proof.
  intros H. unfold cap.
  destruct (Nat.ltb_spec MAX_COMMANDS (length l)); [reflexivity | lia].
Qed.

(** Truncating after every append is truncating once, at the end. *)
Lemma cap_cap_snoc (l : list entry) (e : entry) :
  cap (cap l ++ [e]) = cap (l ++ [e]).
Proof.
  pose proof MAX_COMMANDS_pos as Hpos.
  destruct (Nat.le_gt_cases (length l) MAX_COMMANDS) as [Hle|Hgt].
  - rewrite (cap_small l Hle). reflexivity.
  - rewrite (cap_large l Hgt).
    rewrite (cap_large (l ++ [e])) by (rewrite length_app; cbn [length]; lia).
    rewrite cap_large
      by (rewrite length_app, length_last_n by lia; cbn [length]; lia).
    rewrite !last_n_snoc by exact Hpos.
    rewrite last_n_last_n by lia. reflexivity.
Qed.

Lemma log_all_snoc (t : tracker) (inputs : list (str * datetime))
    (i : str * datetime) :
  log_all t (inputs ++ [i]) = log_command (log_all t inputs) (fst i) (snd i).
Proof. unfold log_all. rewrite fold_left_app. reflexivity. Qed.

Lemma entries_of_snoc (inputs : list (str * datetime)) (i : str * datetime) :
  entries_of (inputs ++ [i]) =
  entries_of inputs ++ match new_entry (fst i) (snd i) with
                       | Some e => [e]
                       | None => []
                       end.
Proof.
  unfold entries_of. rewrite flat_map_app. simpl. rewrite app_nil_r.
  reflexivity.
Qed.

(** The history after a run of calls. *)
Lemma commands_log_all (t : tracker) (inputs : list (str * datetime)) :
  commands (log_all t inputs) =
  match entries_of inputs with
  | [] => commands t
  | _ :: _ => cap (commands t ++ entries_of inputs)
  end.
Proof.
  induction inputs as [|i inputs IH] using rev_ind; [reflexivity|].
  rewrite log_all_snoc, commands_log_command, entries_of_snoc, IH.
  destruct (new_entry (fst i) (snd i)) as [e|].
  - destruct (entries_of inputs) as [|e0 es].
    + reflexivity.
    + rewrite cap_cap_snoc, <- app_assoc. reflexivity.
  - rewrite app_nil_r. reflexivity.
Qed.

Lemma entries_of_repeat (line : str) (now : datetime) (e : entry)
    (n : nat) :
  new_entry line now = Some e ->
  entries_of (repeat (line, now) n) = repeat e n.
Proof.
  intros H. induction n as [|n IH]; [reflexivity|].
  change (entries_of (repeat (line, now) (S n)))
    with (match new_entry line now with
          | Some e => [e]
          | None => []
          end ++ entries_of (repeat (line, now) n)).
  rewrite H, IH. reflexivity.
Qed.

(** C4: when appends take the history beyond [MAX_COMMANDS] = 10000
    entries, the tracker holds exactly the 10000 most recent ones, in
    their order; from an empty history, 10001 appends leave the last
    10000. *)
Theorem log_command_retention (t : tracker)
    (inputs : list (str * datetime)) :
  entries_of inputs <> [] ->
  MAX_COMMANDS < length (commands t ++ entries_of inputs) ->
  MAX_COMMANDS = 10000
  /\ commands (log_all t inputs)
     = last_n MAX_COMMANDS (commands t ++ entries_of inputs)
  /\ length (commands (log_all t inputs)) = MAX_COMMANDS
  /\ (commands t = [] ->
      length (entries_of inputs) = MAX_COMMANDS + 1 ->
      commands (log_all t inputs) = tl (entries_of inputs)).
Proof.
  intros Hne Hlen.
  assert (Hc : commands (log_all t inputs)
               = last_n MAX_COMMANDS (commands t ++ entries_of inputs)).
  { rewrite commands_log_all.
    destruct (entries_of inputs) as [|e es] eqn:E; [congruence|].
    apply cap_large. exact Hlen. }
  split; [reflexivity|]. split; [exact Hc|]. split.
  - rewrite Hc. apply length_last_n. lia.
  - intros Ht Hn. rewrite Hc, Ht. simpl app. unfold last_n.
    rewrite Hn. replace (MAX_COMMANDS + 1 - MAX_COMMANDS) with 1 by lia.
    destruct (entries_of inputs); reflexivity.
Qed.

(** The theorem at 10001 calls with the line [ls], from an empty history. *)
Lemma log_command_retention_witness :
  length (commands (log_all (Tracker [] None)
                            (repeat (py "ls", the_clock) 10001)))
  = MAX_COMMANDS.
Proof.
  assert (He : new_entry (py "ls") the_clock
               = Some (Entry (py "ls") (py "ls") (isoformat (Naive the_clock))
                             (py "ls")))
    by (vm_compute; reflexivity).
  apply (log_command_retention (Tracker [] None)
           (repeat (py "ls", the_clock) 10001)).
  - rewrite (entries_of_repeat _ _ _ 10001 He).
    intros H. apply (f_equal (@length entry)) in H.
    rewrite repeat_length in H. vm_compute in H. discriminate H.
  - rewrite (entries_of_repeat _ _ _ 10001 He).
    cbn [commands app]. rewrite repeat_length.
    apply Nat.ltb_lt. vm_compute. reflexivity.
Defined.

(* ------------------------------------------------------------------ *)
(** ** JSON: what is written is read back *)

Lemma all_from_spec (fuel : nat) (n : N) (p : N -> bool) :
  all_from fuel n p = true ->
  forall m, (n <= m < n + N.of_nat fuel)%N -> p m = true.
Proof.
  revert n. induction fuel as [|f IH]; intros n H m Hm; [lia|].
  cbn [all_from] in H. apply andb_true_iff in H as [Hn Hr].
  destruct (N.eq_dec m n) as [->|Hne]; [exact Hn|].
  apply (IH _ Hr). lia.
Qed.

Lemma ord_chr (n : nat) : n < 256 -> ord (chr n) = n.
Proof. apply nat_ascii_embedding. Qed.

Lemma code_chr (c : N) : (c < 256)%N -> code (chr (N.to_nat c)) = c.
Proof.
  intros H. unfold code. rewrite ord_chr by lia. apply N2Nat.id.
Qed.

Lemma chr_code (c : ascii) : chr (N.to_nat (code c)) = c.
Proof.
  unfold code, chr, ord. rewrite Nat2N.id. apply ascii_nat_embedding.
Qed.

Lemma code_lt (c : ascii) : (code c < 256)%N.
Proof.
  unfold code, ord. pose proof (nat_ascii_bounded c). lia.
Qed.

(** The four digits that [hex4_text] writes are read as the number. *)
Lemma hex4_hex4_text (n : N) :
  (n < 65536)%N ->
  hex4 (hex_digit (n / 4096)) (hex_digit (n / 256 mod 16))
       (hex_digit (n / 16 mod 16)) (hex_digit (n mod 16)) = Some n.
Proof.
  intros H.
  assert (Hall : all_from (N.to_nat 65536) 0
                   (fun n => match hex4 (hex_digit (n / 4096))
                                        (hex_digit (n / 256 mod 16))
                                        (hex_digit (n / 16 mod 16))
                                        (hex_digit (n mod 16)) with
                             | Some m => (m =? n)%N
                             | None => false
                             end) = true)
    by (vm_compute; reflexivity).
  pose proof (all_from_spec _ _ _ Hall n) as Hn. cbv beta in Hn.
  rewrite N2Nat.id in Hn.
  destruct (hex4 _ _ _ _) as [m|].
  - f_equal. apply N.eqb_eq, Hn. lia.
  - discriminate Hn. lia.
Qed.

Lemma scanstring_u_eq (h1 h2 h3 h4 : ascii) (x : str) :
  scanstring (backslash :: "u"%char :: h1 :: h2 :: h3 :: h4 :: x)
  = match hex4 h1 h2 h3 h4 with
    | None => Err JSONDecodeError
    | Some n =>
        match x with
        | b :: u :: g1 :: g2 :: g3 :: g4 :: r3 =>
            if is_high_surrogate n && (ord b =? 92) && (ord u =? 117)
            then
              match hex4 g1 g2 g3 g4 with
              | None => Err JSONDecodeError
              | Some n2 =>
                  if is_low_surrogate n2
                  then '(y, rest) <- scanstring r3;;
                       Ok (join_surrogates n n2 :: y, rest)
                  else '(y, rest) <- scanstring x;;
                       Ok (n :: y, rest)
              end
            else '(y, rest) <- scanstring x;; Ok (n :: y, rest)
        | _ => '(y, rest) <- scanstring x;; Ok (n :: y, rest)
        end
    end.
Proof. reflexivity. Qed.

(** An escape [\uXXXX] that is not the first half of a pair. *)
Lemma scanstring_u (h1 h2 h3 h4 : ascii) (x : str) (n : N) :
  hex4 h1 h2 h3 h4 = Some n ->
  (is_high_surrogate n = true -> low_escape_ahead x = false) ->
  scanstring (backslash :: "u"%char :: h1 :: h2 :: h3 :: h4 :: x)
  = ('(y, rest) <- scanstring x;; Ok (n :: y, rest)).
Proof.
  intros Hh Hx.
  change (scanstring (backslash :: "u"%char :: h1 :: h2 :: h3 :: h4 :: x))
    with (match hex4 h1 h2 h3 h4 with
          | None => Err JSONDecodeError
          | Some n =>
              match x with
              | b :: u :: g1 :: g2 :: g3 :: g4 :: r3 =>
                  if is_high_surrogate n && (ord b =? 92) && (ord u =? 117)
                  then
                    match hex4 g1 g2 g3 g4 with
                    | None => Err JSONDecodeError
                    | Some n2 =>
                        if is_low_surrogate n2
                        then '(y, rest) <- scanstring r3;;
                             Ok (join_surrogates n n2 :: y, rest)
                        else '(y, rest) <- scanstring x;;
                             Ok (n :: y, rest)
                    end
                  else '(y, rest) <- scanstring x;; Ok (n :: y, rest)
              | _ => '(y, rest) <- scanstring x;; Ok (n :: y, rest)
              end
          end).
  rewrite Hh.
  destruct x as [|b [|u [|g1 [|g2 [|g3 [|g4 r3]]]]]]; try reflexivity.
  destruct (is_high_surrogate n); [|reflexivity].
  specialize (Hx eq_refl). cbn [low_escape_ahead] in Hx.
  destruct (ord b =? 92); [|reflexivity].
  destruct (ord u =? 117); [|reflexivity].
  cbn [andb] in *.
  destruct (hex4 g1 g2 g3 g4) as [n2|]; [|discriminate Hx].
  rewrite Hx. reflexivity.
Qed.

(** The two escapes of a pair. *)
Lemma scanstring_pair (h1 h2 h3 h4 g1 g2 g3 g4 : ascii) (x : str)
    (hi lo : N) :
  hex4 h1 h2 h3 h4 = Some hi -> hex4 g1 g2 g3 g4 = Some lo ->
  is_high_surrogate hi = true -> is_low_surrogate lo = true ->
  scanstring (backslash :: "u"%char :: h1 :: h2 :: h3 :: h4
              :: backslash :: "u"%char :: g1 :: g2 :: g3 :: g4 :: x)
  = ('(y, rest) <- scanstring x;; Ok (join_surrogates hi lo :: y, rest)).
Proof.
  intros Hh Hg Hhi Hlo.
  change (scanstring (backslash :: "u"%char :: h1 :: h2 :: h3 :: h4
                      :: backslash :: "u"%char :: g1 :: g2 :: g3 :: g4 :: x))
    with (match hex4 h1 h2 h3 h4 with
          | None => Err JSONDecodeError
          | Some n =>
              if is_high_surrogate n && true && true
              then
                match hex4 g1 g2 g3 g4 with
                | None => Err JSONDecodeError
                | Some n2 =>
                    if is_low_surrogate n2
                    then '(y, rest) <- scanstring x;;
                         Ok (join_surrogates n n2 :: y, rest)
                    else '(y, rest) <-
                           scanstring (backslash :: "u"%char :: g1 :: g2
                                       :: g3 :: g4 :: x);;
                         Ok (n :: y, rest)
                end
              else '(y, rest) <-
                     scanstring (backslash :: "u"%char :: g1 :: g2 :: g3
                                 :: g4 :: x);;
                   Ok (n :: y, rest)
          end).
  rewrite Hh, Hhi, Hg, Hlo. reflexivity.
Qed.

(** The halves of the pair of a character beyond U+FFFF. *)
Lemma surrogates_of (c : N) :
  (65536 <= c < 1114112)%N ->
  (high_surrogate c < 65536)%N /\ (low_surrogate c < 65536)%N
  /\ is_high_surrogate (high_surrogate c) = true
  /\ is_low_surrogate (low_surrogate c) = true
  /\ is_low_surrogate (high_surrogate c) = false
  /\ join_surrogates (high_surrogate c) (low_surrogate c) = c.
Proof.
  intros Hc.
  unfold high_surrogate, low_surrogate, is_high_surrogate, is_low_surrogate,
    join_surrogates.
  pose proof (N.div_mod (c - 65536) 1024) as Hd.
  pose proof (N.mod_lt (c - 65536) 1024) as Hm.
  assert (Hq : ((c - 65536) / 1024 < 1024)%N)
    by (apply N.Div0.div_lt_upper_bound; lia).
  set (q := ((c - 65536) / 1024)%N) in *.
  set (r := ((c - 65536) mod 1024)%N) in *.
  repeat split; try lia.
  - apply andb_true_iff. split; apply N.leb_le; lia.
  - apply andb_true_iff. split; apply N.leb_le; lia.
  - apply andb_false_iff. left. apply N.leb_gt. lia.
Qed.

(** The text of one character is read as that character, unless it is a
    high surrogate and the escape of a low surrogate follows. *)
Lemma scanstring_escape_char (c : N) (x : str) :
  (c < 1114112)%N ->
  (is_high_surrogate c = true -> low_escape_ahead x = false) ->
  scanstring (escape_char c ++ x)
  = ('(y, rest) <- scanstring x;; Ok (c :: y, rest)).
Proof.
  intros Hc Hx. unfold escape_char.
  destruct (N.eqb_spec c 34) as [->|H34]; [reflexivity|].
  destruct (N.eqb_spec c 92) as [->|H92]; [reflexivity|].
  destruct (N.eqb_spec c 10) as [->|H10]; [reflexivity|].
  destruct (N.eqb_spec c 13) as [->|H13]; [reflexivity|].
  destruct (N.eqb_spec c 9) as [->|H9]; [reflexivity|].
  destruct (N.eqb_spec c 8) as [->|H8]; [reflexivity|].
  destruct (N.eqb_spec c 12) as [->|H12]; [reflexivity|].
  destruct ((32 <=? c) && (c <=? 126))%N eqn:Ep.
  { apply andb_true_iff in Ep as [E1 E2]. apply N.leb_le in E1, E2.
    cbn [app scanstring]. rewrite !ord_chr by lia.
    destruct (Nat.eqb_spec (N.to_nat c) 34); [lia|].
    destruct (Nat.eqb_spec (N.to_nat c) 92); [lia|].
    destruct (Nat.ltb_spec (N.to_nat c) 32); [lia|].
    rewrite code_chr by lia. reflexivity. }
  destruct (N.ltb_spec c 65536) as [Hb|Hb].
  { unfold hex4_text. cbn [app].
    apply scanstring_u; [apply hex4_hex4_text, Hb | exact Hx]. }
  destruct (surrogates_of c) as (H1 & H2 & H3 & H4 & _ & H5); [lia|].
  unfold hex4_text. cbn [app].
  rewrite (scanstring_pair _ _ _ _ _ _ _ _ x _ _
             (hex4_hex4_text _ H1) (hex4_hex4_text _ H2) H3 H4).
  rewrite H5. reflexivity.
Qed.

(** The text of a character starts with the escape of a low surrogate
    when the character is one. *)
Lemma low_escape_ahead_escape_char (c : N) (x : str) :
  (c < 1114112)%N ->
  low_escape_ahead (escape_char c ++ x) = is_low_surrogate c.
Proof.
  intros Hc. unfold escape_char.
  destruct (N.eqb_spec c 34) as [->|H34]; [reflexivity|].
  destruct (N.eqb_spec c 92) as [->|H92]; [reflexivity|].
  destruct (N.eqb_spec c 10) as [->|H10]; [reflexivity|].
  destruct (N.eqb_spec c 13) as [->|H13]; [reflexivity|].
  destruct (N.eqb_spec c 9) as [->|H9]; [reflexivity|].
  destruct (N.eqb_spec c 8) as [->|H8]; [reflexivity|].
  destruct (N.eqb_spec c 12) as [->|H12]; [reflexivity|].
  destruct ((32 <=? c) && (c <=? 126))%N eqn:Ep.
  { apply andb_true_iff in Ep as [E1 E2]. apply N.leb_le in E1, E2.
    cbn [app low_escape_ahead]. rewrite ord_chr by lia.
    destruct (Nat.eqb_spec (N.to_nat c) 92); [lia|]. cbn [andb].
    symmetry. apply andb_false_iff. left. apply N.leb_gt. lia. }
  destruct (N.ltb_spec c 65536) as [Hb|Hb].
  { unfold hex4_text. cbn [app].
    change (low_escape_ahead (backslash :: "u"%char :: ?a :: ?b :: ?c :: ?d
                              :: x))
      with (match hex4 a b c d with
            | Some n => is_low_surrogate n
            | None => true
            end).
    rewrite (hex4_hex4_text _ Hb). reflexivity. }
  destruct (surrogates_of c) as (H1 & _ & _ & _ & H3 & _); [lia|].
  unfold hex4_text. cbn [app].
  change (low_escape_ahead (backslash :: "u"%char :: ?a :: ?b :: ?c :: ?d
                            :: ?y))
    with (match hex4 a b c d with
          | Some n => is_low_surrogate n
          | None => true
          end).
  rewrite (hex4_hex4_text _ H1), H3.
  symmetry. apply andb_false_iff. right. apply N.leb_gt. lia.
Qed.

(** A surrogate is written as its [\uXXXX]. *)
Lemma escape_char_surrogate (c : N) :
  is_high_surrogate c = true \/ is_low_surrogate c = true ->
  escape_char c = backslash :: "u"%char :: hex4_text c.
Proof.
  unfold is_high_surrogate, is_low_surrogate. intros H.
  assert (Hc : (55296 <= c <= 57343)%N).
  { destruct H as [H|H]; apply andb_true_iff in H as [H1 H2];
      apply N.leb_le in H1, H2; lia. }
  unfold escape_char.
  repeat match goal with
         | |- context [(c =? ?k)%N] =>
             destruct (N.eqb_spec c k); [lia|]
         end.
  destruct ((32 <=? c) && (c <=? 126))%N eqn:Ep.
  { apply andb_true_iff in Ep as [E1 E2]. apply N.leb_le in E1, E2. lia. }
  destruct (N.ltb_spec c 65536); [reflexivity | lia].
Qed.

Lemma join_pairs_cons (a b : N) (r : ustr) :
  join_pairs (a :: b :: r)
  = if is_high_surrogate a && is_low_surrogate b
    then join_surrogates a b :: join_pairs r
    else a :: join_pairs (b :: r).
Proof. reflexivity. Qed.

Lemma no_surrogate_pair_cons (a b : N) (r : ustr) :
  no_surrogate_pair (a :: b :: r)
  = negb (is_high_surrogate a && is_low_surrogate b)
    && no_surrogate_pair (b :: r).
Proof. reflexivity. Qed.

(** What [json.dump] wrote for a string is read back as the string with
    its surrogate pairs joined. *)
Lemma scanstring_encode_join (n : nat) (s : ustr) (rest : str) :
  length s <= n -> is_str s = true ->
  scanstring (flat_map escape_char s ++ quote :: rest)
  = Ok (join_pairs s, rest).
Proof.
  revert s. induction n as [|n IH]; intros s Hl Hs.
  { destruct s; [reflexivity | cbn [length] in Hl; lia]. }
  destruct s as [|c s1]; [reflexivity|].
  cbn [is_str forallb] in Hs. apply andb_true_iff in Hs as [Hc Hs1].
  apply N.ltb_lt in Hc. cbn [length] in Hl.
  destruct s1 as [|c' s2].
  { cbn [flat_map app]. rewrite app_nil_r.
    rewrite scanstring_escape_char; [reflexivity | exact Hc |].
    intros _. reflexivity. }
  pose proof Hs1 as Hs1'.
  cbn [forallb] in Hs1. apply andb_true_iff in Hs1 as [Hc' Hs2].
  apply N.ltb_lt in Hc'. cbn [length] in Hl.
  rewrite join_pairs_cons.
  destruct (is_high_surrogate c && is_low_surrogate c') eqn:Hp.
  - apply andb_true_iff in Hp as [Hh Hlo].
    cbn [flat_map].
    rewrite (escape_char_surrogate c (or_introl Hh)).
    rewrite (escape_char_surrogate c' (or_intror Hlo)).
    unfold hex4_text. rewrite <- !app_assoc. cbn [app].
    assert (Hb : (c < 65536)%N).
    { unfold is_high_surrogate in Hh. apply andb_true_iff in Hh as [_ H2].
      apply N.leb_le in H2. lia. }
    assert (Hb' : (c' < 65536)%N).
    { unfold is_low_surrogate in Hlo. apply andb_true_iff in Hlo as [_ H2].
      apply N.leb_le in H2. lia. }
    rewrite (scanstring_pair _ _ _ _ _ _ _ _ _ _ _
               (hex4_hex4_text _ Hb) (hex4_hex4_text _ Hb') Hh Hlo).
    rewrite (IH s2 ltac:(lia) Hs2). reflexivity.
  - change (flat_map escape_char (c :: c' :: s2))
      with (escape_char c ++ flat_map escape_char (c' :: s2)).
    rewrite <- app_assoc.
    rewrite scanstring_escape_char; [|exact Hc|].
    + rewrite (IH (c' :: s2) ltac:(cbn [length]; lia) Hs1'). reflexivity.
    + intros Hh. cbn [flat_map]. rewrite <- app_assoc.
      rewrite low_escape_ahead_escape_char by exact Hc'.
      rewrite Hh in Hp. exact Hp.
Qed.

Lemma scanstring_encode (s : ustr) (rest : str) :
  is_str s = true ->
  scanstring (flat_map escape_char s ++ quote :: rest)
  = Ok (join_pairs s, rest).
Proof. apply (scanstring_encode_join (length s)), Nat.le_refl. Qed.

(** Joining changes nothing where there is no pair, and shortens the
    string where there is one. *)
Lemma join_pairs_none (s : ustr) :
  no_surrogate_pair s = true -> join_pairs s = s.
Proof.
  induction s as [|a r IH]; [reflexivity|].
  destruct r as [|b r']; [reflexivity|].
  rewrite no_surrogate_pair_cons, join_pairs_cons. intros H.
  apply andb_true_iff in H as [Ha Hr].
  apply negb_true_iff in Ha. rewrite Ha, (IH Hr). reflexivity.
Qed.

Lemma length_join_pairs (n : nat) (s : ustr) :
  length s <= n ->
  length (join_pairs s) <= length s
  /\ (no_surrogate_pair s = false -> length (join_pairs s) < length s).
Proof.
  revert s. induction n as [|n IH]; intros s Hl.
  { destruct s; [|cbn [length] in Hl; lia].
    split; [apply Nat.le_refl | discriminate]. }
  destruct s as [|a [|b r']];
    [split; [apply Nat.le_refl | discriminate] | |].
  { split; [apply Nat.le_refl | discriminate]. }
  cbn [length] in Hl. rewrite join_pairs_cons, no_surrogate_pair_cons.
  destruct (is_high_surrogate a && is_low_surrogate b).
  - destruct (IH r' ltac:(lia)) as [H1 _]. cbn [length negb andb].
    split; [lia | intros _; lia].
  - destruct (IH (b :: r') ltac:(cbn [length]; lia)) as [H1 H2].
    cbn [negb andb]. cbn [length] in *. split; [lia|].
    intros H. specialize (H2 H). lia.
Qed.

Lemma join_pairs_fixed (s : ustr) :
  join_pairs s = s <-> no_surrogate_pair s = true.
Proof.
  split; [|apply join_pairs_none].
  intros H. destruct (no_surrogate_pair s) eqn:E; [reflexivity|].
  destruct (length_join_pairs (length s) s (Nat.le_refl _)) as [_ Hlt].
  specialize (Hlt E). rewrite H in Hlt. lia.
Qed.

(** A string of the tracker is a Python string without surrogates. *)
Lemma widen_is_str (s : str) : is_str (widen s) = true.
Proof.
  induction s as [|c s IH]; [reflexivity|].
  cbn [widen map is_str forallb]. fold (widen s). fold (is_str (widen s)).
  rewrite IH, andb_true_r. apply N.ltb_lt.
  pose proof (code_lt c). lia.
Qed.

Lemma widen_no_surrogate_pair (s : str) : no_surrogate_pair (widen s) = true.
Proof.
  induction s as [|c s IH]; [reflexivity|].
  cbn [widen map no_surrogate_pair]. fold (widen s). rewrite IH, andb_true_r.
  destruct (widen s); [reflexivity|].
  apply negb_true_iff, andb_false_iff. left.
  unfold is_high_surrogate. apply andb_false_iff. left. apply N.leb_gt.
  pose proof (code_lt c). lia.
Qed.

Lemma join_pairs_widen (s : str) : join_pairs (widen s) = widen s.
Proof. apply join_pairs_none, widen_no_surrogate_pair. Qed.

Lemma narrow_widen (s : str) : narrow (widen s) = Some s.
Proof.
  induction s as [|c s IH]; [reflexivity|].
  cbn [widen map narrow]. fold (widen s). rewrite IH.
  rewrite (proj2 (N.ltb_lt _ _) (code_lt c)), chr_code. reflexivity.
Qed.

Lemma ustr_eqb_eq (a b : ustr) : ustr_eqb a b = true <-> a = b.
Proof.
  revert b. induction a as [|x a IH]; intros [|y b]; cbn [ustr_eqb];
    try (split; [discriminate | intros H; discriminate H]);
    [split; reflexivity|].
  rewrite andb_true_iff, N.eqb_eq, IH. split.
  - intros [-> ->]. reflexivity.
  - intros H. inversion H. auto.
Qed.

Lemma widen_inj (a b : str) : widen a = widen b -> a = b.
Proof.
  intros H. apply (f_equal narrow) in H. rewrite !narrow_widen in H.
  inversion H. reflexivity.
Qed.

Lemma skip_ws_newline_indent (level : nat) (s : str) :
  skip_ws (newline_indent level ++ s) = skip_ws s.
Proof.
  unfold newline_indent. cbn [app]. change (skip_ws (newline :: ?x))
    with (skip_ws x).
  induction (2 * level) as [|n IH]; [reflexivity|].
  cbn [repeat app]. exact IH.
Qed.

Lemma object_members_eq (fuel' : nat) (s : str) :
  object_members (S fuel') s =
  ('(k, r) <- scanstring s;;
   match skip_ws r with
   | [] => Err JSONDecodeError
   | c :: r1 =>
       if ord c =? 58
       then
         '(v, r2) <- scan_once fuel' (skip_ws r1);;
         match skip_ws r2 with
         | [] => Err JSONDecodeError
         | c' :: r3 =>
             if ord c' =? 125 then Ok ([(k, v)], r3)
             else if ord c' =? 44
             then
               match skip_ws r3 with
               | [] => Err JSONDecodeError
               | q :: r4 =>
                   if ord q =? 34
                   then '(ms, r5) <- object_members fuel' r4;;
                        Ok ((k, v) :: ms, r5)
                   else Err JSONDecodeError
               end
             else Err JSONDecodeError
         end
       else Err JSONDecodeError
   end).
Proof. reflexivity. Qed.

Lemma array_items_eq (fuel' : nat) (s : str) :
  array_items (S fuel') s =
  ('(v, r) <- scan_once fuel' s;;
   match skip_ws r with
   | [] => Err JSONDecodeError
   | c :: r1 =>
       if ord c =? 93 then Ok ([v], r1)
       else if ord c =? 44
       then '(vs, r2) <- array_items fuel' (skip_ws r1);;
            Ok (v :: vs, r2)
       else Err JSONDecodeError
   end).
Proof. reflexivity. Qed.

Lemma scan_once_string (f : nat) (s : ustr) (rest : str) :
  is_str s = true ->
  scan_once (S f) (quote :: flat_map escape_char s ++ quote :: rest)
  = Ok (JStr (join_pairs s), rest).
Proof.
  intros Hs.
  change (scan_once (S f) (quote :: ?x))
    with ('(x0, r') <- scanstring x;; Ok (JStr x0, r')).
  rewrite (scanstring_encode _ _ Hs). reflexivity.
Qed.

(** One member whose value is a string, and what follows it. *)
Lemma object_members_string (f : nat) (k v : ustr) (tail : str) :
  is_str k = true -> is_str v = true ->
  object_members (S (S f))
    (flat_map escape_char k ++ quote :: ":"%char :: " "%char :: quote
     :: flat_map escape_char v ++ quote :: tail) =
  match skip_ws tail with
  | [] => Err JSONDecodeError
  | c' :: r3 =>
      if ord c' =? 125
      then Ok ([(join_pairs k, JStr (join_pairs v))], r3)
      else if ord c' =? 44
      then
        match skip_ws r3 with
        | [] => Err JSONDecodeError
        | q :: r4 =>
            if ord q =? 34
            then '(ms, r5) <- object_members (S f) r4;;
                 Ok ((join_pairs k, JStr (join_pairs v)) :: ms, r5)
            else Err JSONDecodeError
        end
      else Err JSONDecodeError
  end.
Proof.
  intros Hk Hv.
  rewrite object_members_eq, (scanstring_encode _ _ Hk).
  cbv beta iota delta [bind].
  change (skip_ws (":"%char :: " "%char :: quote :: ?x))
    with (":"%char :: " "%char :: quote :: x).
  cbv beta iota.
  change (ord ":" =? 58) with true. cbv iota.
  change (skip_ws (" "%char :: quote :: ?x)) with (quote :: x).
  rewrite (scan_once_string _ _ _ Hv). reflexivity.
Qed.

(** The text of an entry, character by character. *)
Lemma entry_text (level : nat) (e : Unicode.entry) (rest : str) :
  encode level (Unicode.entry_to_json e) ++ rest =
  "{"%char :: newline_indent (S level) ++ quote
  :: flat_map escape_char (widen (py "command")) ++ quote
  :: ":"%char :: " "%char :: quote
  :: flat_map escape_char (Unicode.command e) ++ quote :: ","%char
  :: newline_indent (S level) ++ quote
  :: flat_map escape_char (widen (py "base_command")) ++ quote
  :: ":"%char :: " "%char :: quote
  :: flat_map escape_char (Unicode.base_command e) ++ quote :: ","%char
  :: newline_indent (S level) ++ quote
  :: flat_map escape_char (widen (py "timestamp")) ++ quote
  :: ":"%char :: " "%char :: quote
  :: flat_map escape_char (Unicode.timestamp e) ++ quote :: ","%char
  :: newline_indent (S level) ++ quote
  :: flat_map escape_char (widen (py "full_command")) ++ quote
  :: ":"%char :: " "%char :: quote
  :: flat_map escape_char (Unicode.full_command e) ++ quote
  :: newline_indent level ++ "}"%char :: rest.
Proof.
  unfold Unicode.entry_to_json. cbn [encode]. unfold encode_string.
  change (py "{") with ["{"%char]. change (py "}") with ["}"%char].
  change (py ",") with [","%char].
  change (py ": ") with [":"%char; " "%char].
  repeat (rewrite <- ?app_assoc; cbn [app]).
  reflexivity.
Qed.

Lemma skip_ws_indent_quote (level : nat) (s : str) :
  skip_ws (newline_indent level ++ quote :: s) = quote :: s.
Proof. rewrite skip_ws_newline_indent. reflexivity. Qed.

Lemma is_entry_fields (e : Unicode.entry) :
  is_entry e = true ->
  is_str (Unicode.command e) = true
  /\ is_str (Unicode.base_command e) = true
  /\ is_str (Unicode.timestamp e) = true
  /\ is_str (Unicode.full_command e) = true.
Proof.
  unfold is_entry. rewrite !andb_true_iff. tauto.
Qed.

(** The scanner reads an entry back, whatever follows it. *)
Lemma scan_once_entry (level f : nat) (e : Unicode.entry) (rest : str) :
  is_entry e = true ->
  scan_once (7 + f) (encode level (Unicode.entry_to_json e) ++ rest)
  = Ok (Unicode.entry_to_json (join_entry e), rest).
Proof.
  intros He. destruct (is_entry_fields e He) as (H1 & H2 & H3 & H4).
  assert (Hk : forall k, is_str (widen (py k)) = true)
    by (intros k; apply widen_is_str).
  rewrite entry_text.
  change (scan_once (7 + f) ("{"%char :: ?x)) with (JSONObject (6 + f) x).
  change (JSONObject (6 + f) ?x)
    with (match skip_ws x with
          | [] => Err JSONDecodeError
          | c :: r =>
              if ord c =? 125 then Ok (JObj [], r)
              else if ord c =? 34
              then '(ms, r') <- object_members (5 + f) r;; Ok (JObj ms, r')
              else Err JSONDecodeError
          end).
  rewrite skip_ws_indent_quote.
  change (ord quote =? 125) with false. change (ord quote =? 34) with true.
  cbv iota.
  change (5 + f) with (S (S (3 + f))).
  rewrite (object_members_string _ _ _ _ (Hk _) H1).
  change (skip_ws (","%char :: ?x)) with (","%char :: x). cbv iota.
  change (ord "," =? 125) with false. change (ord "," =? 44) with true.
  cbv iota. rewrite skip_ws_indent_quote.
  change (ord quote =? 34) with true. cbv iota.
  change (S (3 + f)) with (S (S (2 + f))).
  rewrite (object_members_string _ _ _ _ (Hk _) H2).
  change (skip_ws (","%char :: ?x)) with (","%char :: x). cbv iota.
  change (ord "," =? 125) with false. change (ord "," =? 44) with true.
  cbv iota. rewrite skip_ws_indent_quote.
  change (ord quote =? 34) with true. cbv iota.
  change (S (2 + f)) with (S (S (1 + f))).
  rewrite (object_members_string _ _ _ _ (Hk _) H3).
  change (skip_ws (","%char :: ?x)) with (","%char :: x). cbv iota.
  change (ord "," =? 125) with false. change (ord "," =? 44) with true.
  cbv iota. rewrite skip_ws_indent_quote.
  change (ord quote =? 34) with true. cbv iota.
  change (S (1 + f)) with (S (S f)).
  rewrite (object_members_string _ _ _ _ (Hk _) H4).
  rewrite skip_ws_newline_indent.
  change (skip_ws ("}"%char :: ?x)) with ("}"%char :: x). cbv iota.
  change (ord "}" =? 125) with true. cbv iota.
  rewrite !join_pairs_widen. reflexivity.
Qed.

Lemma encode_array (level : nat) (x : json) (xs : list json) :
  encode level (JArr (x :: xs)) =
  "["%char :: newline_indent (S level) ++ encode (S level) x
  ++ encode_items (S level) xs ++ newline_indent level ++ ["]"%char].
Proof.
  cbn [encode]. change (py "[") with ["["%char].
  change (py "]") with ["]"%char]. cbn [app]. do 3 f_equal.
  induction xs as [|y r IH]; [reflexivity|].
  cbn [encode_items app]. rewrite <- !app_assoc. do 3 f_equal. exact IH.
Qed.

Lemma skip_ws_entry (level : nat) (e : Unicode.entry) (rest : str) :
  skip_ws (encode level (Unicode.entry_to_json e) ++ rest)
  = encode level (Unicode.entry_to_json e) ++ rest.
Proof. rewrite entry_text. reflexivity. Qed.

(** The scanner reads the entries of a list back. *)
Lemma array_items_entries (level f : nat) (es : list Unicode.entry)
    (e : Unicode.entry) (rest : str) :
  forallb is_entry (e :: es) = true ->
  array_items (S (length es) + 7 + f)
    (encode (S level) (Unicode.entry_to_json e)
     ++ encode_items (S level) (map Unicode.entry_to_json es)
     ++ newline_indent level ++ "]"%char :: rest)
  = Ok (map Unicode.entry_to_json (map join_entry (e :: es)), rest).
Proof.
  revert e. induction es as [|e' es IH]; intros e He;
    cbn [forallb] in He; apply andb_true_iff in He as [He Hes].
  - change (S (length (@nil Unicode.entry)) + 7 + f) with (S (7 + f)).
    rewrite array_items_eq, (scan_once_entry _ _ _ _ He).
    cbv beta iota delta [bind]. cbn [map encode_items app].
    rewrite skip_ws_newline_indent. reflexivity.
  - change (S (length (e' :: es)) + 7 + f)
      with (S (S (length es) + 7 + f)).
    rewrite array_items_eq.
    replace (S (length es) + 7 + f) with (7 + (S (length es) + f)) at 1
      by lia.
    rewrite (scan_once_entry _ _ _ _ He).
    cbv beta iota delta [bind]. cbn [map encode_items].
    change (py ",") with [","%char]. cbn [app].
    change (skip_ws (","%char :: ?x)) with (","%char :: x). cbv iota.
    change (ord "," =? 93) with false. change (ord "," =? 44) with true.
    cbv iota.
    rewrite <- !app_assoc, skip_ws_newline_indent, skip_ws_entry.
    rewrite (IH e' Hes). reflexivity.
Qed.

Lemma length_encode_items (level : nat) (l : list json) :
  length l <= length (encode_items level l).
Proof.
  induction l as [|y r IH]; [apply Nat.le_refl|].
  cbn [encode_items length]. change (py ",") with [","%char].
  cbn [app length]. rewrite !length_app. lia.
Qed.

(** [json.loads(json.dumps(cs, indent=2))] is the document of [cs] with the
    surrogate pairs of its strings joined. *)
Lemma loads_dumps_unicode (es : list Unicode.entry) :
  forallb is_entry es = true ->
  loads (dumps (Unicode.commands_to_json es))
  = Ok (Unicode.commands_to_json (map join_entry es)).
Proof.
  intros Hes. destruct es as [|e es]; [reflexivity|].
  unfold loads, dumps, Unicode.commands_to_json. cbn [map].
  rewrite encode_array.
  change (skip_ws ("["%char :: ?x)) with ("["%char :: x).
  set (text := "["%char :: _).
  assert (Hlen : length es + 4 <= length text).
  { unfold text. cbn [length]. unfold newline_indent.
    rewrite !length_app. cbn [length].
    pose proof (length_encode_items 1 (map Unicode.entry_to_json es)) as H.
    rewrite length_map in H. lia. }
  destruct (Nat.le_exists_sub (length es + 10) (3 * length text + 3))
    as (f & Hf & _); [lia|].
  replace (3 * length text + 3) with (S (S (S (length es) + 7 + f))) by lia.
  unfold text.
  change (scan_once (S (S ?n)) ("["%char :: ?x))
    with (match skip_ws x with
          | [] => Err JSONDecodeError
          | c :: r =>
              if ord c =? 93 then Ok (JArr [], r)
              else '(vs, r') <- array_items n (c :: r);; Ok (JArr vs, r')
          end).
  rewrite skip_ws_newline_indent, skip_ws_entry.
  rewrite (entry_text 1 e) at 1. cbv iota.
  change (ord "{" =? 93) with false. cbv iota.
  rewrite <- (entry_text 1 e).
  change (["]"%char]) with ("]"%char :: []).
  rewrite (array_items_entries 0 f es e [] Hes).
  reflexivity.
Qed.

Lemma entry_to_json_widen (e : entry) :
  entry_to_json e = Unicode.entry_to_json (widen_entry e).
Proof. reflexivity. Qed.

Lemma commands_to_json_widen (es : list entry) :
  commands_to_json es = Unicode.commands_to_json (map widen_entry es).
Proof.
  unfold commands_to_json, Unicode.commands_to_json. rewrite map_map.
  reflexivity.
Qed.

Lemma is_entry_widen (e : entry) : is_entry (widen_entry e) = true.
Proof.
  unfold is_entry, widen_entry. cbn. rewrite !widen_is_str. reflexivity.
Qed.

Lemma join_entry_widen (e : entry) : join_entry (widen_entry e) = widen_entry e.
Proof.
  unfold join_entry, widen_entry. cbn. rewrite !join_pairs_widen.
  reflexivity.
Qed.

(** [json.loads(json.dumps(cs, indent=2))] is the document of [cs], for a
    history of the tracker. *)
Lemma loads_dumps_commands (es : list entry) :
  loads (dumps (commands_to_json es)) = Ok (commands_to_json es).
Proof.
  rewrite !commands_to_json_widen, loads_dumps_unicode.
  - do 2 f_equal. rewrite map_map. apply map_ext. intros e.
    apply join_entry_widen.
  - apply forallb_forall. intros x Hx. apply in_map_iff in Hx as (e & <- & _).
    apply is_entry_widen.
Qed.

Lemma json_to_entry_entry (e : entry) : json_to_entry (entry_to_json e) = Ok e.
Proof.
  unfold json_to_entry, entry_to_json.
  rewrite !(proj2 (ustr_eqb_eq _ _) eq_refl), !narrow_widen.
  destruct e; reflexivity.
Qed.

Lemma json_to_entries_entries (es : list entry) :
  json_to_entries (map entry_to_json es) = Ok es.
Proof.
  induction es as [|e es IH]; [reflexivity|].
  cbn [map json_to_entries]. rewrite json_to_entry_entry, IH. reflexivity.
Qed.

Lemma load_commands_dumps (cs cs0 : list entry) :
  load_commands (Tracker cs0 (Some (dumps (commands_to_json cs))))
  = Ok (Tracker cs (Some (dumps (commands_to_json cs)))).
Proof.
  unfold load_commands. cbn [commands_file].
  rewrite loads_dumps_commands. cbv beta iota delta [bind].
  unfold commands_to_json, json_to_commands.
  rewrite json_to_entries_entries. reflexivity.
Qed.

(* ------------------------------------------------------------------ *)
(** ** C5: the file round trip *)

Lemma unicode_json_to_entries (es : list Unicode.entry) :
  Unicode.json_to_entries (map Unicode.entry_to_json es) = Ok es.
Proof.
  induction es as [|e es IH]; [reflexivity|].
  cbn [map Unicode.json_to_entries].
  replace (Unicode.json_to_entry (Unicode.entry_to_json e)) with (Ok e)
    by (destruct e; reflexivity).
  cbn [bind]. rewrite IH. reflexivity.
Qed.

(** Loading what was saved, for a history over all strings. *)
Lemma unicode_load_dumps (cs cs0 : list Unicode.entry) :
  forallb is_entry cs = true ->
  Unicode.load_commands
    (Unicode.Tracker cs0 (Some (dumps (Unicode.commands_to_json cs))))
  = Ok (Unicode.Tracker (map join_entry cs)
          (Some (dumps (Unicode.commands_to_json cs)))).
Proof.
  intros H. unfold Unicode.load_commands. cbn [Unicode.commands_file].
  rewrite (loads_dumps_unicode _ H). cbv beta iota delta [bind].
  unfold Unicode.commands_to_json, Unicode.json_to_commands.
  rewrite unicode_json_to_entries. reflexivity.
Qed.

Lemma join_entry_fixed (e : Unicode.entry) :
  join_entry e = e <-> pair_free e = true.
Proof.
  unfold pair_free, join_entry. rewrite !andb_true_iff.
  rewrite <- !join_pairs_fixed. destruct e as [a b c d].
  cbn [Unicode.command Unicode.base_command Unicode.timestamp
       Unicode.full_command].
  split.
  - intros H. inversion H as [[Ha Hb Hc Hd]].
    rewrite Ha, Hb, Hc, Hd. auto.
  - intros [[[-> ->] ->] ->]. reflexivity.
Qed.

Lemma map_join_entry_fixed (cs : list Unicode.entry) :
  map join_entry cs = cs <-> forallb pair_free cs = true.
Proof.
  induction cs as [|e cs IH]; [split; reflexivity|].
  cbn [map forallb]. rewrite andb_true_iff, <- IH, <- join_entry_fixed.
  split.
  - intros H. inversion H as [[He Hcs]]. rewrite He, Hcs. auto.
  - intros [-> ->]. reflexivity.
Qed.

(** C5, as stated: for every history, loading the file that
    [save_commands] wrote gives the history back.  A command that is the
    two surrogates U+D83D U+DE00 is written as two escapes, of D83D and
    of DE00, and [json.load] reads the two as the one character U+1F600:
    the loaded history is not the saved one. *)
Lemma roundtrip_counterexample :
  let saved :=
    Unicode.save_commands (Unicode.Tracker surrogate_history None) in
  forallb is_entry surrogate_history = true
  /\ Unicode.load_commands saved <> Ok saved
  /\ exists t,
       Unicode.load_commands saved = Ok t
       /\ map Unicode.command (Unicode.commands t) = [[128512%N]]
       /\ map Unicode.command surrogate_history = [[55357%N; 56832%N]].
Proof.
  cbv zeta. split; [reflexivity|]. split.
  - intros H. vm_compute in H. discriminate H.
  - eexists. split; [vm_compute; reflexivity|]. split; reflexivity.
Qed.

(** C5, amended: loading the file that [save_commands] wrote gives the
    history in which every high surrogate with a low surrogate next to it
    has become the one character the two encode, and nothing else has
    changed.  So the history itself comes back exactly when no string of it
    holds such a pair: for every history of strings up to U+00FF, as the
    entries of this embedding's tracker are, and for the empty history. *)
Theorem load_save_roundtrip (cs cs0 : list Unicode.entry)
    (file : option str) :
  forallb is_entry cs = true ->
  let saved := Unicode.save_commands (Unicode.Tracker cs file) in
  Unicode.load_commands (Unicode.Tracker cs0 (Unicode.commands_file saved))
  = Ok (Unicode.Tracker (map join_entry cs) (Unicode.commands_file saved))
  /\ Unicode.commands saved = cs
  /\ (Unicode.load_commands saved = Ok saved
      <-> forallb pair_free cs = true)
  /\ (forall (ncs ncs0 : list entry) (nfile : option str),
        load_commands
          (Tracker ncs0 (commands_file (save_commands (Tracker ncs nfile))))
        = Ok (save_commands (Tracker ncs nfile))
        /\ commands (save_commands (Tracker ncs nfile)) = ncs
        /\ commands_file (save_commands (Tracker ncs nfile))
           = Unicode.commands_file
               (Unicode.save_commands
                  (Unicode.Tracker (map widen_entry ncs) nfile))
        /\ forallb pair_free (map widen_entry ncs) = true)
  /\ init (commands_file (save_commands (Tracker [] file)))
     = Ok (Tracker [] (Some (py "[]"))).
Proof.
  intros H. cbv zeta. unfold Unicode.save_commands.
  cbn [Unicode.commands Unicode.commands_file].
  split; [apply unicode_load_dumps, H|]. split; [reflexivity|].
  split; [|split; [|reflexivity]].
  - rewrite (unicode_load_dumps cs cs H), <- map_join_entry_fixed.
    split.
    + intros Heq. inversion Heq as [Hm]. rewrite Hm. exact Hm.
    + intros ->. reflexivity.
  - intros ncs ncs0 nfile. split; [apply load_commands_dumps|].
    split; [reflexivity|]. split.
    + unfold save_commands, save_commands_io. cbn [commands commands_file].
      rewrite commands_to_json_widen. reflexivity.
    + apply forallb_forall. intros x Hx.
      apply in_map_iff in Hx as (e & <- & _).
      apply join_entry_fixed, join_entry_widen.
Qed.

(** The theorem at a history with a Cyrillic command and a character
    beyond U+FFFF. *)
Lemma load_save_roundtrip_witness :
  let cs :=
    [Unicode.Entry [1083%N; 1089%N; 32%N; 128512%N] [1083%N; 1089%N]
                   (widen (py "2024-02-29T13:05:09"))
                   [1083%N; 1089%N; 32%N; 128512%N]] in
  Unicode.load_commands (Unicode.save_commands (Unicode.Tracker cs None))
  = Ok (Unicode.save_commands (Unicode.Tracker cs None)).
Proof.
  cbv zeta.
  match goal with
  | |- Unicode.load_commands
         (Unicode.save_commands (Unicode.Tracker ?cs None)) = _ =>
      destruct (load_save_roundtrip cs [] None eq_refl)
        as (_ & _ & [_ H] & _)
  end.
  apply H. reflexivity.
Defined.

(* ------------------------------------------------------------------ *)
(** ** C9: loading does not truncate *)

(** C9: a file that holds more than 10000 entries is loaded whole: the
    history of the new tracker is the persisted one, longer than
    [MAX_COMMANDS].  The bound is applied by the next call of
    [log_command] that appends, and a call that appends nothing leaves the
    long history in place. *)
Theorem load_commands_keeps_all (cs : list entry) :
  MAX_COMMANDS < length cs ->
  exists t,
    init (Some (dumps (commands_to_json cs))) = Ok t
    /\ commands t = cs
    /\ MAX_COMMANDS < length (commands t)
    /\ forall line now,
         match new_entry line now with
         | Some e =>
             commands (log_command t line now)
             = last_n MAX_COMMANDS (cs ++ [e])
             /\ length (commands (log_command t line now)) = MAX_COMMANDS
         | None => commands (log_command t line now) = cs
         end.
Proof.
  intros Hlen. eexists. split; [apply load_commands_dumps|].
  cbn [commands]. split; [reflexivity|]. split; [exact Hlen|].
  intros line now. rewrite commands_log_command. cbn [commands].
  destruct (new_entry line now) as [e|]; [|reflexivity].
  assert (Hl : MAX_COMMANDS < length (cs ++ [e]))
    by (rewrite length_app; cbn [length]; lia).
  rewrite (cap_large _ Hl). split; [reflexivity|].
  apply length_last_n. lia.
Qed.

(** The theorem at a file of 10001 entries. *)
Lemma load_commands_keeps_all_witness :
  exists t,
    init (Some (dumps (commands_to_json
                         (repeat (Entry (py "ls") (py "ls")
                                        (isoformat (Naive the_clock)) (py "ls"))
                                 10001)))) = Ok t
    /\ length (commands t) = 10001.
Proof.
  destruct (load_commands_keeps_all
              (repeat (Entry (py "ls") (py "ls") (isoformat (Naive the_clock))
                             (py "ls")) 10001))
    as (t & Hi & Hc & _).
  - rewrite repeat_length. apply Nat.ltb_lt. vm_compute. reflexivity.
  - exists t. split; [exact Hi|]. rewrite Hc. apply repeat_length.
Defined.

(* ------------------------------------------------------------------ *)
(** ** C3: how an append reaches the file *)




(* ------------------------------------------------------------------ *)
(** ** Dictionaries and counters *)

Section DictFacts.
Variable V : Type.
Implicit Types (d : dict V) (k : str) (v : V).

Lemma dict_get_set_same d k v : dict_get k (dict_set k v d) = Some v.
Proof.
  induction d as [|[k' v'] r IH]; simpl.
  - rewrite str_eqb_refl. reflexivity.
  - destruct (str_eqb k k') eqn:E; simpl; rewrite E; auto.
Qed.

Lemma dict_get_set_other d k k' v :
  k <> k' -> dict_get k (dict_set k' v d) = dict_get k d.
Proof.
  intros Hne. induction d as [|[k0 v0] r IH]; simpl.
  - rewrite (proj2 (str_eqb_neq k k') Hne). reflexivity.
  - destruct (str_eqb k' k0) eqn:E; simpl.
    + apply str_eqb_eq in E; subst k0.
      rewrite (proj2 (str_eqb_neq k k') Hne). reflexivity.
    + destruct (str_eqb k k0); auto.
Qed.

Lemma dict_get_set d k k' v :
  dict_get k (dict_set k' v d) =
  if str_eqb k k' then Some v else dict_get k d.
Proof.
  destruct (str_eqb k k') eqn:E.
  - apply str_eqb_eq in E; subst. apply dict_get_set_same.
  - apply dict_get_set_other, str_eqb_neq, E.
Qed.

Lemma dict_get_in_keys d k :
  In k (dict_keys d) <-> dict_get k d <> None.
Proof.
  induction d as [|[k' v'] r IH]; simpl.
  - split; [tauto | congruence].
  - destruct (str_eqb k k') eqn:E.
    + apply str_eqb_eq in E; subst. split; [discriminate | auto].
    + apply str_eqb_neq in E. rewrite <- IH.
      split; [intros [H|H]; [congruence | exact H] | auto].
Qed.

Lemma dict_keys_set d k v :
  dict_keys (dict_set k v d) =
  if mem_str k (dict_keys d) then dict_keys d else dict_keys d ++ [k].
Proof.
  unfold dict_keys.
  induction d as [|[k' v'] r IH]; simpl; [reflexivity|].
  destruct (str_eqb k k') eqn:E; simpl; [reflexivity|].
  rewrite IH.
  destruct (mem_str k (map fst r)); reflexivity.
Qed.

Lemma mem_str_In (k : str) (l : list str) : mem_str k l = true <-> In k l.
Proof.
  induction l as [|y r IH]; simpl; [split; [discriminate | tauto]|].
  rewrite orb_true_iff, str_eqb_eq, IH. split; intros [H|H]; auto.
Qed.

Lemma dict_set_NoDup d k v :
  NoDup (dict_keys d) -> NoDup (dict_keys (dict_set k v d)).
Proof.
  intros H. rewrite dict_keys_set.
  destruct (mem_str k (dict_keys d)) eqn:E; [exact H|].
  apply NoDup_app; [exact H | repeat constructor; simpl; tauto |].
  intros x Hx [<-|[]].
  apply mem_str_In in Hx. congruence.
Qed.

(** Equal dicts have the same number of keys. *)
Lemma dict_eq_length d1 d2 :
  NoDup (dict_keys d1) -> NoDup (dict_keys d2) -> dict_eq d1 d2 ->
  length d1 = length d2.
Proof.
  intros H1 H2 He.
  rewrite <- (length_map fst d1), <- (length_map fst d2).
  apply Permutation_length, NoDup_Permutation; [exact H1 | exact H2 |].
  intros k. fold (dict_keys d1) (dict_keys d2).
  rewrite !dict_get_in_keys, (He k). tauto.
Qed.

End DictFacts.

Lemma dict_get_map_values (V W : Type) (g : V -> W) (d : dict V) (k : str) :
  dict_get k (map (fun kv => (fst kv, g (snd kv))) d)
  = option_map g (dict_get k d).
Proof.
  induction d as [|[k' v'] r IH]; simpl; [reflexivity|].
  destruct (str_eqb k k'); [reflexivity | exact IH].
Qed.

Lemma count_elements_get (c : dict nat) (xs : list str) (k : str) :
  dict_get k (count_elements c xs) =
  match dict_get k c, occurrences k xs with
  | None, 0 => None
  | Some n, m => Some (n + m)
  | None, m => Some m
  end.
Proof.
  unfold occurrences. revert c.
  induction xs as [|x xs IH]; intros c; simpl.
  - destruct (dict_get k c); [f_equal; lia | reflexivity].
  - unfold count_elements in *. simpl. rewrite IH, dict_get_set.
    destruct (str_eqb k x) eqn:E; simpl.
    + apply str_eqb_eq in E; subst x.
      destruct (dict_get k c); f_equal; lia.
    + reflexivity.
Qed.

Lemma count_elements_NoDup (c : dict nat) (xs : list str) :
  NoDup (dict_keys c) -> NoDup (dict_keys (count_elements c xs)).
Proof.
  revert c. induction xs as [|x xs IH]; intros c H; [exact H|].
  unfold count_elements in *. simpl. apply IH, dict_set_NoDup, H.
Qed.

Lemma Counter_get (xs : list str) (k : str) :
  dict_get k (Counter xs) =
  match occurrences k xs with 0 => None | m => Some m end.
Proof. unfold Counter. rewrite count_elements_get. reflexivity. Qed.

Lemma filter_Permutation (A : Type) (p : A -> bool) (l l' : list A) :
  Permutation l l' -> Permutation (filter p l) (filter p l').
Proof.
  induction 1 as [|x l l' _ IH|x y l|l l' l'' _ IH1 _ IH2]; simpl.
  - constructor.
  - destruct (p x); [constructor|]; exact IH.
  - destruct (p x), (p y); try apply Permutation_refl. apply perm_swap.
  - eapply Permutation_trans; eassumption.
Qed.

Lemma occurrences_Permutation (k : str) (xs ys : list str) :
  Permutation xs ys -> occurrences k xs = occurrences k ys.
Proof.
  intros H. unfold occurrences.
  apply Permutation_length, filter_Permutation, H.
Qed.

(** A counter depends on how often each element occurs, not on where. *)
Lemma Counter_Permutation (xs ys : list str) :
  Permutation xs ys ->
  dict_eq (Counter xs) (Counter ys)
  /\ length (Counter xs) = length (Counter ys).
Proof.
  intros H.
  assert (He : dict_eq (Counter xs) (Counter ys)).
  { intros k. rewrite !Counter_get, (occurrences_Permutation k _ _ H).
    reflexivity. }
  split; [exact He|].
  apply dict_eq_length; [| | exact He];
    apply count_elements_NoDup; constructor.
Qed.

(* ------------------------------------------------------------------ *)
(** ** The order on datetimes *)

Lemma lex_compare_eq (a b : list Z) : lex_compare a b = Eq -> a = b.
Proof.
  revert b. induction a as [|x a IH]; intros [|y b]; simpl;
    try discriminate; [reflexivity|].
  destruct (Z.compare_spec x y) as [->| |]; try discriminate.
  intros H. f_equal. apply IH, H.
Qed.

Lemma lex_compare_antisym (a b : list Z) :
  lex_compare b a = CompOpp (lex_compare a b).
Proof.
  revert b. induction a as [|x a IH]; intros [|y b]; simpl;
    try reflexivity.
  rewrite (Z.compare_antisym x y).
  destruct (x ?= y)%Z; simpl; [apply IH | reflexivity | reflexivity].
Qed.

Lemma lex_compare_trans (a b c : list Z) :
  lex_compare a b = Gt -> lex_compare b c = Gt -> lex_compare a c = Gt.
Proof.
  revert b c. induction a as [|x a IH]; intros [|y b] [|z c]; simpl;
    try discriminate; try reflexivity.
  destruct (Z.compare_spec x y) as [->| |]; try discriminate.
  - destruct (Z.compare_spec y z) as [->| |]; try discriminate.
    + apply IH.
    + reflexivity.
  - destruct (Z.compare_spec y z) as [->| |]; try discriminate; intros _ _.
    + destruct (Z.compare_spec x z); [lia | lia | reflexivity].
    + destruct (Z.compare_spec x z); [lia | lia | reflexivity].
Qed.

Lemma dt_compare_eq (a b : datetime) : dt_compare a b = Eq -> a = b.
Proof.
  intros H. apply lex_compare_eq in H.
  destruct a, b. unfold dt_tuple in H. simpl in H.
  inversion H. reflexivity.
Qed.

Lemma dt_gtb_antisym (a b : datetime) :
  dt_gtb a b = true -> dt_gtb b a = false.
Proof.
  unfold dt_gtb, dt_compare.
  rewrite (lex_compare_antisym (dt_tuple a) (dt_tuple b)).
  destruct (lex_compare (dt_tuple a) (dt_tuple b)); simpl; congruence.
Qed.

Lemma dt_gtb_total (a b : datetime) :
  dt_gtb a b = false -> dt_gtb b a = false -> a = b.
Proof.
  unfold dt_gtb. intros H1 H2. apply dt_compare_eq.
  unfold dt_compare in *.
  rewrite (lex_compare_antisym (dt_tuple a) (dt_tuple b)) in H2.
  destruct (lex_compare (dt_tuple a) (dt_tuple b)); simpl in *; congruence.
Qed.

Lemma dt_gtb_trans (a b c : datetime) :
  dt_gtb a b = true -> dt_gtb b c = true -> dt_gtb a c = true.
Proof.
  unfold dt_gtb, dt_compare. intros H1 H2.
  rewrite (lex_compare_trans (dt_tuple a) (dt_tuple b) (dt_tuple c));
    [reflexivity | |].
  - destruct (lex_compare (dt_tuple a) (dt_tuple b)); congruence.
  - destruct (lex_compare (dt_tuple b) (dt_tuple c)); congruence.
Qed.

Lemma later_two (a b : datetime) : later (Some a) b = later (Some b) a.
Proof.
  unfold later.
  destruct (dt_gtb b a) eqn:Hba, (dt_gtb a b) eqn:Hab; try reflexivity.
  - rewrite (dt_gtb_antisym _ _ Hba) in Hab. discriminate.
  - apply dt_gtb_total; assumption.
Qed.

(** Taking the later of two timestamps does not depend on their order. *)
Lemma later_comm (old : option datetime) (a b : datetime) :
  later (Some (later old a)) b = later (Some (later old b)) a.
Proof.
  destruct old as [o|]; [|apply later_two].
  unfold later at 2 4.
  destruct (dt_gtb a o) eqn:Hao, (dt_gtb b o) eqn:Hbo.
  - apply later_two.
  - unfold later. rewrite Hao.
    destruct (dt_gtb b a) eqn:Hba; [|reflexivity].
    rewrite (dt_gtb_trans _ _ _ Hba Hao) in Hbo. discriminate.
  - unfold later. rewrite Hbo.
    destruct (dt_gtb a b) eqn:Hab; [|reflexivity].
    rewrite (dt_gtb_trans _ _ _ Hab Hbo) in Hao. discriminate.
  - unfold later. rewrite Hao, Hbo. reflexivity.
Qed.

Lemma latest_Permutation (k : str) (cs cs' : list entry) :
  Permutation cs cs' -> forall old, latest k old cs = latest k old cs'.
Proof.
  induction 1 as [|x l l' _ IH|x y l|l l' l'' _ IH1 _ IH2]; intros old;
    cbn [latest].
  - reflexivity.
  - destruct (str_eqb k (base_command x)); [|apply IH].
    destruct (fromisoformat (timestamp x)) as [[ts|d o]|]; apply IH.
  - destruct (str_eqb k (base_command x)), (str_eqb k (base_command y));
      try reflexivity.
    destruct (fromisoformat (timestamp x)) as [[ts|d o]|],
             (fromisoformat (timestamp y)) as [[ts'|d' o']|];
      try reflexivity.
    rewrite later_comm. reflexivity.
  - rewrite IH1. apply IH2.
Qed.

(** Between naive datetimes the order is the one of the fields. *)
Lemma dt_gt_naive (a b : datetime) :
  dt_gt (Naive a) (Naive b) = Ok (dt_gtb a b).
Proof. reflexivity. Qed.

Lemma dt_ge_naive (a b : datetime) :
  dt_ge (Naive a) (Naive b) = Ok (dt_geb a b).
Proof. reflexivity. Qed.

(* ------------------------------------------------------------------ *)
(** ** [get_stats] *)

Lemma get_stats_eq (t : tracker) (now : datetime) (days : option Z) :
  get_stats t now days =
  (cs <- match days with
         | None => Ok (commands t)
         | Some d =>
             if (d =? 0)%Z then Ok (commands t)
             else cutoff <- minus_days now d;;
                  commands_since cutoff (commands t)
         end;;
   summarize cs days).
Proof. reflexivity. Qed.

Lemma naive_timestamp_true (c : entry) :
  naive_timestamp c = true ->
  exists ts, fromisoformat (timestamp c) = Ok (Naive ts).
Proof.
  unfold naive_timestamp.
  destruct (fromisoformat (timestamp c)) as [[ts|d o]|];
    [eauto | discriminate | discriminate].
Qed.

(** The filter on the window keeps the entries that are not before the
    cutoff when every timestamp is a naive datetime. *)
Lemma commands_since_filter (cutoff : datetime) (cs : list entry) :
  forallb naive_timestamp cs = true ->
  commands_since cutoff cs = Ok (filter (since cutoff) cs).
Proof.
  induction cs as [|c r IH]; [reflexivity|].
  cbn [commands_since forallb filter]. intros H.
  apply andb_true_iff in H as [Hc Hr]. unfold since at 1.
  destruct (naive_timestamp_true c Hc) as [ts Hts]. rewrite Hts.
  cbn [bind]. rewrite dt_ge_naive, (IH Hr). cbn [bind].
  destruct (dt_geb ts cutoff); reflexivity.
Qed.

(** It raises what the first timestamp that is not a naive datetime
    raises. *)
Lemma commands_since_error (cutoff : datetime) (cs : list entry) :
  forallb naive_timestamp cs = false ->
  exists e c,
    commands_since cutoff cs = Err e
    /\ In c cs /\ naive_timestamp c = false /\ raised_by c e.
Proof.
  induction cs as [|c r IH]; [discriminate|].
  cbn [commands_since forallb]. intros H.
  destruct (naive_timestamp c) eqn:Hc.
  - cbn [andb] in H. destruct (IH H) as (e & c' & He & Hin & Hn & Hr).
    destruct (naive_timestamp_true c Hc) as [ts Hts]. rewrite Hts.
    cbn [bind]. rewrite dt_ge_naive, He. cbn [bind].
    exists e, c'. split; [reflexivity|]. split; [right; exact Hin | auto].
  - unfold naive_timestamp in Hc. unfold raised_by.
    destruct (fromisoformat (timestamp c)) as [[ts|d o]|e] eqn:E;
      [discriminate | |].
    + exists TypeError, c. cbn [bind]. split; [reflexivity|].
      split; [left; reflexivity|]. split.
      * unfold naive_timestamp. rewrite E. reflexivity.
      * right. split; [reflexivity|]. rewrite E. eauto.
    + exists e, c. cbn [bind]. split; [reflexivity|].
      split; [left; reflexivity|]. split.
      * unfold naive_timestamp. rewrite E. reflexivity.
      * left. exact E.
Qed.

Lemma dict_set_naive_values (d : dict datetime) (k : str) (v : datetime) :
  dict_set k (Naive v) (naive_values d) = naive_values (dict_set k v d).
Proof.
  unfold naive_values. induction d as [|[k' v'] r IH]; [reflexivity|].
  cbn [map dict_set fst snd]. destruct (str_eqb k k'); [reflexivity|].
  cbn [map fst snd]. rewrite IH. reflexivity.
Qed.

Lemma dict_get_naive_values (d : dict datetime) (k : str) :
  dict_get k (naive_values d) = option_map Naive (dict_get k d).
Proof.
  unfold naive_values. induction d as [|[k' v'] r IH]; [reflexivity|].
  cbn [map dict_get fst snd]. destruct (str_eqb k k'); [reflexivity|].
  exact IH.
Qed.

(** Over naive timestamps the loop raises nothing, and records for every
    base command its latest timestamp. *)
Lemma last_used_loop_latest (cs : list entry) (last : dict datetime) :
  forallb naive_timestamp cs = true ->
  exists d, last_used_loop (naive_values last) cs = Ok (naive_values d)
            /\ forall k, dict_get k d = latest k (dict_get k last) cs.
Proof.
  revert last. induction cs as [|c r IH]; intros last Hp.
  - exists last. split; reflexivity.
  - cbn [forallb] in Hp. apply andb_true_iff in Hp as [Hc Hr].
    cbn [last_used_loop latest].
    destruct (naive_timestamp_true c Hc) as [ts Hts]. rewrite Hts.
    cbn [bind]. rewrite dict_get_naive_values.
    assert (Hstep : forall last',
               (forall k, dict_get k last' =
                          if str_eqb k (base_command c)
                          then Some (later (dict_get k last) ts)
                          else dict_get k last) ->
               exists d, last_used_loop (naive_values last') r
                         = Ok (naive_values d)
                    /\ forall k, dict_get k d =
                         if str_eqb k (base_command c)
                         then latest k (Some (later (dict_get k last) ts)) r
                         else latest k (dict_get k last) r).
    { intros last' Hl. destruct (IH last' Hr) as (d & Hd & Hk).
      exists d. split; [exact Hd|].
      intros k. rewrite Hk, Hl.
      destruct (str_eqb k (base_command c)); reflexivity. }
    destruct (dict_get (base_command c) last) as [old|] eqn:Hold;
      cbn [option_map].
    + rewrite dt_gt_naive. cbn [bind].
      destruct (dt_gtb ts old) eqn:Hgt.
      * rewrite dict_set_naive_values.
        apply Hstep. intros k. rewrite dict_get_set.
        destruct (str_eqb k (base_command c)) eqn:E; [|reflexivity].
        apply str_eqb_eq in E; subst k. rewrite Hold. cbn [later].
        rewrite Hgt. reflexivity.
      * apply Hstep. intros k.
        destruct (str_eqb k (base_command c)) eqn:E; [|reflexivity].
        apply str_eqb_eq in E; subst k. rewrite Hold. cbn [later].
        rewrite Hgt. reflexivity.
    + rewrite dict_set_naive_values.
      apply Hstep. intros k. rewrite dict_get_set.
      destruct (str_eqb k (base_command c)) eqn:E; [|reflexivity].
      apply str_eqb_eq in E; subst k. rewrite Hold. reflexivity.
Qed.

Lemma forallb_Permutation (A : Type) (p : A -> bool) (l l' : list A) :
  Permutation l l' -> forallb p l = forallb p l'.
Proof.
  induction 1 as [|x l l' _ IH|x y l|l l' l'' _ IH1 _ IH2]; simpl.
  - reflexivity.
  - rewrite IH. reflexivity.
  - destruct (p x), (p y); reflexivity.
  - congruence.
Qed.

Lemma forallb_filter (A : Type) (p q : A -> bool) (l : list A) :
  forallb p l = true -> forallb p (filter q l) = true.
Proof.
  induction l as [|x l IH]; simpl; [reflexivity|].
  intros H. apply andb_true_iff in H as [Hx Hl].
  destruct (q x); simpl; [rewrite Hx|]; auto.
Qed.

(** The statistics of entries with naive timestamps. *)
Lemma summarize_naive (cs : list entry) (days : option Z) :
  forallb naive_timestamp cs = true ->
  exists s,
    summarize cs days = Ok s
    /\ total_commands s = length cs
    /\ unique_base_commands s = length (base_command_counts s)
    /\ base_command_counts s = Counter (map base_command cs)
    /\ full_command_counts s = Counter (map command cs)
    /\ (forall k, dict_get k (last_used s)
                  = option_map (fun ts => isoformat (Naive ts))
                               (latest k None cs))
    /\ period_days s = days.
Proof.
  intros Hp. destruct (last_used_loop_latest cs [] Hp) as (d & Hd & Hk).
  change (naive_values []) with (@nil (str * moment)) in Hd.
  unfold summarize. rewrite Hd. cbn [bind]. eexists.
  split; [reflexivity|].
  cbn [total_commands unique_base_commands base_command_counts
       full_command_counts last_used period_days].
  repeat split. intros k. unfold naive_values.
  rewrite map_map. cbn [fst snd].
  rewrite (dict_get_map_values _ _ (fun ts => isoformat (Naive ts)) d k), Hk.
  reflexivity.
Qed.

(** The summary of two orderings of the same entries with naive
    timestamps. *)
Lemma summarize_Permutation (cs cs' : list entry) (days : option Z) :
  Permutation cs cs' -> forallb naive_timestamp cs = true ->
  same_outcome (summarize cs days) (summarize cs' days)
  /\ exists s, summarize cs days = Ok s.
Proof.
  intros H Hp.
  assert (Hp' : forallb naive_timestamp cs' = true)
    by (rewrite <- (forallb_Permutation _ naive_timestamp _ _ H); exact Hp).
  destruct (summarize_naive cs days Hp)
    as (s & Hs & Ht & Hu & Hb & Hf & Hl & Hd).
  destruct (summarize_naive cs' days Hp')
    as (s' & Hs' & Ht' & Hu' & Hb' & Hf' & Hl' & Hd').
  split; [|eauto]. rewrite Hs, Hs'. cbn [same_outcome]. unfold stats_eq.
  destruct (Counter_Permutation _ _ (Permutation_map base_command H))
    as [Hcb Hn].
  destruct (Counter_Permutation _ _ (Permutation_map command H))
    as [Hcf _].
  rewrite Ht, Ht', Hu, Hu', Hb, Hb', Hf, Hf', Hd, Hd'.
  repeat split; auto.
  - apply Permutation_length, H.
  - intros k. rewrite Hl, Hl', (latest_Permutation k _ _ H). reflexivity.
Qed.

Lemma minus_days_error (now : datetime) (d : Z) (e : error) :
  minus_days now d = Err e -> e = OverflowError.
Proof.
  unfold minus_days.
  destruct (999999999 <? Z.abs d)%Z; [congruence|].
  destruct ((0 <? toordinal now - d) && (toordinal now - d <=? MAXORDINAL))%Z;
    [|congruence].
  destruct (ord2ymd (toordinal now - d)) as [[y m] dd]. discriminate.
Qed.

(* ------------------------------------------------------------------ *)
(** ** C8: the statistics and the order of the events *)

(** C8, as stated: the statistics do not depend on the order of the
    events.  Two entries of the base command [ls] are stamped at the same
    instant, one at UTC and one an hour east of it.  Neither timestamp is
    greater than the other, so [last_used] keeps the one that the loop
    meets first: the text of the last-used time follows the order of the
    entries.  With a window, the exception follows the order as well: of
    an entry stamped with an aware datetime and an entry whose timestamp
    names a month 13, the one that comes first raises, [TypeError] or
    [ValueError]. *)
Lemma last_used_order_counterexample :
  Permutation offset_entries (rev offset_entries)
  /\ ~ same_outcome
         (get_stats (Tracker offset_entries None) the_clock None)
         (get_stats (Tracker (rev offset_entries) None) the_clock None)
  /\ exists s s',
       get_stats (Tracker offset_entries None) the_clock None = Ok s
       /\ get_stats (Tracker (rev offset_entries) None) the_clock None
          = Ok s'
       /\ last_used s = [(py "ls", py "2024-01-01T12:00:00+00:00")]
       /\ last_used s' = [(py "ls", py "2024-01-01T13:00:00+01:00")]
       /\ get_stats (Tracker unreadable_entries None) the_clock (Some 7%Z)
          = Err TypeError
       /\ get_stats (Tracker (rev unreadable_entries) None) the_clock
            (Some 7%Z)
          = Err ValueError.
Proof.
  split; [apply perm_swap|]. split.
  - intros H.
    assert (Hk : dict_get (py "ls") [(py "ls", py "2024-01-01T12:00:00+00:00")]
                 = dict_get (py "ls")
                     [(py "ls", py "2024-01-01T13:00:00+01:00")]).
    { vm_compute in H. destruct H as (_ & _ & _ & _ & Hl & _).
      exact (Hl (py "ls")). }
    vm_compute in Hk. discriminate Hk.
  - eexists. eexists. split; [vm_compute; reflexivity|].
    split; [vm_compute; reflexivity|]. repeat split; reflexivity.
Qed.

(** C8, amended: for the same events in any order, the same clock reading
    and the same window, [get_stats] ends the same way when the timestamps
    are naive datetimes, as [log_command] writes them: with
    [OverflowError] for a cutoff that cannot be represented, and otherwise
    with equal statistics (the same total, the same number of base
    commands, and dicts that are equal in Python: the same counts and the
    same last-used times for the same keys). *)
Theorem get_stats_deterministic (t t' : tracker) (now : datetime)
    (days : option Z) :
  Permutation (commands t) (commands t') ->
  forallb naive_timestamp (commands t) = true ->
  same_outcome (get_stats t now days) (get_stats t' now days)
  /\ ((exists s, get_stats t now days = Ok s)
      \/ (get_stats t now days = Err OverflowError
          /\ exists d, days = Some d /\ minus_days now d = Err OverflowError)).
Proof.
  intros H Hp. rewrite !get_stats_eq.
  assert (Hp' : forallb naive_timestamp (commands t') = true)
    by (rewrite <- (forallb_Permutation _ naive_timestamp _ _ H); exact Hp).
  destruct days as [d|]; [destruct (d =? 0)%Z|].
  - cbn [bind]. destruct (summarize_Permutation _ _ (Some d) H Hp).
    auto.
  - destruct (minus_days now d) as [cutoff|e] eqn:Em.
    + cbn [bind]. rewrite !commands_since_filter by assumption.
      cbn [bind].
      destruct (summarize_Permutation _ _ (Some d)
                  (filter_Permutation _ (since cutoff) _ _ H)
                  (forallb_filter _ _ (since cutoff) _ Hp)).
      auto.
    + pose proof (minus_days_error _ _ _ Em) as He. subst e. cbn [bind].
      split; [reflexivity|]. right. split; [reflexivity|].
      exists d. split; [reflexivity | exact Em].
  - cbn [bind]. destruct (summarize_Permutation _ _ None H Hp). auto.
Qed.

(** The theorem at two entries and the same two swapped, for the last seven
    days. *)
Lemma get_stats_deterministic_witness :
  same_outcome
    (get_stats (Tracker two_entries None) the_clock (Some 7%Z))
    (get_stats (Tracker (rev two_entries) None) the_clock (Some 7%Z)).
Proof.
  apply get_stats_deterministic; [apply perm_swap | reflexivity].
Defined.

(* ------------------------------------------------------------------ *)
(** ** C2: a window that is not positive *)


Lemma summarize_with_period (cs : list entry) (days days' : option Z) :
  summarize cs days' = (s <- summarize cs days;; Ok (with_period s days')).
Proof.
  unfold summarize. destruct (last_used_loop [] cs); reflexivity.
Qed.



(* ------------------------------------------------------------------ *)
(** ** C10: the CSV export does not quote *)

Lemma length_comma_fields_from (field s : str) :
  length (comma_fields_from field s) = S (commas s).
Proof.
  unfold commas. revert field.
  induction s as [|c r IH]; intros field; [reflexivity|].
  cbn [comma_fields_from filter].
  destruct (ascii_eqb c ","); cbn [length]; rewrite IH; reflexivity.
Qed.

Lemma commas_app (a b : str) : commas (a ++ b) = commas a + commas b.
Proof. unfold commas. rewrite filter_app, length_app. reflexivity. Qed.

Lemma commas_In (s : str) : In ","%char s -> 0 < commas s.
Proof.
  unfold commas. induction s as [|c r IH]; intros H; [destruct H|].
  cbn [filter]. destruct (ascii_eqb c ",") eqn:E; cbn [length]; [lia|].
  destruct H as [->|H]; [|apply IH, H].
  unfold ascii_eqb in E. rewrite Ascii.eqb_refl in E. discriminate.
Qed.

Lemma dict_get_In (V : Type) (d : dict V) (k : str) (v : V) :
  dict_get k d = Some v -> In (k, v) d.
Proof.
  induction d as [|[k' v'] r IH]; simpl; [discriminate|].
  destruct (str_eqb k k') eqn:E.
  - apply str_eqb_eq in E; subst. intros H; inversion H; auto.
  - auto.
Qed.

Lemma occurrences_In (k : str) (xs : list str) :
  In k xs -> 0 < occurrences k xs.
Proof.
  unfold occurrences. induction xs as [|x xs IH]; intros H; [destruct H|].
  cbn [filter]. destruct (str_eqb k x) eqn:E; cbn [length]; [lia|].
  destruct H as [->|H]; [|apply IH, H].
  rewrite str_eqb_refl in E. discriminate.
Qed.

Lemma insert_desc_In (A : Type) (key : A -> nat) (x y : A) (l : list A) :
  In y (insert_desc key x l) <-> y = x \/ In y l.
Proof.
  induction l as [|z l IH]; simpl; [intuition congruence|].
  destruct (key x <? key z); simpl; [rewrite IH|]; intuition congruence.
Qed.

Lemma sorted_desc_In (A : Type) (key : A -> nat) (y : A) (l : list A) :
  In y (sorted_desc key l) <-> In y l.
Proof.
  induction l as [|x l IH]; simpl; [tauto|].
  rewrite insert_desc_In, IH. intuition congruence.
Qed.

Lemma get_stats_all_time (t : tracker) (now : datetime) (s : stats) :
  get_stats t now None = Ok s ->
  base_command_counts s = Counter (map base_command (commands t))
  /\ total_commands s = length (commands t).
Proof.
  rewrite get_stats_eq. cbn [bind]. unfold summarize.
  destruct (last_used_loop [] (commands t)); [|discriminate].
  cbn [bind]. intros H. inversion H. split; reflexivity.
Qed.

(** C10: a line of the CSV table is the base command, its count, its
    percentage and its last-used time joined by commas, with nothing quoted
    or escaped; so the line of a base command that holds a comma has more
    than four comma-separated fields. *)
Theorem csv_row_not_quoted (t : tracker) (now : datetime) (s : stats)
    (e : entry) :
  get_stats t now None = Ok s ->
  In e (commands t) ->
  In ","%char (base_command e) ->
  export_stats t now (py "csv") = Ok (join [newline] (csv_lines s))
  /\ exists count,
       In (base_command e, count) (base_command_counts s)
       /\ In (csv_row s (base_command e, count)) (csv_lines s)
       /\ csv_row s (base_command e, count)
          = join (py ",")
              [base_command e; str_of_nat count;
               format_2f (percentage count (total_commands s));
               match dict_get (base_command e) (last_used s) with
               | Some l => l
               | None => []
               end]
       /\ 4 < length (comma_fields (csv_row s (base_command e, count))).
Proof.
  intros Hs He Hc. split.
  - unfold export_stats. rewrite Hs. reflexivity.
  - destruct (get_stats_all_time t now s Hs) as [Hb _].
    pose proof (Counter_get (map base_command (commands t))
                  (base_command e)) as Hg.
    pose proof (occurrences_In (base_command e)
                  (map base_command (commands t))
                  (in_map base_command _ _ He)) as Ho.
    destruct (occurrences (base_command e) (map base_command (commands t)))
      as [|m] eqn:Em; [lia|].
    exists (S m). rewrite <- Hb in Hg. apply dict_get_In in Hg.
    split; [exact Hg|]. split; [|split].
    + unfold csv_lines. right. apply in_map, sorted_desc_In, Hg.
    + reflexivity.
    + unfold comma_fields. rewrite length_comma_fields_from.
      unfold csv_row. cbn [fst snd]. rewrite !commas_app.
      change (commas (py ",")) with 1.
      pose proof (commas_In _ Hc). lia.
Qed.

(** The theorem at a history with the line [a,b c], whose base command is
    [a,b]. *)
Lemma csv_row_not_quoted_witness :
  exists s count,
    get_stats comma_tracker the_clock None = Ok s
    /\ 4 < length (comma_fields (csv_row s (py "a,b", count))).
Proof.
  destruct (get_stats comma_tracker the_clock None) as [s|] eqn:Hs;
    [|vm_compute in Hs; discriminate Hs].
  destruct (csv_row_not_quoted comma_tracker the_clock s
              (Entry (py "a,b c") (py "a,b") (isoformat (Naive the_clock))
                     (py "a,b c")) Hs)
    as (_ & count & _ & _ & _ & H).
  - vm_compute. right. left. reflexivity.
  - vm_compute. right. left. reflexivity.
  - exists s, count. split; [reflexivity | exact H].
Defined.

(* ------------------------------------------------------------------ *)
(** ** Substrings, the order on strings, sorting *)

Lemma startswith_prefix (p s : str) :
  startswith p s = true <-> exists b, s = p ++ b.
Proof.
  revert s. induction p as [|x p IH]; intros s; simpl.
  - split; [eauto | reflexivity].
  - destruct s as [|y s].
    + split; [discriminate | intros [b H]; discriminate].
    + rewrite andb_true_iff, ascii_eqb_eq, IH. split.
      * intros [-> [b ->]]. eauto.
      * intros [b H]. inversion H. eauto.
Qed.

Lemma contains_substring (q s : str) :
  contains q s = true <-> substring q s.
Proof.
  unfold substring. induction s as [|c s IH].
  - cbn [contains]. rewrite orb_false_r, startswith_prefix. split.
    + intros [b H]. exists [], b. exact H.
    + intros (a & b & H). destruct a; [eauto|discriminate].
  - cbn [contains]. rewrite orb_true_iff, startswith_prefix, IH. split.
    + intros [[b H] | (a & b & H)].
      * exists [], b. exact H.
      * exists (c :: a), b. rewrite H. reflexivity.
    + intros ([|x a] & b & H).
      * left. eauto.
      * right. inversion H. eauto.
Qed.

Lemma ord_inj (a b : ascii) : ord a = ord b -> a = b.
Proof.
  unfold ord. intros H.
  rewrite <- (ascii_nat_embedding a), <- (ascii_nat_embedding b), H.
  reflexivity.
Qed.

Lemma str_ltb_irrefl (a : str) : str_ltb a a = false.
Proof.
  induction a as [|x a IH]; [reflexivity|].
  cbn [str_ltb]. rewrite Nat.ltb_irrefl. exact IH.
Qed.

Lemma str_ltb_trans (a b c : str) :
  str_ltb a b = true -> str_ltb b c = true -> str_ltb a c = true.
Proof.
  revert b c. induction a as [|x a IH]; intros [|y b] [|z c];
    cbn [str_ltb]; try discriminate; try reflexivity.
  destruct (Nat.ltb_spec (ord x) (ord y)) as [Hxy|Hxy].
  - intros _.
    destruct (Nat.ltb_spec (ord y) (ord z)) as [Hyz|Hyz].
    + intros _. rewrite (proj2 (Nat.ltb_lt _ _)) by lia. reflexivity.
    + destruct (Nat.ltb_spec (ord z) (ord y)); [discriminate|].
      intros _. rewrite (proj2 (Nat.ltb_lt _ _)) by lia. reflexivity.
  - destruct (Nat.ltb_spec (ord y) (ord x)); [discriminate|].
    assert (ord x = ord y) as Hxy' by lia. rewrite Hxy'.
    intros Hab.
    destruct (Nat.ltb_spec (ord y) (ord z)); [reflexivity|].
    destruct (Nat.ltb_spec (ord z) (ord y)); [discriminate|].
    apply IH, Hab.
Qed.

Lemma str_ltb_total (a b : str) :
  str_ltb a b = false -> a <> b -> str_ltb b a = true.
Proof.
  revert b. induction a as [|x a IH]; intros [|y b]; cbn [str_ltb];
    try discriminate; try congruence; try reflexivity.
  destruct (Nat.ltb_spec (ord x) (ord y)); [discriminate|].
  destruct (Nat.ltb_spec (ord y) (ord x)); [reflexivity|].
  intros Hab Hne. apply IH; [exact Hab|].
  intros ->. apply Hne. f_equal. apply ord_inj. lia.
Qed.

Lemma insert_str_In (x y : str) (l : list str) :
  In y (insert_str x l) <-> y = x \/ In y l.
Proof.
  induction l as [|z l IH]; simpl; [intuition congruence|].
  destruct (str_ltb z x); simpl; [rewrite IH|]; intuition congruence.
Qed.

Lemma sorted_str_In (y : str) (l : list str) :
  In y (sorted_str l) <-> In y l.
Proof.
  induction l as [|x l IH]; simpl; [tauto|].
  rewrite insert_str_In, IH. intuition congruence.
Qed.

Lemma insert_str_HdRel (x y : str) (l : list str) :
  HdRel str_lt y l -> str_lt y x -> HdRel str_lt y (insert_str x l).
Proof.
  intros Hl Hx. destruct l as [|z l]; simpl; [constructor; exact Hx|].
  destruct (str_ltb z x); constructor; [|exact Hx].
  inversion Hl; assumption.
Qed.

Lemma insert_str_Sorted (x : str) (l : list str) :
  Sorted str_lt l -> ~ In x l -> Sorted str_lt (insert_str x l).
Proof.
  induction l as [|y l IH]; intros Hs Hn; simpl.
  - repeat constructor.
  - inversion Hs as [|? ? Hs' Hh]; subst.
    destruct (str_ltb y x) eqn:E.
    + constructor.
      * apply IH; [exact Hs'|]. intros H. apply Hn. right. exact H.
      * apply insert_str_HdRel; [exact Hh | exact E].
    + constructor; [exact Hs|]. constructor.
      apply str_ltb_total; [exact E|].
      intros ->. apply Hn. left. reflexivity.
Qed.

Lemma sorted_str_Sorted (l : list str) :
  NoDup l -> Sorted str_lt (sorted_str l).
Proof.
  induction 1 as [|x l Hx _ IH]; simpl; [constructor|].
  apply insert_str_Sorted; [exact IH|].
  rewrite sorted_str_In. exact Hx.
Qed.

Lemma set_of_In (x : str) (l : list str) : In x (set_of l) <-> In x l.
Proof.
  induction l as [|y l IH]; simpl; [tauto|].
  destruct (mem_str y l) eqn:E.
  - rewrite IH. apply mem_str_In in E.
    split; [auto | intros [<-|H]; auto].
  - simpl. rewrite IH. tauto.
Qed.

Lemma set_of_NoDup (l : list str) : NoDup (set_of l).
Proof.
  induction l as [|y l IH]; simpl; [constructor|].
  destruct (mem_str y l) eqn:E; [exact IH|].
  constructor; [|exact IH].
  rewrite set_of_In, <- mem_str_In, E. discriminate.
Qed.

Lemma str_lt_transitive : Relations_1.Transitive str_lt.
Proof. intros a b c. apply str_ltb_trans. Qed.

(** The commands shown for a group: each distinct command once, in
    strictly ascending order. *)
Lemma unique_sorted_spec (cmds : list entry) :
  StronglySorted str_lt (unique_sorted cmds)
  /\ forall x, In x (unique_sorted cmds)
               <-> exists c, In c cmds /\ command c = x.
Proof.
  unfold unique_sorted. split.
  - apply Sorted_StronglySorted; [exact str_lt_transitive|].
    apply sorted_str_Sorted, set_of_NoDup.
  - intros x. rewrite sorted_str_In, set_of_In, in_map_iff.
    split; intros (c & H1 & H2); eauto.
Qed.

Section SortedDesc.
Variable A : Type.
Variable key : A -> nat.

Lemma insert_desc_HdRel (x y : A) (l : list A) :
  HdRel (key_ge key) y l -> key_ge key y x ->
  HdRel (key_ge key) y (insert_desc key x l).
Proof.
  intros Hl Hx. destruct l as [|z l]; simpl; [constructor; exact Hx|].
  destruct (key x <? key z); constructor; [|exact Hx].
  inversion Hl; assumption.
Qed.

Lemma insert_desc_Sorted (x : A) (l : list A) :
  Sorted (key_ge key) l -> Sorted (key_ge key) (insert_desc key x l).
Proof.
  induction l as [|y l IH]; intros Hs; simpl.
  - repeat constructor.
  - inversion Hs as [|? ? Hs' Hh]; subst.
    destruct (Nat.ltb_spec (key x) (key y)) as [Hlt|Hge].
    + constructor; [apply IH, Hs'|].
      apply insert_desc_HdRel; [exact Hh|]. unfold key_ge. lia.
    + constructor; [exact Hs|]. constructor. exact Hge.
Qed.

Lemma sorted_desc_Sorted (l : list A) :
  StronglySorted (key_ge key) (sorted_desc key l).
Proof.
  apply Sorted_StronglySorted.
  - intros a b c Hab Hbc. unfold key_ge in *. lia.
  - induction l as [|x l IH]; simpl; [constructor|].
    apply insert_desc_Sorted, IH.
Qed.

Lemma insert_desc_Permutation (x : A) (l : list A) :
  Permutation (insert_desc key x l) (x :: l).
Proof.
  induction l as [|y l IH]; simpl; [apply Permutation_refl|].
  destruct (key x <? key y); [|apply Permutation_refl].
  eapply Permutation_trans; [apply perm_skip, IH | apply perm_swap].
Qed.

Lemma sorted_desc_Permutation (l : list A) :
  Permutation (sorted_desc key l) l.
Proof.
  induction l as [|x l IH]; simpl; [constructor|].
  eapply Permutation_trans; [apply insert_desc_Permutation|].
  apply perm_skip, IH.
Qed.

End SortedDesc.

(* ------------------------------------------------------------------ *)
(** ** C7: [search_commands] *)

Lemma dict_get_NoDup_In (V : Type) (d : dict V) (k : str) (v : V) :
  NoDup (dict_keys d) -> In (k, v) d -> dict_get k d = Some v.
Proof.
  unfold dict_keys. induction d as [|[k' v'] r IH]; simpl; [tauto|].
  intros Hn [H|H].
  - inversion H; subst. rewrite str_eqb_refl. reflexivity.
  - inversion Hn as [|? ? Hk Hr]; subst.
    destruct (str_eqb k k') eqn:E; [|apply IH; assumption].
    apply str_eqb_eq in E; subst k'.
    exfalso. apply Hk. apply (in_map fst) in H. exact H.
Qed.

(** The loop over the matching entries, from any dict [grouped]. *)
Lemma group_loop_get (matching : list entry) (grouped : dict (list entry))
    (b : str) :
  dict_get b
    (fold_left
       (fun grouped cmd =>
          let base := base_command cmd in
          match dict_get base grouped with
          | None => dict_set base [cmd] grouped
          | Some cmds => dict_set base (cmds ++ [cmd]) grouped
          end) matching grouped)
  = match dict_get b grouped, with_base b matching with
    | None, [] => None
    | None, l => Some l
    | Some old, l => Some (old ++ l)
    end.
Proof.
  unfold with_base. revert grouped.
  induction matching as [|c r IH]; intros grouped.
  - cbn. destruct (dict_get b grouped); [rewrite app_nil_r|]; reflexivity.
  - cbn [fold_left filter]. rewrite IH. clear IH.
    destruct (dict_get (base_command c) grouped) as [cmds|] eqn:Hc;
      rewrite dict_get_set;
      destruct (str_eqb b (base_command c)) eqn:E.
    + apply str_eqb_eq in E; subst b. rewrite Hc, <- app_assoc.
      reflexivity.
    + reflexivity.
    + apply str_eqb_eq in E; subst b. rewrite Hc. reflexivity.
    + reflexivity.
Qed.

Lemma group_loop_NoDup (matching : list entry)
    (grouped : dict (list entry)) :
  NoDup (dict_keys grouped) ->
  NoDup (dict_keys
           (fold_left
              (fun grouped cmd =>
                 let base := base_command cmd in
                 match dict_get base grouped with
                 | None => dict_set base [cmd] grouped
                 | Some cmds => dict_set base (cmds ++ [cmd]) grouped
                 end) matching grouped)).
Proof.
  revert grouped. induction matching as [|c r IH]; intros grouped H;
    [exact H|].
  cbn [fold_left]. apply IH.
  destruct (dict_get (base_command c) grouped); apply dict_set_NoDup, H.
Qed.

(** The dict [grouped]: one key for each base command among the matching
    entries, with those entries in their order. *)
Lemma group_by_base_spec (matching : list entry) :
  NoDup (dict_keys (group_by_base matching))
  /\ forall b cmds,
       In (b, cmds) (group_by_base matching)
       <-> cmds = with_base b matching /\ cmds <> [].
Proof.
  assert (Hn : NoDup (dict_keys (group_by_base matching)))
    by (apply group_loop_NoDup; constructor).
  split; [exact Hn|]. intros b cmds.
  pose proof (group_loop_get matching [] b) as Hg.
  cbn [dict_get] in Hg. unfold group_by_base in *.
  split.
  - intros H. apply (dict_get_NoDup_In _ _ _ _ Hn) in H.
    rewrite H in Hg. destruct (with_base b matching); [discriminate|].
    inversion Hg. split; [reflexivity | discriminate].
  - intros [-> Hne]. apply dict_get_In. rewrite Hg.
    destruct (with_base b matching); [congruence | reflexivity].
Qed.

Lemma In_all_chars (c : ascii) : In c (map chr (seq 0 256)).
Proof.
  rewrite <- (ascii_nat_embedding c). apply in_map, in_seq.
  pose proof (nat_ascii_bounded c). lia.
Qed.

(** [lower] takes two characters to one exactly when they are the same
    but for letter case. *)
Lemma lower_char_same_letter (c d : ascii) :
  lower_char c = lower_char d <-> same_letter c d = true.
Proof.
  assert (H : forallb
                (fun c =>
                   forallb
                     (fun d => Bool.eqb (ascii_eqb (lower_char c)
                                                   (lower_char d))
                                        (same_letter c d))
                     (map chr (seq 0 256)))
                (map chr (seq 0 256)) = true)
    by (vm_compute; reflexivity).
  rewrite forallb_forall in H. specialize (H c (In_all_chars c)).
  rewrite forallb_forall in H. specialize (H d (In_all_chars d)).
  apply eqb_prop in H. rewrite <- H. symmetry. apply ascii_eqb_eq.
Qed.

Lemma lower_same_letters (q w : str) :
  lower q = lower w <-> same_letters q w.
Proof.
  unfold same_letters, lower. revert w.
  induction q as [|c q IH]; intros [|d w]; cbn [map].
  - split; [constructor | reflexivity].
  - split; [discriminate | intros H; inversion H].
  - split; [discriminate | intros H; inversion H].
  - split.
    + intros H. inversion H as [[Hc Hq]]. constructor.
      * apply lower_char_same_letter, Hc.
      * apply IH, Hq.
    + intros H. inversion H as [|? ? ? ? Hc Hq]. subst.
      apply lower_char_same_letter in Hc. apply IH in Hq.
      rewrite Hc, Hq. reflexivity.
Qed.

(** The lowered query occurs in the lowered text exactly when the text
    holds the query in some letter case. *)
Lemma substring_lower (q s : str) :
  substring (lower q) (lower s)
  <-> exists w, same_letters q w /\ substring w s.
Proof.
  unfold substring, lower. split.
  - intros (a & b & H).
    apply map_eq_app in H as (a' & r & -> & Ha & Hr).
    apply map_eq_app in Hr as (w & b' & -> & Hw & Hb).
    exists w. split; [apply lower_same_letters; symmetry; exact Hw|].
    exists a', b'. reflexivity.
  - intros (w & Hw & a & b & ->).
    apply lower_same_letters in Hw. unfold lower in Hw.
    exists (map lower_char a), (map lower_char b).
    rewrite !map_app, Hw. reflexivity.
Qed.



(* ================================================================== *)
(** * Further properties *)

(** ** Decimal numerals: what [str] writes, [fromisoformat] reads *)

Lemma digits_value_uint (d : Decimal.uint) (acc : Z) :
  digits_value acc (py (NilEmpty.string_of_uint d))
  = Some (uint_value acc d).
Proof.
  revert acc. induction d; intros acc; cbn [NilEmpty.string_of_uint py
    list_ascii_of_string uint_value]; [reflexivity| ..];
    cbn [digits_value]; fold (py (NilEmpty.string_of_uint d));
    match goal with
    | |- context [is_digit ?c] => change (is_digit c) with true
    end; cbv iota; rewrite IHd; reflexivity.
Qed.

Lemma uint_value_acc (d : Decimal.uint) (acc : positive) :
  uint_value (Z.pos acc) d = Z.pos (Pos.of_uint_acc d acc).
Proof.
  revert acc. induction d; intros acc; cbn [uint_value Pos.of_uint_acc];
    [reflexivity| ..];
    rewrite <- IHd; f_equal; lia.
Qed.

Lemma uint_value_0 (d : Decimal.uint) :
  uint_value 0 d = Z.of_N (Pos.of_uint d).
Proof.
  induction d; cbn [uint_value Pos.of_uint]; [reflexivity | exact IHd | ..];
    cbn [Z.mul Z.add Z.of_N]; apply uint_value_acc.
Qed.

Lemma uint_value_to_uint (p : positive) :
  uint_value 0 (Pos.to_uint p) = Z.pos p.
Proof. rewrite uint_value_0, DecimalPos.Unsigned.of_to. reflexivity. Qed.

Lemma str_of_Z_pos (p : positive) :
  str_of_Z (Z.pos p) = py (NilEmpty.string_of_uint (Pos.to_uint p)).
Proof.
  unfold str_of_Z. cbn [Z.to_int NilZero.string_of_int].
  unfold NilZero.string_of_uint.
  pose proof (DecimalPos.Unsigned.to_uint_nonnil p) as H.
  destruct (Pos.to_uint p); [congruence | reflexivity ..].
Qed.

Lemma length_string_of_uint (d : Decimal.uint) :
  length (py (NilEmpty.string_of_uint d)) = Decimal.nb_digits d.
Proof.
  induction d; cbn [NilEmpty.string_of_uint py list_ascii_of_string length
    Decimal.nb_digits]; [reflexivity| ..];
    fold (py (NilEmpty.string_of_uint d)); rewrite IHd; reflexivity.
Qed.

Lemma uint_value_lower (d : Decimal.uint) (acc : Z) :
  (0 <= acc -> acc * 10 ^ Z.of_nat (Decimal.nb_digits d)
               <= uint_value acc d)%Z.
Proof.
  revert acc.
  induction d; intros acc Hacc; cbn [uint_value Decimal.nb_digits];
    [simpl; lia| ..];
    rewrite Nat2Z.inj_succ, Z.pow_succ_r by lia;
    (eapply Z.le_trans; [|apply IHd; lia]);
    pose proof (Z.pow_nonneg 10 (Z.of_nat (Decimal.nb_digits d)));
    nia.
Qed.

(** The numeral of a positive number does not start with a zero. *)
Lemma to_uint_head (p : positive) :
  forall l, Pos.to_uint p <> Decimal.D0 l.
Proof.
  intros l H.
  pose proof (DecimalPos.Unsigned.to_of (Pos.to_uint p)) as Hn.
  rewrite DecimalPos.Unsigned.of_to in Hn. cbn [N.to_uint] in Hn.
  pose proof (DecimalPos.Unsigned.to_uint_nonzero p) as Hz.
  unfold Decimal.unorm in Hn.
  destruct (Decimal.nzhead (Pos.to_uint p)) eqn:E;
    try (rewrite Hn in H; discriminate H).
  - congruence.
  - apply (DecimalFacts.nzhead_nonzero (Pos.to_uint p) u). exact E.
Qed.

Lemma nb_digits_to_uint (p : positive) :
  (10 ^ (Z.of_nat (Decimal.nb_digits (Pos.to_uint p)) - 1) <= Z.pos p)%Z.
Proof.
  rewrite <- (uint_value_to_uint p).
  pose proof (to_uint_head p) as Hh.
  pose proof (DecimalPos.Unsigned.to_uint_nonnil p) as Hn.
  destruct (Pos.to_uint p) as [|l|l|l|l|l|l|l|l|l|l];
    [congruence | exfalso; apply (Hh l); reflexivity | ..];
    cbn [uint_value Decimal.nb_digits];
    rewrite Nat2Z.inj_succ;
    replace (Z.succ (Z.of_nat (Decimal.nb_digits l)) - 1)%Z
      with (Z.of_nat (Decimal.nb_digits l)) by lia;
    (eapply Z.le_trans; [|apply uint_value_lower; lia]);
    pose proof (Z.pow_nonneg 10 (Z.of_nat (Decimal.nb_digits l)));
    nia.
Qed.

(** A number below [10 ^ w] is written with at most [w] digits, and read
    back from them. *)
Lemma str_of_Z_digits (w : nat) (n : Z) :
  (0 <= n < 10 ^ Z.of_nat w)%Z -> 1 <= w ->
  1 <= length (str_of_Z n) <= w /\ digits_value 0 (str_of_Z n) = Some n.
Proof.
  intros Hn Hw. destruct n as [|p|p]; [| |lia].
  - split; [cbn; lia | reflexivity].
  - rewrite str_of_Z_pos, length_string_of_uint, digits_value_uint,
      uint_value_to_uint.
    split; [|reflexivity].
    pose proof (nb_digits_to_uint p) as Hb.
    pose proof (DecimalPos.Unsigned.to_uint_nonnil p) as Hnn.
    assert (Hd : Decimal.nb_digits (Pos.to_uint p) <> 0).
    { intros H0. apply Hnn. apply DecimalFacts.nb_digits_0. exact H0. }
    split; [lia|].
    destruct (Nat.le_gt_cases (Decimal.nb_digits (Pos.to_uint p)) w)
      as [Hle|Hgt]; [exact Hle|exfalso].
    assert (10 ^ Z.of_nat w
            <= 10 ^ (Z.of_nat (Decimal.nb_digits (Pos.to_uint p)) - 1))%Z
      by (apply Z.pow_le_mono_r; lia).
    lia.
Qed.

Lemma digits_value_zeros (k : nat) (s : str) :
  digits_value 0 (repeat "0"%char k ++ s) = digits_value 0 s.
Proof. induction k as [|k IH]; [reflexivity | exact IH]. Qed.

(** ['%0<w>d' % n] has [w] characters and is read back as [n], for
    [0 <= n < 10 ^ w]. *)
Lemma zero_pad_number (w : nat) (n : Z) :
  (0 <= n < 10 ^ Z.of_nat w)%Z -> 1 <= w ->
  length (zero_pad w n) = w /\ number (zero_pad w n) = Some n.
Proof.
  intros Hn Hw. destruct (str_of_Z_digits w n Hn Hw) as [[Hl1 Hl2] Hv].
  unfold zero_pad. split.
  - rewrite length_app, repeat_length. lia.
  - unfold number.
    destruct (repeat "0"%char (w - length (str_of_Z n)) ++ str_of_Z n)
      as [|c r] eqn:E.
    + apply (f_equal (@length ascii)) in E.
      rewrite length_app in E. simpl in E. lia.
    + rewrite <- E, digits_value_zeros. exact Hv.
Qed.

Lemma zero_pad_2 (n : Z) :
  (0 <= n < 100)%Z ->
  exists a b, zero_pad 2 n = [a; b] /\ number [a; b] = Some n.
Proof.
  intros H. destruct (zero_pad_number 2 n) as [Hl Hv]; [simpl; lia | lia|].
  destruct (zero_pad 2 n) as [|a [|b [|c r]]]; try discriminate Hl.
  eauto.
Qed.

Lemma zero_pad_4 (n : Z) :
  (0 <= n < 10000)%Z ->
  exists a b c d, zero_pad 4 n = [a; b; c; d]
                  /\ number [a; b; c; d] = Some n.
Proof.
  intros H. destruct (zero_pad_number 4 n) as [Hl Hv]; [simpl; lia | lia|].
  destruct (zero_pad 4 n) as [|a [|b [|c [|d [|e r]]]]];
    try discriminate Hl.
  exists a, b, c, d. auto.
Qed.

Lemma zero_pad_6 (n : Z) :
  (0 <= n < 1000000)%Z ->
  exists f, zero_pad 6 n = f /\ length f = 6 /\ number f = Some n.
Proof.
  intros H. destruct (zero_pad_number 6 n) as [Hl Hv]; [simpl; lia | lia|].
  eauto.
Qed.

Lemma valid_datetime_bounds (d : datetime) :
  valid_datetime d = true ->
  (1 <= year d <= 9999 /\ 1 <= month d <= 12 /\ 1 <= day d <= 31
   /\ 0 <= hour d < 24 /\ 0 <= minute d < 60 /\ 0 <= second d < 60
   /\ 0 <= microsecond d < 1000000)%Z.
Proof.
  unfold valid_datetime. rewrite !andb_true_iff.
  rewrite !Z.leb_le, !Z.ltb_lt.
  intros [[[[[[[[[[[[[H1 H2] H3] H4] H5] H6] H7] H8] H9] H10] H11] H12] H13]
            H14].
  assert (Hdim : (days_in_month (year d) (month d) <= 31)%Z).
  { unfold days_in_month, table.
    destruct ((month d =? 2)%Z && is_leap (year d)); [lia|].
    assert (Hm : exists k, (k < 13)%nat /\ Z.to_nat (month d) = k)
      by (exists (Z.to_nat (month d)); split; [lia | reflexivity]).
    destruct Hm as (k & Hk & ->).
    do 13 (destruct k as [|k]; [simpl; lia|]). lia. }
  lia.
Qed.

(** The date and the time that [isoformat] writes are read back, with the
    offset that follows them. *)
Lemma fromisoformat_naive_isoformat (d : datetime) (tz : str) :
  valid_datetime d = true ->
  read_fraction tz = (Some 0%Z, tz) ->
  fromisoformat (naive_isoformat d ++ tz)
  = match read_offset tz with
    | Some None => Ok (Naive d)
    | Some (Some (sign, oh, om)) =>
        if (60 <=? om)%Z then Err Unmodelled
        else if (oh <? 24)%Z
        then Ok (Aware d (sign * (oh * 60 + om))%Z)
        else Err ValueError
    | None => Err Unmodelled
    end.
Proof.
  intros Hv Htz. pose proof (valid_datetime_bounds d Hv) as Hb.
  destruct d as [y m dd h mi sec us]. cbn [year month day hour minute second
    microsecond] in Hb.
  destruct Hb as (Hy & Hm & Hd & Hh & Hmi & Hs & Hus).
  destruct (zero_pad_4 y) as (y1 & y2 & y3 & y4 & Ey & Ny); [lia|].
  destruct (zero_pad_2 m) as (m1 & m2 & Em & Nm); [lia|].
  destruct (zero_pad_2 dd) as (d1 & d2 & Ed & Nd); [lia|].
  destruct (zero_pad_2 h) as (h1 & h2 & Eh & Nh); [lia|].
  destruct (zero_pad_2 mi) as (n1 & n2 & En & Nn); [lia|].
  destruct (zero_pad_2 sec) as (s1 & s2 & Es & Ns); [lia|].
  destruct (zero_pad_6 us) as (f & Ef & Lf & Nf); [lia|].
  unfold naive_isoformat.
  cbn [year month day hour minute second microsecond].
  rewrite Ey, Em, Ed, Eh, En, Es, Ef.
  change (py "-") with ["-"%char]. change (py "T") with ["T"%char].
  change (py ":") with [":"%char]. change (py ".") with ["."%char].
  assert (Hus' : read_fraction
                   ((if (us =? 0)%Z then [] else "."%char :: f) ++ tz)
                 = (Some us, tz)).
  { destruct (Z.eqb_spec us 0) as [->|Hne]; [exact Htz|].
    destruct f as [|f1 [|f2 [|f3 [|f4 [|f5 [|f6 [|f7 f]]]]]]];
      try discriminate Lf.
    cbn [app read_fraction]. change (ascii_eqb "." ".") with true.
    cbv iota. rewrite Nf. reflexivity. }
  rewrite <- !app_assoc. cbn [app]. unfold fromisoformat.
  cbn [length]. change (S ?n <? 7)%nat with (n <? 6)%nat.
  change (S ?n <? 6)%nat with (n <? 5)%nat.
  change (S ?n <? 5)%nat with (n <? 4)%nat.
  change (S ?n <? 4)%nat with (n <? 3)%nat.
  change (S ?n <? 3)%nat with (n <? 2)%nat.
  change (S ?n <? 2)%nat with (n <? 1)%nat.
  change (S ?n <? 1)%nat with false. cbv iota.
  rewrite Hus'.
  change (str_eqb ["-"%char; "-"%char; ":"%char; ":"%char] (py "--::"))
    with true. cbv iota beta.
  rewrite Ny, Nm, Nd, Nh, Nn, Ns.
  destruct (read_offset tz) as [[[[sign oh] om]|]|]; [| |reflexivity].
  - destruct (Z.eqb_spec h 24); [lia|]. rewrite Hv. reflexivity.
  - destruct (Z.eqb_spec h 24); [lia|]. rewrite Hv. reflexivity.
Qed.

Lemma format_offset_text (off : Z) :
  (-1440 < off < 1440)%Z ->
  read_fraction (format_offset off) = (Some 0%Z, format_offset off)
  /\ read_offset (format_offset off)
     = Some (Some (if (off <? 0)%Z then (-1)%Z else 1%Z,
                   (Z.abs off / 60)%Z, (Z.abs off mod 60)%Z)).
Proof.
  intros H. unfold format_offset.
  assert (Hq : (0 <= Z.abs off / 60 < 100)%Z).
  { split; [apply Z.div_pos; lia|].
    apply Z.div_lt_upper_bound; lia. }
  assert (Hr : (0 <= Z.abs off mod 60 < 100)%Z)
    by (pose proof (Z.mod_pos_bound (Z.abs off) 60); lia).
  destruct (zero_pad_2 _ Hq) as (a & b & -> & Na).
  destruct (zero_pad_2 _ Hr) as (c & e & -> & Nc).
  change (py ":") with [":"%char].
  destruct (off <? 0)%Z.
  - change (py "-") with ["-"%char]. cbn [app read_fraction read_offset].
    change (ascii_eqb "-" ".") with false.
    change (ascii_eqb "-" "+") with false.
    change (ascii_eqb "-" "-") with true.
    change (ascii_eqb ":" ":") with true. cbn [orb andb].
    rewrite Na, Nc. split; reflexivity.
  - change (py "+") with ["+"%char]. cbn [app read_fraction read_offset].
    change (ascii_eqb "+" ".") with false.
    change (ascii_eqb "+" "+") with true.
    change (ascii_eqb "+" "-") with false.
    change (ascii_eqb ":" ":") with true. cbn [orb andb].
    rewrite Na, Nc. split; reflexivity.
Qed.

(** The timestamp [isoformat] writes is the one [fromisoformat] reads. *)
Lemma fromisoformat_isoformat (m : moment) :
  valid_moment m = true -> fromisoformat (isoformat m) = Ok m.
Proof.
  unfold valid_moment. intros Hv. apply andb_true_iff in Hv as [Hd Ho].
  destruct m as [d|d off]; cbn [fields isoformat] in *.
  - rewrite <- (app_nil_r (naive_isoformat d)).
    rewrite (fromisoformat_naive_isoformat d [] Hd eq_refl). reflexivity.
  - apply andb_true_iff in Ho as [H1 H2].
    apply Z.ltb_lt in H1, H2.
    destruct (format_offset_text off (conj H1 H2)) as [Hf Hr].
    rewrite (fromisoformat_naive_isoformat d _ Hd Hf), Hr.
    pose proof (Z.mod_pos_bound (Z.abs off) 60 ltac:(lia)) as Hm.
    destruct (Z.leb_spec 60 (Z.abs off mod 60)); [lia|].
    assert (Hq : (Z.abs off / 60 < 24)%Z)
      by (apply Z.div_lt_upper_bound; lia).
    destruct (Z.ltb_spec (Z.abs off / 60) 24); [|lia].
    do 2 f_equal.
    pose proof (Z.div_mod (Z.abs off) 60 ltac:(lia)) as Hdm.
    destruct (Z.ltb_spec off 0); lia.
Qed.

Lemma timestamp_is_isoformat (line : str) (now : datetime) (e : entry) :
  new_entry line now = Some e ->
  timestamp e = isoformat (Naive now) /\ full_command e = strip line.
Proof.
  unfold new_entry.
  destruct (strip (remove_history_number (strip line))); [discriminate|].
  intros H. inversion H. split; reflexivity.
Qed.

(** X1: the timestamp of an entry is read back as the clock reading it was
    written from, a naive datetime; it has 19 characters, or 26 with
    microseconds. *)
Theorem timestamp_roundtrip (line : str) (now : datetime) (e : entry) :
  valid_datetime now = true ->
  new_entry line now = Some e ->
  fromisoformat (timestamp e) = Ok (Naive now)
  /\ length (timestamp e) = if (microsecond now =? 0)%Z then 19 else 26.
Proof.
  intros Hv He.
  assert (Ht : timestamp e = isoformat (Naive now)).
  { unfold new_entry in He.
    destruct (strip (remove_history_number (strip line)));
      [discriminate|]. inversion He. reflexivity. }
  rewrite Ht. split.
  { apply fromisoformat_isoformat. unfold valid_moment. cbn [fields].
    rewrite Hv. reflexivity. }
  pose proof (valid_datetime_bounds now Hv)
    as (Hy & Hm & Hd & Hh & Hmi & Hs & Hus).
  cbn [isoformat]. unfold naive_isoformat. rewrite !length_app.
  destruct (zero_pad_number 4 (year now)) as [-> _]; [simpl; lia | lia|].
  destruct (zero_pad_number 2 (month now)) as [-> _]; [simpl; lia | lia|].
  destruct (zero_pad_number 2 (day now)) as [-> _]; [simpl; lia | lia|].
  destruct (zero_pad_number 2 (hour now)) as [-> _]; [simpl; lia | lia|].
  destruct (zero_pad_number 2 (minute now)) as [-> _]; [simpl; lia | lia|].
  destruct (zero_pad_number 2 (second now)) as [-> _]; [simpl; lia | lia|].
  destruct (microsecond now =? 0)%Z; [reflexivity|].
  rewrite length_app.
  destruct (zero_pad_number 6 (microsecond now)) as [-> _];
    [simpl; lia | lia|].
  reflexivity.
Qed.

(** The theorem at the line [ls] and the clock of the examples. *)
Lemma timestamp_roundtrip_witness :
  fromisoformat (py "2024-02-29T13:05:09.000120") = Ok (Naive the_clock).
Proof.
  assert (He : new_entry (py "ls") the_clock
               = Some (Entry (py "ls") (py "ls")
                             (py "2024-02-29T13:05:09.000120") (py "ls")))
    by (vm_compute; reflexivity).
  destruct (timestamp_roundtrip (py "ls") the_clock _
              (eq_refl : valid_datetime the_clock = true) He) as [H _].
  exact H.
Defined.

(* ------------------------------------------------------------------ *)
(** ** The entries [log_command] stores *)

Lemma run_length_firstn (p : ascii -> bool) (s : str) :
  forallb p (firstn (run_length p s) s) = true.
Proof.
  induction s as [|c r IH]; [reflexivity|].
  simpl. destruct (p c) eqn:E; [simpl; rewrite E; exact IH | reflexivity].
Qed.

Lemma run_length_rest (p : ascii -> bool) (s : str) :
  match skipn (run_length p s) s with
  | [] => True
  | c :: _ => p c = false
  end.
Proof.
  induction s as [|c r IH]; [exact I|].
  simpl. destruct (p c) eqn:E; [exact IH | exact E].
Qed.

Lemma first_token_spec (c : ascii) (r : str) :
  is_space c = false ->
  first_token (c :: r) <> []
  /\ forallb not_space (first_token (c :: r)) = true
  /\ exists rest,
       c :: r = first_token (c :: r) ++ rest
       /\ match rest with
          | [] => True
          | x :: _ => is_space x = true
          end.
Proof.
  intros Hc. unfold first_token. split; [|split].
  - simpl. unfold not_space at 1. rewrite Hc. discriminate.
  - apply run_length_firstn.
  - exists (skipn (run_length not_space (c :: r)) (c :: r)). split.
    + symmetry. apply firstn_skipn.
    + pose proof (run_length_rest not_space (c :: r)) as H.
      destruct (skipn (run_length not_space (c :: r)) (c :: r));
        [exact I|].
      unfold not_space in H. destruct (is_space a); [reflexivity|].
      discriminate.
Qed.

Lemma drop_ordinal_suffix (s : str) : exists p, s = p ++ drop_ordinal s.
Proof.
  unfold drop_ordinal.
  destruct ((0 <? run_length is_digit s)
            && (0 <? run_length is_space (skipn (run_length is_digit s) s))).
  - eexists. symmetry. apply firstn_skipn.
  - exists []. reflexivity.
Qed.

Lemma rstrip_strip (s : str) : rstrip (strip s) = strip s.
Proof. unfold strip. apply rstrip_idem. Qed.

(** The command is the end of the stripped line. *)
Lemma command_suffix (s : str) :
  strip (drop_ordinal (strip s)) <> [] ->
  exists p, strip s = p ++ strip (drop_ordinal (strip s)).
Proof.
  intros Hne.
  destruct (drop_ordinal_suffix (strip s)) as [p Hp].
  destruct (lstrip_suffix (drop_ordinal (strip s))) as [w Hw].
  set (y := lstrip (drop_ordinal (strip s))) in *.
  assert (Hy : strip (drop_ordinal (strip s)) = rstrip y) by reflexivity.
  rewrite Hy in *.
  assert (Hs : strip s = (p ++ w) ++ y).
  { rewrite <- app_assoc, <- Hw. exact Hp. }
  pose proof (rstrip_strip s) as Hr.
  rewrite Hs in Hr at 1. rewrite (rstrip_app _ _ Hne) in Hr.
  exists (p ++ w). rewrite Hr. reflexivity.
Qed.

Lemma new_entry_well_formed (line : str) (now : datetime) (e : entry) :
  new_entry line now = Some e -> well_formed e.
Proof.
  rewrite new_entry_normal_form.
  destruct (strip (drop_ordinal (strip line))) as [|c r] eqn:E;
    [discriminate|].
  intros H. inversion H. subst e. clear H. unfold well_formed.
  cbn [command base_command full_command].
  pose proof (strip_head (drop_ordinal (strip line))) as Hc.
  rewrite E in Hc.
  destruct (first_token_spec c r Hc) as (H1 & H2 & H3).
  split; [discriminate|]. split; [rewrite <- E; apply strip_idem|].
  split; [exact H1|]. split; [exact H2|]. split; [exact H3|].
  split; [apply strip_idem|].
  rewrite <- E. apply command_suffix. rewrite E. discriminate.
Qed.

Lemma In_entries_of (inputs : list (str * datetime)) (e : entry) :
  In e (entries_of inputs) ->
  exists i, In i inputs /\ new_entry (fst i) (snd i) = Some e.
Proof.
  unfold entries_of. rewrite in_flat_map. intros (i & Hi & He).
  exists i. split; [exact Hi|].
  destruct (new_entry (fst i) (snd i)); [|destruct He].
  destruct He as [->|[]]. reflexivity.
Qed.

Lemma In_cap (l : list entry) (e : entry) : In e (cap l) -> In e l.
Proof.
  unfold cap, last_n. destruct (MAX_COMMANDS <? length l); [|auto].
  intros H. rewrite <- (firstn_skipn (length l - MAX_COMMANDS) l).
  apply in_or_app. right. exact H.
Qed.

(** An entry of the history was there before the run or was built by one
    of its calls. *)
Lemma In_commands_log_all (t : tracker) (inputs : list (str * datetime))
    (e : entry) :
  In e (commands (log_all t inputs)) ->
  In e (commands t)
  \/ exists i, In i inputs /\ new_entry (fst i) (snd i) = Some e.
Proof.
  rewrite commands_log_all.
  destruct (entries_of inputs) as [|e0 es] eqn:E; [auto|].
  intros H. apply In_cap, in_app_or in H. destruct H as [H|H]; [auto|].
  right. apply In_entries_of. rewrite E. exact H.
Qed.

(** X2: every entry of a history that [log_command] built from nothing has
    a command that is not empty and has no whitespace around it, a base
    command that is not empty, holds no whitespace and starts the command,
    followed by whitespace or by nothing, and a stripped line that ends
    with the command. *)
Theorem logged_entries_well_formed (inputs : list (str * datetime))
    (e : entry) :
  In e (commands (log_all (Tracker [] None) inputs)) -> well_formed e.
Proof.
  intros H. apply In_commands_log_all in H.
  destruct H as [[]|(i & _ & Hi)].
  apply (new_entry_well_formed _ _ _ Hi).
Qed.

(** The theorem at the second entry of the history of the example. *)
Lemma logged_entries_well_formed_witness :
  well_formed (Entry (py "git add .") (py "git") (isoformat (Naive the_clock))
                     (py "git add .")).
Proof.
  apply (logged_entries_well_formed
           [(py "git status", the_clock); (py "git add .", the_clock);
            (py "ls", the_clock)]).
  vm_compute. right. left. reflexivity.
Defined.

(* ------------------------------------------------------------------ *)
(** ** The history and its file across calls *)

Lemma length_cap (l : list entry) : length (cap l) <= MAX_COMMANDS.
Proof.
  unfold cap. destruct (Nat.ltb_spec MAX_COMMANDS (length l)) as [H|H].
  - rewrite length_last_n; lia.
  - exact H.
Qed.

(** X3: a call that appends leaves at most 10000 entries, whatever the
    history held before; so a history that is within the bound stays within
    it through any run of calls. *)
Theorem history_bounded (t : tracker) (inputs : list (str * datetime)) :
  length (commands t) <= MAX_COMMANDS ->
  length (commands (log_all t inputs)) <= MAX_COMMANDS
  /\ forall t' line now,
       new_entry line now <> None ->
       length (commands (log_command t' line now)) <= MAX_COMMANDS.
Proof.
  intros H. split.
  - rewrite commands_log_all.
    destruct (entries_of inputs); [exact H | apply length_cap].
  - intros t' line now Hn. rewrite commands_log_command.
    destruct (new_entry line now); [apply length_cap | congruence].
Qed.

(** The theorem at three calls from an empty history. *)
Lemma history_bounded_witness :
  length (commands example_tracker) <= MAX_COMMANDS.
Proof.
  destruct (history_bounded (Tracker [] None)
              [(py "git status", the_clock); (py "git add .", the_clock);
               (py "ls", the_clock)]) as [H _].
  - apply Nat.le_0_l.
  - exact H.
Defined.

Lemma in_sync_log_command (t : tracker) (line : str) (now : datetime) :
  in_sync t -> in_sync (log_command t line now).
Proof.
  intros H. unfold log_command. rewrite log_command_io_eq.
  destruct (new_entry line now); [|exact H].
  left. reflexivity.
Qed.

Lemma in_sync_log_all (t : tracker) (inputs : list (str * datetime)) :
  in_sync t -> in_sync (log_all t inputs).
Proof.
  unfold log_all. revert t.
  induction inputs as [|i inputs IH]; intros t H; [exact H|].
  cbn [fold_left]. apply IH, in_sync_log_command, H.
Qed.

Lemma init_in_sync (t : tracker) :
  in_sync t -> init (commands_file t) = Ok t.
Proof.
  unfold init. intros [H | [Hc Hf]].
  - rewrite H. rewrite load_commands_dumps. destruct t as [cs f].
    cbn [commands commands_file] in *. rewrite H. reflexivity.
  - destruct t as [cs f]. cbn [commands commands_file] in *. subst.
    reflexivity.
Qed.

(** X4: for a history and lines of characters up to U+00FF, a tracker
    started on the file that a run of calls left is the tracker at the end
    of that run, so logging in several processes, each started on the file
    of the one before, gives the history and the file that one process
    gives.  For strings of any characters, a tracker started on the file
    written from a history holds that history with every high surrogate
    and the low surrogate next to it joined into the character they
    encode: it is the history itself exactly when no string of it holds
    such a pair, as is the case up to U+00FF. *)
Theorem restart_resumes (t : tracker)
    (first second : list (str * datetime)) :
  in_sync t ->
  init (commands_file (log_all t first)) = Ok (log_all t first)
  /\ (forall t', init (commands_file (log_all t first)) = Ok t' ->
                 log_all t' second = log_all t (first ++ second))
  /\ in_sync (log_all t (first ++ second))
  /\ forallb pair_free (map widen_entry (commands (log_all t first))) = true
  /\ forall (cs cs0 : list Unicode.entry) (file : option str),
       forallb is_entry cs = true ->
       let saved := Unicode.save_commands (Unicode.Tracker cs file) in
       Unicode.load_commands
         (Unicode.Tracker cs0 (Unicode.commands_file saved))
       = Ok (Unicode.Tracker (map join_entry cs)
               (Unicode.commands_file saved))
       /\ (map join_entry cs = cs <-> forallb pair_free cs = true).
Proof.
  intros H.
  assert (Hi : init (commands_file (log_all t first)) = Ok (log_all t first))
    by (apply init_in_sync, in_sync_log_all, H).
  split; [exact Hi|]. split; [|split; [|split]].
  - intros t' Ht'. rewrite Hi in Ht'. inversion Ht'. subst t'.
    unfold log_all. rewrite fold_left_app. reflexivity.
  - apply in_sync_log_all, H.
  - apply forallb_forall. intros x Hx.
    apply in_map_iff in Hx as (e & <- & _).
    apply join_entry_fixed, join_entry_widen.
  - intros cs cs0 file Hcs. cbv zeta. unfold Unicode.save_commands.
    cbn [Unicode.commands Unicode.commands_file].
    split; [apply unicode_load_dumps, Hcs | apply map_join_entry_fixed].
Qed.

(** The theorem at a first run of two calls and a second run of one, from
    a directory with no file. *)
Lemma restart_resumes_witness :
  init (commands_file
          (log_all (Tracker [] None)
             [(py "git status", the_clock); (py "git add .", the_clock)]))
  = Ok (log_all (Tracker [] None)
          [(py "git status", the_clock); (py "git add .", the_clock)])
  /\ log_all
       (log_all (Tracker [] None)
          [(py "git status", the_clock); (py "git add .", the_clock)])
       [(py "ls", the_clock)]
     = example_tracker.
Proof.
  destruct (restart_resumes (Tracker [] None)
              [(py "git status", the_clock); (py "git add .", the_clock)]
              [(py "ls", the_clock)]) as (Hi & H & _).
  - right. split; reflexivity.
  - split; [exact Hi | exact (H _ Hi)].
Defined.

(* ------------------------------------------------------------------ *)
(** ** Statistics of a logged history *)

Lemma valid_naive (d : datetime) :
  valid_datetime d = true -> valid_moment (Naive d) = true.
Proof.
  intros H. unfold valid_moment. cbn [fields]. rewrite H. reflexivity.
Qed.

Lemma new_entry_parses (line : str) (now : datetime) (e : entry) :
  valid_datetime now = true -> new_entry line now = Some e ->
  naive_timestamp e = true.
Proof.
  intros Hv He. unfold naive_timestamp.
  destruct (timestamp_is_isoformat line now e He) as [-> _].
  rewrite (fromisoformat_isoformat (Naive now) (valid_naive now Hv)).
  reflexivity.
Qed.

Lemma summarize_parses (cs : list entry) (days : option Z) :
  forallb naive_timestamp cs = true -> exists s, summarize cs days = Ok s.
Proof.
  intros H. destruct (summarize_naive cs days H) as (s & Hs & _). eauto.
Qed.

(** The entries a successful [get_stats] has analysed: the whole history,
    or the entries that are not before the cutoff of the window; in that
    case every timestamp of the history is a naive datetime. *)
Lemma get_stats_analyzed (t : tracker) (now : datetime) (days : option Z)
    (s : stats) :
  get_stats t now days = Ok s ->
  exists cs,
    summarize cs days = Ok s
    /\ ((days = None \/ days = Some 0%Z) /\ cs = commands t
        \/ exists d cutoff,
             days = Some d /\ d <> 0%Z /\ minus_days now d = Ok cutoff
             /\ forallb naive_timestamp (commands t) = true
             /\ cs = filter (since cutoff) (commands t)).
Proof.
  rewrite get_stats_eq. destruct days as [d|].
  - destruct (Z.eqb_spec d 0) as [->|Hne]; cbn [bind].
    + intros H. exists (commands t). auto.
    + destruct (minus_days now d) as [cutoff|e] eqn:Em; cbn [bind];
        [|discriminate].
      destruct (forallb naive_timestamp (commands t)) eqn:Hp.
      * rewrite (commands_since_filter cutoff _ Hp). cbn [bind].
        intros H. exists (filter (since cutoff) (commands t)).
        split; [exact H|]. right. exists d, cutoff. auto.
      * destruct (commands_since_error cutoff _ Hp) as (e & c & -> & _).
        discriminate.
  - cbn [bind]. intros H. exists (commands t). auto.
Qed.

Lemma logged_history_parses (inputs : list (str * datetime)) :
  valid_clocks inputs ->
  forallb naive_timestamp (commands (log_all (Tracker [] None) inputs)) = true.
Proof.
  intros Hv. apply forallb_forall. intros e He.
  apply In_commands_log_all in He. destruct He as [[]|(i & Hi & He)].
  unfold valid_clocks in Hv. rewrite Forall_forall in Hv.
  apply (new_entry_parses (fst i) (snd i)); [apply Hv, Hi | exact He].
Qed.

(** X5: on a history that [log_command] wrote, [get_stats] never fails on a
    timestamp: without a window it returns statistics that count every
    entry, and with a window it returns statistics unless the cutoff
    cannot be represented, which raises [OverflowError]. *)
Theorem get_stats_of_logged_history (inputs : list (str * datetime))
    (now : datetime) :
  valid_clocks inputs ->
  let t := log_all (Tracker [] None) inputs in
  (exists s, get_stats t now None = Ok s
             /\ total_commands s = length (commands t))
  /\ forall d,
       (exists s, get_stats t now (Some d) = Ok s)
       \/ get_stats t now (Some d) = Err OverflowError.
Proof.
  intros Hv. cbv zeta. pose proof (logged_history_parses inputs Hv) as Hp.
  split.
  - rewrite get_stats_eq. cbn [bind].
    destruct (summarize_parses _ None Hp) as [s Hs].
    exists s. split; [exact Hs|].
    unfold summarize in Hs.
    destruct (last_used_loop [] _); [|discriminate].
    inversion Hs. reflexivity.
  - intros d. rewrite get_stats_eq.
    destruct (d =? 0)%Z; cbn [bind].
    + left. apply summarize_parses, Hp.
    + destruct (minus_days now d) as [cutoff|e] eqn:Em; cbn [bind].
      * left. rewrite (commands_since_filter cutoff _ Hp). cbn [bind].
        apply summarize_parses, forallb_filter, Hp.
      * right. rewrite (minus_days_error _ _ _ Em). reflexivity.
Qed.

(** The theorem at the history of the example. *)
Lemma get_stats_of_logged_history_witness :
  exists s, get_stats example_tracker the_clock None = Ok s
            /\ total_commands s = 3.
Proof.
  destruct (get_stats_of_logged_history
              [(py "git status", the_clock); (py "git add .", the_clock);
               (py "ls", the_clock)] the_clock) as [(s & Hs & Ht) _].
  - repeat constructor.
  - exists s. split; [exact Hs|]. rewrite Ht. reflexivity.
Defined.

(* ------------------------------------------------------------------ *)
(** ** The counters of [get_stats] *)

Lemma dict_set_total (d : dict nat) (k : str) :
  total_count
    (dict_set k (match dict_get k d with Some n => n | None => 0 end + 1) d)
  = total_count d + 1.
Proof.
  unfold total_count. induction d as [|[k' v'] r IH]; simpl; [reflexivity|].
  destruct (str_eqb k k'); simpl; [lia|]. rewrite IH. lia.
Qed.

Lemma count_elements_total (c : dict nat) (xs : list str) :
  total_count (count_elements c xs) = total_count c + length xs.
Proof.
  revert c. induction xs as [|x xs IH]; intros c; simpl; [lia|].
  unfold count_elements in *. simpl. rewrite IH, dict_set_total. lia.
Qed.

Lemma Counter_values (xs : list str) (k : str) (n : nat) :
  In (k, n) (Counter xs) -> n = occurrences k xs /\ 1 <= n.
Proof.
  intros H.
  apply dict_get_NoDup_In in H;
    [|apply count_elements_NoDup; constructor].
  rewrite Counter_get in H.
  destruct (occurrences k xs); [discriminate|].
  inversion H. split; [reflexivity | lia].
Qed.

Lemma length_le_total (d : dict nat) :
  (forall k n, In (k, n) d -> 1 <= n) -> length d <= total_count d.
Proof.
  unfold total_count. induction d as [|[k v] r IH]; intros H; simpl; [lia|].
  assert (1 <= v) by (apply (H k); left; reflexivity).
  assert (length r <= list_sum (map snd r))
    by (apply IH; intros k' n Hn; apply (H k'); right; exact Hn).
  lia.
Qed.

Lemma summarize_fields (cs : list entry) (days : option Z) (s : stats) :
  summarize cs days = Ok s ->
  total_commands s = length cs
  /\ unique_base_commands s = length (base_command_counts s)
  /\ base_command_counts s = Counter (map base_command cs)
  /\ full_command_counts s = Counter (map command cs)
  /\ period_days s = days
  /\ exists last,
       last_used_loop [] cs = Ok last
       /\ last_used s = map (fun kv => (fst kv, isoformat (snd kv))) last.
Proof.
  unfold summarize. destruct (last_used_loop [] cs) as [last|]; [|discriminate].
  cbn [bind]. intros H. inversion H. cbn. repeat split. eauto.
Qed.

(** X6: in the statistics the counts of the base commands add up to the
    total, and so do the counts of the full commands; every count is at
    least one; the number of unique base commands is the number of keys,
    and is at most the total; no key occurs twice; the window asked for is
    the one recorded. *)
Theorem get_stats_counts (t : tracker) (now : datetime) (days : option Z)
    (s : stats) :
  get_stats t now days = Ok s ->
  total_count (base_command_counts s) = total_commands s
  /\ total_count (full_command_counts s) = total_commands s
  /\ unique_base_commands s = length (base_command_counts s)
  /\ unique_base_commands s <= total_commands s
  /\ (forall k n, In (k, n) (base_command_counts s) -> 1 <= n)
  /\ (forall k n, In (k, n) (full_command_counts s) -> 1 <= n)
  /\ NoDup (dict_keys (base_command_counts s))
  /\ NoDup (dict_keys (full_command_counts s))
  /\ period_days s = days.
Proof.
  intros H. destruct (get_stats_analyzed t now days s H) as (cs & Hs & _).
  destruct (summarize_fields cs days s Hs)
    as (Ht & Hu & Hb & Hf & Hp & _).
  assert (Hb1 : forall k n, In (k, n) (base_command_counts s) -> 1 <= n)
    by (intros k n Hn; rewrite Hb in Hn; apply (Counter_values _ _ _ Hn)).
  assert (Hbt : total_count (base_command_counts s) = total_commands s).
  { rewrite Hb, Ht. unfold Counter. rewrite count_elements_total.
    rewrite length_map. reflexivity. }
  split; [exact Hbt|]. split.
  { rewrite Hf, Ht. unfold Counter. rewrite count_elements_total.
    rewrite length_map. reflexivity. }
  split; [exact Hu|]. split.
  { rewrite Hu, <- Hbt. apply length_le_total, Hb1. }
  split; [exact Hb1|]. split.
  { intros k n Hn. rewrite Hf in Hn. apply (Counter_values _ _ _ Hn). }
  split; [rewrite Hb; apply count_elements_NoDup; constructor|].
  split; [rewrite Hf; apply count_elements_NoDup; constructor|].
  exact Hp.
Qed.

(** The theorem at the history of the example, for the last seven days. *)
Lemma get_stats_counts_witness :
  exists s,
    get_stats example_tracker the_clock (Some 7%Z) = Ok s
    /\ total_count (base_command_counts s) = total_commands s.
Proof.
  destruct (get_stats example_tracker the_clock (Some 7%Z)) as [s|] eqn:Hs;
    [|vm_compute in Hs; discriminate Hs].
  exists s. split; [reflexivity|].
  apply (get_stats_counts example_tracker the_clock (Some 7%Z) s Hs).
Defined.

(* ------------------------------------------------------------------ *)
(** ** The order of datetimes is the order of their instants *)

Lemma lex_compare_app (a b a' b' : list Z) :
  length a = length a' ->
  lex_compare (a ++ b) (a' ++ b')
  = match lex_compare a a' with
    | Eq => lex_compare b b'
    | c => c
    end.
Proof.
  revert a'. induction a as [|x a IH]; intros [|y a'] H;
    try discriminate H; [reflexivity|].
  cbn [app lex_compare]. destruct (x ?= y)%Z; [|reflexivity..].
  apply IH. inversion H. reflexivity.
Qed.

Lemma days_before_year_step (y : Z) :
  days_before_year (y + 1)
  = (days_before_year y + if is_leap y then 366 else 365)%Z.
Proof.
  unfold days_before_year, is_leap. cbv zeta.
  replace (y + 1 - 1)%Z with y by lia.
  destruct (Z.eqb_spec (y mod 4) 0), (Z.eqb_spec (y mod 100) 0),
    (Z.eqb_spec (y mod 400) 0); cbn [andb orb negb];
    Z.div_mod_to_equations; lia.
Qed.

Lemma days_before_year_le (y y' : Z) :
  (y <= y')%Z -> (days_before_year y <= days_before_year y')%Z.
Proof.
  unfold days_before_year. cbv zeta. intros H.
  Z.div_mod_to_equations. lia.
Qed.

Lemma month_cases (m : Z) :
  (1 <= m <= 12)%Z ->
  (m = 1 \/ m = 2 \/ m = 3 \/ m = 4 \/ m = 5 \/ m = 6 \/ m = 7 \/ m = 8
   \/ m = 9 \/ m = 10 \/ m = 11 \/ m = 12)%Z.
Proof. lia. Qed.

Ltac each_month H :=
  apply month_cases in H;
  repeat (destruct H as [H|H]; [subst|]); [..|subst].

Ltac month_tables :=
  cbv [table DAYS_IN_MONTH DAYS_BEFORE_MONTH nth Z.to_nat Pos.to_nat
       Pos.iter_op Init.Nat.add Z.eqb Z.ltb Z.compare Pos.compare
       Pos.compare_cont Pos.eqb andb].

(** A day of a year is one of its 365 or 366 days. *)
Lemma day_of_year_bounds (y m d : Z) :
  (1 <= m <= 12)%Z -> (1 <= d <= days_in_month y m)%Z ->
  (1 <= days_before_month y m + d
   <= if is_leap y then 366 else 365)%Z.
Proof.
  intros Hm. unfold days_before_month, days_in_month.
  each_month Hm; destruct (is_leap y); month_tables; lia.
Qed.

(** The days before a month include every day of an earlier month. *)
Lemma days_before_month_lt (y m d m' : Z) :
  (1 <= m <= 12)%Z -> (1 <= m' <= 12)%Z -> (m < m')%Z ->
  (1 <= d <= days_in_month y m)%Z ->
  (days_before_month y m + d <= days_before_month y m')%Z.
Proof.
  intros Hm Hm'. unfold days_before_month, days_in_month.
  each_month Hm; each_month Hm'; intros Hlt; try lia;
    destruct (is_leap y); month_tables; lia.
Qed.

(** [ymd2ord] grows with the date. *)
Lemma ymd2ord_lt (y m d y' m' d' : Z) :
  (1 <= m <= 12)%Z -> (1 <= d <= days_in_month y m)%Z ->
  (1 <= m' <= 12)%Z -> (1 <= d' <= days_in_month y' m')%Z ->
  lex_compare [y; m; d] [y'; m'; d'] = Lt ->
  (ymd2ord y m d < ymd2ord y' m' d')%Z.
Proof.
  intros Hm Hd Hm' Hd' H. unfold ymd2ord. cbn [lex_compare] in H.
  destruct (Z.compare_spec y y') as [->|Hy|Hy]; [| |discriminate H].
  - destruct (Z.compare_spec m m') as [->|Hmm|Hmm]; [| |discriminate H].
    + destruct (Z.compare_spec d d'); try discriminate H. lia.
    + pose proof (days_before_month_lt y' m d m' Hm Hm' Hmm Hd). lia.
  - pose proof (day_of_year_bounds y m d Hm Hd) as H1.
    pose proof (day_of_year_bounds y' m' d' Hm' Hd') as H2.
    pose proof (days_before_year_step y) as H3.
    pose proof (days_before_year_le (y + 1) y' ltac:(lia)) as H4.
    destruct (is_leap y); lia.
Qed.

Lemma lex_compare_refl (a : list Z) : lex_compare a a = Eq.
Proof.
  induction a as [|x a IH]; [reflexivity|].
  cbn [lex_compare]. rewrite Z.compare_refl. exact IH.
Qed.

Lemma ymd2ord_compare (y m d y' m' d' : Z) :
  (1 <= m <= 12)%Z -> (1 <= d <= days_in_month y m)%Z ->
  (1 <= m' <= 12)%Z -> (1 <= d' <= days_in_month y' m')%Z ->
  lex_compare [y; m; d] [y'; m'; d']
  = (ymd2ord y m d ?= ymd2ord y' m' d')%Z.
Proof.
  intros Hm Hd Hm' Hd'.
  destruct (lex_compare [y; m; d] [y'; m'; d']) eqn:E.
  - apply lex_compare_eq in E. inversion E. subst.
    symmetry. apply Z.compare_refl.
  - symmetry. apply Z.compare_lt_iff.
    apply ymd2ord_lt; assumption.
  - symmetry. apply Z.compare_gt_iff.
    apply ymd2ord_lt; try assumption.
    pose proof (lex_compare_antisym [y; m; d] [y'; m'; d']) as Ha.
    rewrite E in Ha. cbn [CompOpp] in Ha. exact Ha.
Qed.

Lemma time_compare (h n s u h' n' s' u' : Z) :
  (0 <= n < 60)%Z -> (0 <= s < 60)%Z -> (0 <= u < 1000000)%Z ->
  (0 <= n' < 60)%Z -> (0 <= s' < 60)%Z -> (0 <= u' < 1000000)%Z ->
  lex_compare [h; n; s; u] [h'; n'; s'; u']
  = (((h * 60 + n) * 60 + s) * 1000000 + u
     ?= ((h' * 60 + n') * 60 + s') * 1000000 + u')%Z.
Proof.
  intros Hn Hs Hu Hn' Hs' Hu'. cbn [lex_compare]. symmetry.
  destruct (Z.compare_spec h h') as [->|Hh|Hh];
    [|apply Z.compare_lt_iff; nia | apply Z.compare_gt_iff; nia].
  destruct (Z.compare_spec n n') as [->|Hc|Hc];
    [|apply Z.compare_lt_iff; nia | apply Z.compare_gt_iff; nia].
  destruct (Z.compare_spec s s') as [->|Hc|Hc];
    [|apply Z.compare_lt_iff; nia | apply Z.compare_gt_iff; nia].
  destruct (Z.compare_spec u u') as [->|Hc|Hc];
    [apply Z.compare_refl
    |apply Z.compare_lt_iff; nia | apply Z.compare_gt_iff; nia].
Qed.

Lemma instant_eq (d : datetime) (off : Z) :
  instant d off
  = (toordinal d * 86400000000 + time_of_day d - off * 60000000)%Z.
Proof. unfold instant, time_of_day. lia. Qed.

Lemma time_of_day_bounds (d : datetime) :
  valid_datetime d = true -> (0 <= time_of_day d < 86400000000)%Z.
Proof.
  intros H. apply valid_datetime_bounds in H. unfold time_of_day. lia.
Qed.

Lemma valid_datetime_day (d : datetime) :
  valid_datetime d = true ->
  (1 <= day d <= days_in_month (year d) (month d))%Z.
Proof.
  unfold valid_datetime. rewrite !andb_true_iff, !Z.leb_le, !Z.ltb_lt.
  intros H. split; apply H.
Qed.

(** Between two datetimes at one offset, the order of the fields is the
    order of the instants. *)
Lemma dt_compare_instant (a b : datetime) (off : Z) :
  valid_datetime a = true -> valid_datetime b = true ->
  dt_compare a b = (instant a off ?= instant b off)%Z.
Proof.
  intros Ha Hb.
  pose proof (time_of_day_bounds a Ha) as Ta.
  pose proof (time_of_day_bounds b Hb) as Tb.
  pose proof (valid_datetime_bounds a Ha) as Ba.
  pose proof (valid_datetime_bounds b Hb) as Bb.
  pose proof (valid_datetime_day a Ha) as Da.
  pose proof (valid_datetime_day b Hb) as Db.
  rewrite !instant_eq. unfold dt_compare, dt_tuple.
  change [year a; month a; day a; hour a; minute a; second a; microsecond a]
    with ([year a; month a; day a]
          ++ [hour a; minute a; second a; microsecond a]).
  change [year b; month b; day b; hour b; minute b; second b; microsecond b]
    with ([year b; month b; day b]
          ++ [hour b; minute b; second b; microsecond b]).
  rewrite lex_compare_app by reflexivity.
  rewrite ymd2ord_compare by lia.
  rewrite time_compare by lia.
  fold (toordinal a) (toordinal b) (time_of_day a) (time_of_day b).
  symmetry.
  destruct (Z.compare_spec (toordinal a) (toordinal b)) as [E|E|E].
  - rewrite E.
    destruct (Z.compare_spec (time_of_day a) (time_of_day b)) as [E'|E'|E'].
    + apply Z.compare_eq_iff. lia.
    + apply Z.compare_lt_iff. lia.
    + apply Z.compare_gt_iff. lia.
  - apply Z.compare_lt_iff. lia.
  - apply Z.compare_gt_iff. lia.
Qed.

Lemma same_kind_refl (a : moment) : same_kind a a = true.
Proof. destruct a; reflexivity. Qed.

Lemma same_kind_trans (a b c : moment) :
  same_kind a b = true -> same_kind b c = true -> same_kind a c = true.
Proof. destruct a, b, c; cbn; congruence. Qed.

Lemma same_kind_sym (a b : moment) : same_kind a b = same_kind b a.
Proof. destruct a, b; reflexivity. Qed.

(** Two datetime objects of one kind are ordered as their instants are, and
    two of different kinds are not ordered. *)
Lemma moment_compare_instant (a b : moment) :
  valid_moment a = true -> valid_moment b = true ->
  moment_compare a b
  = if same_kind a b
    then Ok (moment_instant a ?= moment_instant b)%Z
    else Err TypeError.
Proof.
  unfold valid_moment.
  destruct a as [x|x ox], b as [y|y oy]; cbn [fields]; intros Ha Hb;
    apply andb_true_iff in Ha as [Ha _];
    apply andb_true_iff in Hb as [Hb _];
    cbn [moment_compare same_kind moment_instant]; try reflexivity.
  - rewrite (dt_compare_instant x y 0%Z Ha Hb). reflexivity.
  - destruct (Z.eqb_spec ox oy) as [->|_]; [|reflexivity].
    rewrite (dt_compare_instant x y oy Ha Hb). reflexivity.
Qed.

Lemma dt_gt_false (a b : moment) :
  valid_moment a = true -> valid_moment b = true ->
  (dt_gt a b = Ok false
   <-> same_kind a b = true /\ (moment_instant a <= moment_instant b)%Z).
Proof.
  intros Ha Hb. unfold dt_gt. rewrite (moment_compare_instant a b Ha Hb).
  destruct (same_kind a b); cbn [bind].
  - destruct (Z.compare_spec (moment_instant a) (moment_instant b));
      (split; [intros E; try discriminate E; (split; [reflexivity | lia])
              |intros [_ E]; try reflexivity; lia]).
  - split; [discriminate | intros [H _]; discriminate H].
Qed.

Lemma dt_gt_true (a b : moment) :
  valid_moment a = true -> valid_moment b = true ->
  (dt_gt a b = Ok true
   <-> same_kind a b = true /\ (moment_instant b < moment_instant a)%Z).
Proof.
  intros Ha Hb. unfold dt_gt. rewrite (moment_compare_instant a b Ha Hb).
  destruct (same_kind a b); cbn [bind].
  - destruct (Z.compare_spec (moment_instant a) (moment_instant b));
      (split; [intros E; try discriminate E; (split; [reflexivity | lia])
              |intros [_ E]; try reflexivity; lia]).
  - split; [discriminate | intros [H _]; discriminate H].
Qed.

Lemma dt_gt_irrefl (a : moment) :
  valid_moment a = true -> dt_gt a a = Ok false.
Proof.
  intros Ha. apply dt_gt_false; [exact Ha..|].
  split; [apply same_kind_refl | lia].
Qed.

Lemma dt_gt_false_trans (a b c : moment) :
  valid_moment a = true -> valid_moment b = true -> valid_moment c = true ->
  dt_gt a b = Ok false -> dt_gt b c = Ok false -> dt_gt a c = Ok false.
Proof.
  intros Ha Hb Hc Hab Hbc.
  apply (dt_gt_false a b Ha Hb) in Hab as [K1 L1].
  apply (dt_gt_false b c Hb Hc) in Hbc as [K2 L2].
  apply (dt_gt_false a c Ha Hc).
  split; [apply (same_kind_trans a b c K1 K2) | lia].
Qed.

Lemma dt_gt_true_false (a b c : moment) :
  valid_moment a = true -> valid_moment b = true -> valid_moment c = true ->
  dt_gt a b = Ok true -> dt_gt a c = Ok false -> dt_gt b c = Ok false.
Proof.
  intros Ha Hb Hc Hab Hac.
  apply (dt_gt_true a b Ha Hb) in Hab as [K1 L1].
  apply (dt_gt_false a c Ha Hc) in Hac as [K2 L2].
  apply (dt_gt_false b c Hb Hc).
  split; [|lia].
  apply (same_kind_trans b a c); [rewrite same_kind_sym; exact K1 | exact K2].
Qed.

Lemma digits_value_nonneg (s : str) (acc n : Z) :
  (0 <= acc)%Z -> digits_value acc s = Some n -> (0 <= n)%Z.
Proof.
  revert acc. induction s as [|c r IH]; intros acc Ha; cbn [digits_value].
  - intros H. inversion H. subst. exact Ha.
  - destruct (is_digit c) eqn:Hc; [|discriminate].
    apply IH. unfold is_digit in Hc.
    apply andb_true_iff in Hc as [H1 _]. apply Nat.leb_le in H1. lia.
Qed.

Lemma number_nonneg (s : str) (n : Z) : number s = Some n -> (0 <= n)%Z.
Proof.
  unfold number. destruct s; [discriminate|].
  apply digits_value_nonneg. lia.
Qed.

Lemma read_offset_sign (s : str) (sign h m : Z) :
  read_offset s = Some (Some (sign, h, m)) ->
  (sign = 1 \/ sign = -1)%Z /\ (0 <= h)%Z /\ (0 <= m)%Z.
Proof.
  unfold read_offset.
  destruct s as [|sg [|o1 [|o2 [|c [|o3 [|o4 [|x r]]]]]]]; try discriminate.
  destruct ((ascii_eqb sg "+"%char || ascii_eqb sg "-"%char)
            && ascii_eqb c ":"%char); [|discriminate].
  destruct (number [o1; o2]) as [h'|] eqn:Eh; [|discriminate].
  destruct (number [o3; o4]) as [m'|] eqn:Em; [|discriminate].
  intros H. inversion H. subst.
  split; [destruct (ascii_eqb sg "-"%char); auto|].
  split; [apply (number_nonneg _ _ Eh) | apply (number_nonneg _ _ Em)].
Qed.

(** What [fromisoformat] returns has passed the checks of the
    constructors. *)
Lemma fromisoformat_valid (text : str) (m : moment) :
  fromisoformat text = Ok m -> valid_moment m = true.
Proof.
  unfold fromisoformat. intros H.
  destruct (length text <? 7); [discriminate H|].
  repeat match type of H with
         | context [read_fraction ?r] =>
             destruct (read_fraction r) as [us tz]
         | context [read_offset ?r] =>
             destruct (read_offset r) as [[[[sign oh] om]|]|] eqn:Hoff
         | context [if valid_datetime ?x && ?c then _ else _] =>
             destruct (valid_datetime x) eqn:Hv; destruct c eqn:Hc;
             cbn [andb] in H
         | context [if valid_datetime ?x then _ else _] =>
             destruct (valid_datetime x) eqn:Hv
         | context [if (60 <=? ?x)%Z then _ else _] =>
             destruct (Z.leb_spec 60 x)
         | context [match ?x with _ => _ end] => destruct x
         end; try discriminate; inversion H; subst;
    unfold valid_moment; cbn [fields]; rewrite Hv; cbn [andb];
    try reflexivity.
  apply read_offset_sign in Hoff as ([->| ->] & Hh & Hm);
    apply Z.ltb_lt in Hc; apply andb_true_iff; split; apply Z.ltb_lt; lia.
Qed.

Lemma isoformat_nonempty (m : moment) :
  valid_moment m = true -> exists c l, isoformat m = c :: l.
Proof.
  intros Hv. unfold valid_moment in Hv. apply andb_true_iff in Hv as [Hv _].
  pose proof (valid_datetime_bounds _ Hv) as (Hy & _).
  destruct (zero_pad_4 (year (fields m))) as (a & b & c & e & E & _); [lia|].
  destruct m as [d|d off]; cbn [fields] in E;
    unfold isoformat, naive_isoformat; rewrite E; cbn [app]; eauto.
Qed.

(** What the loop of [last_used] leaves for a key: the greatest among what
    was on record for it and the timestamps of the entries with that base
    command; all of these are of one kind, naive or aware. *)
Lemma last_used_loop_max (cs : list entry) (last d : dict moment) :
  (forall k m, dict_get k last = Some m -> valid_moment m = true) ->
  last_used_loop last cs = Ok d ->
  forall k,
    match dict_get k d with
    | None =>
        dict_get k last = None
        /\ forall e, In e cs -> base_command e <> k
    | Some m =>
        valid_moment m = true
        /\ (dict_get k last = Some m
            \/ exists e, In e cs /\ base_command e = k
                         /\ fromisoformat (timestamp e) = Ok m)
        /\ (forall o, dict_get k last = Some o -> dt_gt o m = Ok false)
        /\ forall e ts, In e cs -> base_command e = k ->
                        fromisoformat (timestamp e) = Ok ts ->
                        dt_gt ts m = Ok false
    end.
Proof.
  revert last. induction cs as [|c r IH]; intros last Hlast H k.
  - cbn [last_used_loop] in H. inversion H. subst d.
    destruct (dict_get k last) as [m|] eqn:Ek.
    + split; [apply (Hlast k m Ek)|]. split; [left; reflexivity|]. split.
      * intros o Ho. inversion Ho. subst o.
        apply dt_gt_irrefl, (Hlast k m Ek).
      * intros e ts [].
    + split; [reflexivity | intros e []].
  - cbn [last_used_loop] in H.
    destruct (fromisoformat (timestamp c)) as [ts|err] eqn:Ets;
      [|discriminate H].
    cbn [bind] in H. pose proof (fromisoformat_valid _ _ Ets) as Hts.
    assert (Hset : forall k m,
               dict_get k (dict_set (base_command c) ts last) = Some m ->
               valid_moment m = true).
    { intros k' m. rewrite dict_get_set.
      destruct (str_eqb k' (base_command c)); [|apply Hlast].
      intros E. inversion E. subst m. exact Hts. }
    assert (Hnew :
      last_used_loop (dict_set (base_command c) ts last) r = Ok d ->
      (forall o, dict_get (base_command c) last = Some o ->
                 dt_gt ts o = Ok true) ->
      match dict_get k d with
      | None =>
          dict_get k last = None
          /\ forall e, In e (c :: r) -> base_command e <> k
      | Some m =>
          valid_moment m = true
          /\ (dict_get k last = Some m
              \/ exists e, In e (c :: r) /\ base_command e = k
                           /\ fromisoformat (timestamp e) = Ok m)
          /\ (forall o, dict_get k last = Some o -> dt_gt o m = Ok false)
          /\ forall e ts, In e (c :: r) -> base_command e = k ->
                          fromisoformat (timestamp e) = Ok ts ->
                          dt_gt ts m = Ok false
      end).
    { intros Hr Hold. specialize (IH _ Hset Hr k).
      rewrite dict_get_set in IH.
      destruct (str_eqb k (base_command c)) eqn:Ek.
      - apply str_eqb_eq in Ek. subst k.
        destruct (dict_get (base_command c) d) as [m|].
        + destruct IH as (Hm & Horigin & Hrec & Hmax).
          pose proof (Hrec ts eq_refl) as Htm.
          split; [exact Hm|]. split; [|split].
          * right. destruct Horigin as [E|(e & He & Hb & Hf)].
            -- inversion E. subst m. exists c.
               split; [left; reflexivity | auto].
            -- exists e. split; [right; exact He | auto].
          * intros o Ho.
            apply (dt_gt_true_false ts o m Hts (Hlast _ _ Ho) Hm);
              [apply Hold, Ho | exact Htm].
          * intros e ts' [->|He] Hb Hf.
            -- rewrite Ets in Hf. inversion Hf. subst ts'. exact Htm.
            -- apply (Hmax e ts' He Hb Hf).
        + destruct IH as [IH _]. discriminate IH.
      - apply str_eqb_neq in Ek.
        destruct (dict_get k d) as [m|].
        + destruct IH as (Hm & Horigin & Hrec & Hmax).
          split; [exact Hm|]. split; [|split; [exact Hrec|]].
          * destruct Horigin as [E|(e & He & Hb & Hf)]; [left; exact E|].
            right. exists e. split; [right; exact He | auto].
          * intros e ts' [->|He] Hb Hf; [congruence|].
            apply (Hmax e ts' He Hb Hf).
        + destruct IH as [IH1 IH2]. split; [exact IH1|].
          intros e [->|He]; [congruence | apply (IH2 e He)]. }
    destruct (dict_get (base_command c) last) as [old|] eqn:Eold.
    + destruct (dt_gt ts old) as [[|]|err] eqn:Egt; [| |discriminate H];
        cbn [bind] in H.
      * apply (Hnew H). intros o Ho. inversion Ho. subst o. exact Egt.
      * specialize (IH _ Hlast H k).
        destruct (dict_get k d) as [m|].
        -- destruct IH as (Hm & Horigin & Hrec & Hmax).
           split; [exact Hm|]. split; [|split; [exact Hrec|]].
           ++ destruct Horigin as [E|(e & He & Hb & Hf)]; [left; exact E|].
              right. exists e. split; [right; exact He | auto].
           ++ intros e ts' [->|He] Hb Hf; [|apply (Hmax e ts' He Hb Hf)].
              rewrite Ets in Hf. inversion Hf. subst ts' k.
              apply (dt_gt_false_trans ts old m Hts (Hlast _ _ Eold) Hm Egt).
              apply Hrec, Eold.
        -- destruct IH as [IH1 IH2]. split; [exact IH1|].
           intros e [->|He]; [congruence | apply (IH2 e He)].
    + apply (Hnew H). intros o Ho. discriminate Ho.
Qed.

(** The loop of [last_used] returns only when every timestamp is read. *)
Lemma last_used_loop_reads (cs : list entry) (last d : dict moment) :
  last_used_loop last cs = Ok d ->
  forall e, In e cs -> exists ts, fromisoformat (timestamp e) = Ok ts.
Proof.
  revert last. induction cs as [|c r IH]; intros last H e; [intros []|].
  cbn [last_used_loop] in H.
  destruct (fromisoformat (timestamp c)) as [ts|err] eqn:Ets;
    [|discriminate H].
  cbn [bind] in H. intros [->|He]; [eauto|].
  destruct (dict_get (base_command c) last).
  - destruct (dt_gt ts m) as [[|]|]; [| |discriminate H]; cbn [bind] in H;
      apply (IH _ H e He).
  - apply (IH _ H e He).
Qed.

(* ------------------------------------------------------------------ *)
(** ** [last_used] and the window *)

Lemma occurrences_none (k : str) (cs : list entry) :
  (forall e, In e cs -> base_command e <> k) ->
  occurrences k (map base_command cs) = 0.
Proof.
  unfold occurrences. induction cs as [|c r IH]; intros H; [reflexivity|].
  cbn [map filter].
  destruct (str_eqb k (base_command c)) eqn:E.
  - apply str_eqb_eq in E. exfalso.
    apply (H c); [left; reflexivity | symmetry; exact E].
  - apply IH. intros e He. apply H. right. exact He.
Qed.



Lemma dt_gtb_irrefl (a : datetime) : dt_gtb a a = false.
Proof.
  destruct (dt_gtb a a) eqn:E; [|reflexivity].
  rewrite (dt_gtb_antisym a a E) in E. discriminate.
Qed.

Lemma dt_geb_refl (a : datetime) : dt_geb a a = true.
Proof.
  unfold dt_geb. pose proof (dt_gtb_irrefl a) as H. unfold dt_gtb in H.
  unfold dt_compare in *.
  pose proof (lex_compare_antisym (dt_tuple a) (dt_tuple a)) as Ha.
  destruct (lex_compare (dt_tuple a) (dt_tuple a)); simpl in *; congruence.
Qed.

Lemma occurrences_filter (k : str) (p : entry -> bool) (cs : list entry) :
  occurrences k (map base_command (filter p cs))
  <= occurrences k (map base_command cs).
Proof.
  unfold occurrences. induction cs as [|c r IH]; [apply Nat.le_refl|].
  cbn [filter map]. destruct (p c); cbn [map filter];
    destruct (str_eqb k (base_command c)); cbn [length]; lia.
Qed.

(** X8: with a window of [d] days, [d] not zero, the statistics are those of
    the entries whose timestamp is not before the clock reading minus [d]
    days: an entry stamped at the cutoff itself is counted, the total is at
    most the length of the history and no base command is counted more
    often than in the whole history.  Every timestamp of the history is
    then a naive datetime; the counts of the full commands and the
    last-used times are those of the same entries. *)
Theorem get_stats_window (t : tracker) (now : datetime) (d : Z)
    (s : stats) :
  get_stats t now (Some d) = Ok s -> d <> 0%Z ->
  exists cutoff,
    minus_days now d = Ok cutoff
    /\ total_commands s = length (filter (since cutoff) (commands t))
    /\ base_command_counts s
       = Counter (map base_command (filter (since cutoff) (commands t)))
    /\ (forall e, In e (filter (since cutoff) (commands t))
                  <-> In e (commands t)
                      /\ exists ts,
                           fromisoformat (timestamp e) = Ok (Naive ts)
                           /\ dt_geb ts cutoff = true)
    /\ (forall e, In e (commands t) ->
                  fromisoformat (timestamp e) = Ok (Naive cutoff) ->
                  In e (filter (since cutoff) (commands t)))
    /\ total_commands s <= length (commands t)
    /\ (forall k n, dict_get k (base_command_counts s) = Some n ->
                    n <= occurrences k (map base_command (commands t)))
    /\ (forall e, In e (commands t) ->
                  exists ts, fromisoformat (timestamp e) = Ok (Naive ts))
    /\ full_command_counts s
       = Counter (map command (filter (since cutoff) (commands t)))
    /\ forall k,
         dict_get k (last_used s)
         = option_map (fun ts => isoformat (Naive ts))
                      (latest k None (filter (since cutoff) (commands t))).
Proof.
  intros H Hd. destruct (get_stats_analyzed t now (Some d) s H)
    as (cs & Hs & [[[Hn|Hn] _]|(d' & cutoff & Hd' & _ & Hm & Hp & ->)]);
    [discriminate | congruence |].
  inversion Hd'. subst d'.
  destruct (summarize_fields _ _ s Hs) as (Ht & _ & Hb & _).
  assert (Hin : forall e, In e (filter (since cutoff) (commands t))
                  <-> In e (commands t)
                      /\ exists ts,
                           fromisoformat (timestamp e) = Ok (Naive ts)
                           /\ dt_geb ts cutoff = true).
  { intros e. rewrite filter_In. unfold since.
    destruct (fromisoformat (timestamp e)) as [[ts|ts off]|err].
    - split; [intros [H1 H2]; eauto|].
      intros [H1 (ts' & H2 & H3)]. inversion H2. subst. auto.
    - split; [intros [_ H2]; discriminate|].
      intros [_ (ts' & H2 & _)]. discriminate.
    - split; [intros [_ H2]; discriminate|].
      intros [_ (ts' & H2 & _)]. discriminate. }
  exists cutoff. split; [exact Hm|]. split; [exact Ht|].
  split; [exact Hb|]. split; [exact Hin|].
  split; [|split; [|split; [|split]]].
  - intros e He Hts. apply Hin. split; [exact He|].
    exists cutoff. split; [exact Hts | apply dt_geb_refl].
  - rewrite Ht. apply filter_length_le.
  - intros k n Hk. rewrite Hb, Counter_get in Hk.
    pose proof (occurrences_filter k (since cutoff) (commands t)) as Ho.
    destruct (occurrences k
                (map base_command (filter (since cutoff) (commands t))));
      [discriminate|].
    inversion Hk. subst n. exact Ho.
  - intros e He. rewrite forallb_forall in Hp.
    apply naive_timestamp_true, Hp, He.
  - destruct (summarize_naive _ (Some d)
                (forallb_filter _ _ (since cutoff) _ Hp))
      as (s' & Hs' & _ & _ & _ & Hf & Hl & _).
    rewrite Hs in Hs'. inversion Hs'. subst s'. split; [exact Hf | exact Hl].
Qed.

(** The theorem at the two entries of 28 February and a window of one day
    on 29 February at 13:05: the cutoff is 28 February at 13:05, after
    both. *)
Lemma get_stats_window_witness :
  exists s,
    get_stats (Tracker two_entries None) the_clock (Some 1%Z) = Ok s
    /\ total_commands s = 0.
Proof.
  destruct (get_stats (Tracker two_entries None) the_clock (Some 1%Z))
    as [s|] eqn:Hs; [|vm_compute in Hs; discriminate Hs].
  destruct (get_stats_window (Tracker two_entries None) the_clock 1%Z s Hs)
    as (cutoff & Hm & Ht & _); [discriminate|].
  exists s. split; [reflexivity|].
  rewrite Ht.
  replace (minus_days the_clock 1)
    with (Ok (Datetime 2024 2 28 13 5 9 120)) in Hm
    by (vm_compute; reflexivity).
  inversion Hm. subst cutoff. vm_compute. reflexivity.
Defined.

(* ------------------------------------------------------------------ *)
(** ** More on [search_commands] *)

Lemma group_sizes_set_new (d : dict (list entry)) (k : str)
    (v : list entry) :
  dict_get k d = None ->
  group_sizes (dict_set k v d) = group_sizes d + length v.
Proof.
  unfold group_sizes. induction d as [|[k' v'] r IH]; simpl; [lia|].
  destruct (str_eqb k k'); [discriminate|]. intros H. simpl.
  rewrite (IH H). lia.
Qed.

Lemma group_sizes_set_old (d : dict (list entry)) (k : str)
    (old v : list entry) :
  dict_get k d = Some old ->
  group_sizes (dict_set k v d) + length old = group_sizes d + length v.
Proof.
  unfold group_sizes. induction d as [|[k' v'] r IH]; simpl; [discriminate|].
  destruct (str_eqb k k'); simpl.
  - intros H. inversion H. subst. lia.
  - intros H. specialize (IH H). lia.
Qed.

Lemma group_loop_sizes (matching : list entry)
    (grouped : dict (list entry)) :
  group_sizes
    (fold_left
       (fun grouped cmd =>
          let base := base_command cmd in
          match dict_get base grouped with
          | None => dict_set base [cmd] grouped
          | Some cmds => dict_set base (cmds ++ [cmd]) grouped
          end) matching grouped)
  = group_sizes grouped + length matching.
Proof.
  revert grouped. induction matching as [|c r IH]; intros grouped;
    cbn [fold_left length]; [lia|].
  rewrite IH.
  destruct (dict_get (base_command c) grouped) as [cmds|] eqn:E.
  - pose proof (group_sizes_set_old grouped (base_command c) cmds
                  (cmds ++ [c]) E) as H.
    rewrite length_app in H. cbn [length] in H. lia.
  - rewrite (group_sizes_set_new _ _ [c] E). cbn [length]. lia.
Qed.

Lemma list_sum_Permutation (l l' : list nat) :
  Permutation l l' -> list_sum l = list_sum l'.
Proof.
  induction 1 as [|x l l' _ IH|x y l|l l' l'' _ IH1 _ IH2]; simpl; lia.
Qed.

Lemma search_groups_sizes (t : tracker) (query : str) :
  group_sizes (search_groups t query)
  = length (filter (matches query) (commands t)).
Proof.
  unfold search_groups, group_sizes.
  rewrite (list_sum_Permutation _ _
             (Permutation_map _ (sorted_desc_Permutation _ _ _))).
  pose proof (group_loop_sizes (filter (matches query) (commands t)) [])
    as H.
  unfold group_sizes in H. exact H.
Qed.

(** X9: the numbers of occurrences that [search_commands] prints add up to
    the number of matching entries; the message that nothing was found is
    printed exactly when no entry matches; and the empty query matches
    every entry, so its groups hold the whole history. *)
Theorem search_commands_totals (t : tracker) (query : str) :
  group_sizes (search_groups t query)
  = length (filter (matches query) (commands t))
  /\ (search_commands t query
      = [py "No commands found matching '" ++ query ++ py "'"]
      <-> forall e, In e (commands t) -> matches query e = false)
  /\ group_sizes (search_groups t []) = length (commands t).
Proof.
  split; [apply search_groups_sizes|]. split.
  - unfold search_commands.
    destruct (filter (matches query) (commands t)) as [|e0 l] eqn:E.
    + split; [|reflexivity]. intros _ e He.
      destruct (matches query e) eqn:Em; [|reflexivity].
      assert (Hin : In e (filter (matches query) (commands t)))
        by (apply filter_In; auto).
      rewrite E in Hin. destruct Hin.
    + split.
      * intros H. apply (f_equal (@length str)) in H.
        cbn [length app] in H. discriminate H.
      * intros H. assert (Hin : In e0 (filter (matches query) (commands t)))
          by (rewrite E; left; reflexivity).
        apply filter_In in Hin as [Hin Hm]. rewrite (H e0 Hin) in Hm.
        discriminate.
  - rewrite search_groups_sizes. f_equal.
    apply forallb_filter_id. apply forallb_forall. intros e _.
    unfold matches. cbn [lower map].
    destruct (lower (command e)); reflexivity.
Qed.

Lemma lower_char_idem (c : ascii) : lower_char (lower_char c) = lower_char c.
Proof.
  destruct c as [[] [] [] [] [] [] [] []]; reflexivity.
Qed.

Lemma lower_idem (s : str) : lower (lower s) = lower s.
Proof.
  unfold lower. rewrite map_map. apply map_ext. apply lower_char_idem.
Qed.

(** X10: the groups of a search depend on the query up to letter case only:
    two queries with the same lower-case form find the same groups, and a
    query finds what its lower-case form finds. *)
Theorem search_ignores_query_case (t : tracker) (q q' : str) :
  lower q = lower q' ->
  search_groups t q = search_groups t q'
  /\ search_groups t (lower q) = search_groups t q.
Proof.
  intros H.
  assert (Hm : forall a b, lower a = lower b ->
                           search_groups t a = search_groups t b).
  { intros a b Hab. unfold search_groups. do 2 f_equal.
    apply filter_ext. intros e. unfold matches. rewrite Hab. reflexivity. }
  split; [apply Hm, H | apply Hm, lower_idem].
Qed.

(** The theorem at the queries [GIT] and [git]. *)
Lemma search_ignores_query_case_witness :
  search_groups example_tracker (py "GIT")
  = search_groups example_tracker (py "git").
Proof.
  apply (search_ignores_query_case example_tracker (py "GIT") (py "git")).
  vm_compute. reflexivity.
Defined.

Lemma contains_app (q a b : str) :
  contains q a = true -> contains q (a ++ b) = true.
Proof.
  rewrite !contains_substring. intros (x & y & ->).
  exists x, (y ++ b). rewrite <- !app_assoc. reflexivity.
Qed.

Lemma matches_command_only (query : str) (e : entry) :
  well_formed e ->
  matches query e = contains (lower query) (lower (command e)).
Proof.
  intros (_ & _ & _ & _ & (rest & Hc & _) & _). unfold matches.
  destruct (contains (lower query) (lower (command e))) eqn:E;
    [reflexivity|].
  destruct (contains (lower query) (lower (base_command e))) eqn:Eb;
    [|reflexivity].
  rewrite Hc in E. unfold lower in E. rewrite map_app in E.
  rewrite (contains_app _ _ _ Eb) in E. discriminate.
Qed.

(** X11: on a history that [log_command] built, an entry matches a query
    exactly when its command holds the query (letter case ignored): the
    test on the base command never adds an entry, the base command being
    the start of the command. *)
Theorem search_base_command_redundant (inputs : list (str * datetime))
    (query : str) (e : entry) :
  In e (commands (log_all (Tracker [] None) inputs)) ->
  matches query e = contains (lower query) (lower (command e))
  /\ (contains (lower query) (lower (base_command e)) = true ->
      contains (lower query) (lower (command e)) = true).
Proof.
  intros H. apply In_commands_log_all in H.
  destruct H as [[]|(i & _ & Hi)].
  pose proof (new_entry_well_formed _ _ _ Hi) as Hw.
  pose proof (matches_command_only query e Hw) as Hm.
  split; [exact Hm|].
  intros Hb. rewrite <- Hm. unfold matches. rewrite Hb. apply orb_true_r.
Qed.

(** The theorem at the entry [git add .] of the example and the query
    [GI]. *)
Lemma search_base_command_redundant_witness :
  matches (py "GI")
    (Entry (py "git add .") (py "git") (isoformat (Naive the_clock))
           (py "git add ."))
  = contains (py "gi") (py "git add .").
Proof.
  destruct (search_base_command_redundant
              [(py "git status", the_clock); (py "git add .", the_clock);
               (py "ls", the_clock)]
              (py "GI")
              (Entry (py "git add .") (py "git") (isoformat (Naive the_clock))
                     (py "git add ."))) as [H _].
  - vm_compute. right. left. reflexivity.
  - exact H.
Defined.

(** The theorem at the history of the example and the query [x]. *)
Lemma search_commands_totals_witness :
  search_commands example_tracker (py "x")
  = [py "No commands found matching 'x'"].
Proof.
  destruct (search_commands_totals example_tracker (py "x"))
    as (_ & [_ H] & _).
  apply H. intros e He. vm_compute in He.
  destruct He as [<-|[<-|[<-|[]]]]; vm_compute; reflexivity.
Defined.

(* ------------------------------------------------------------------ *)
(** ** The order of the rows: [sorted(..., reverse=True)] on a counter *)

Lemma insert_desc_filter (A : Type) (key : A -> nat) (n : nat) (x : A)
    (l : list A) :
  filter (fun y => key y =? n) (insert_desc key x l)
  = filter (fun y => key y =? n) (x :: l).
Proof.
  induction l as [|y l IH]; [reflexivity|].
  cbn [insert_desc]. destruct (Nat.ltb_spec (key x) (key y)) as [Hlt|Hge];
    [|reflexivity].
  cbn [filter] in *. rewrite IH.
  destruct (Nat.eqb_spec (key x) n), (Nat.eqb_spec (key y) n);
    try reflexivity. lia.
Qed.

(** The sort is stable: entries with the same key keep their order. *)
Lemma sorted_desc_stable (A : Type) (key : A -> nat) (n : nat)
    (l : list A) :
  filter (fun y => key y =? n) (sorted_desc key l)
  = filter (fun y => key y =? n) l.
Proof.
  induction l as [|x l IH]; [reflexivity|].
  cbn [sorted_desc]. rewrite insert_desc_filter. cbn [filter].
  rewrite IH. reflexivity.
Qed.

Lemma count_elements_keys (c : dict nat) (xs : list str) :
  dict_keys (count_elements c xs) = first_seen_from (dict_keys c) xs.
Proof.
  revert c. induction xs as [|x xs IH]; intros c; [reflexivity|].
  unfold count_elements in *. cbn [fold_left first_seen_from].
  rewrite IH, dict_keys_set.
  destruct (mem_str x (dict_keys c)); reflexivity.
Qed.

Lemma filter_counter_keys (xs : list str) (n : nat) (d : dict nat) :
  (forall k v, In (k, v) d -> v = occurrences k xs) ->
  map fst (filter (fun kv => snd kv =? n) d)
  = filter (fun k => occurrences k xs =? n) (map fst d).
Proof.
  induction d as [|[k v] r IH]; intros H; [reflexivity|].
  cbn [filter map fst snd].
  rewrite (H k v) by (left; reflexivity).
  rewrite <- IH by (intros k' v' Hin; apply H; right; exact Hin).
  destruct (occurrences k xs =? n); reflexivity.
Qed.

(** X12: the order in which a table lists the base commands: by decreasing
    count, each base command once with the number of its occurrences, and
    base commands with the same count in the order in which they first
    occur in the history. *)
Theorem table_order (xs : list str) :
  let items := sorted_desc snd (Counter xs) in
  StronglySorted (key_ge snd) items
  /\ Permutation items (Counter xs)
  /\ NoDup (map fst items)
  /\ (forall k n, In (k, n) items <-> n = occurrences k xs /\ 1 <= n)
  /\ forall n,
       map fst (filter (fun kv => snd kv =? n) items)
       = filter (fun k => occurrences k xs =? n) (first_seen xs).
Proof.
  cbv zeta.
  pose proof (sorted_desc_Permutation _ snd (Counter xs)) as Hp.
  split; [apply sorted_desc_Sorted|]. split; [exact Hp|]. split; [|split].
  - eapply Permutation_NoDup;
      [apply Permutation_sym, Permutation_map, Hp|].
    apply (count_elements_NoDup [] xs). constructor.
  - intros k n. rewrite sorted_desc_In. split.
    + apply Counter_values.
    + intros [-> Hn]. apply dict_get_In. rewrite Counter_get.
      destruct (occurrences k xs); [lia | reflexivity].
  - intros n. rewrite (sorted_desc_stable _ snd n).
    rewrite (filter_counter_keys xs n).
    + fold (dict_keys (Counter xs)). unfold Counter.
      rewrite count_elements_keys. reflexivity.
    + intros k v Hin. apply (Counter_values _ _ _ Hin).
Qed.

(** X13: the CSV export is the header line followed by one line for each base
    command of the history, in the order of the table; for an empty history
    it is the header line alone. *)
Theorem export_csv_rows (t : tracker) (now : datetime) (out : str) :
  export_stats t now (py "csv") = Ok out ->
  exists s,
    get_stats t now None = Ok s
    /\ out = join [newline] (csv_lines s)
    /\ csv_lines s
       = py "Command,Count,Percentage,Last Used"
         :: map (csv_row s)
                (sorted_desc snd
                   (Counter (map base_command (commands t))))
    /\ length (csv_lines s) = 1 + unique_base_commands s
    /\ (commands t = [] -> out = py "Command,Count,Percentage,Last Used").
Proof.
  unfold export_stats. intros H.
  destruct (get_stats t now None) as [s|] eqn:Hs; [|discriminate].
  cbn [bind] in H.
  change (str_eqb (py "csv") (py "json")) with false in H.
  change (str_eqb (py "csv") (py "csv")) with true in H.
  cbv iota in H. inversion H. clear H.
  destruct (get_stats_all_time t now s Hs) as [Hb _].
  destruct (get_stats_analyzed t now None s Hs) as (cs & Hsum & _).
  destruct (summarize_fields cs None s Hsum) as (_ & Hu & _).
  exists s. split; [reflexivity|]. split; [reflexivity|].
  split; [unfold csv_lines; rewrite Hb; reflexivity|]. split.
  - unfold csv_lines. cbn [length]. rewrite length_map.
    rewrite (Permutation_length (sorted_desc_Permutation _ _ _)).
    rewrite Hu. reflexivity.
  - intros He. unfold csv_lines. rewrite Hb, He. reflexivity.
Qed.

(** The theorem at the history of the example. *)
Lemma export_csv_rows_witness :
  exists s,
    get_stats example_tracker the_clock None = Ok s
    /\ length (csv_lines s) = 1 + unique_base_commands s.
Proof.
  destruct (export_stats example_tracker the_clock (py "csv"))
    as [out|] eqn:Ho; [|vm_compute in Ho; discriminate Ho].
  destruct (export_csv_rows example_tracker the_clock out Ho)
    as (s & Hs & _ & _ & Hl & _).
  exists s. split; [exact Hs | exact Hl].
Defined.

(* ------------------------------------------------------------------ *)
(** ** The file: its characters, and a file with no document *)

Lemma hex_digit_printable (n : N) : printable (hex_digit n) = true.
Proof.
  unfold hex_digit. generalize (N.to_nat n) as k. intros k.
  do 16 (destruct k as [|k]; [reflexivity|]). destruct k; reflexivity.
Qed.

Lemma escape_char_printable (c : N) :
  forallb printable (escape_char c) = true.
Proof.
  unfold escape_char.
  repeat match goal with
         | |- context [(c =? ?k)%N] => destruct (c =? k)%N; [reflexivity|]
         end.
  destruct ((32 <=? c) && (c <=? 126))%N eqn:Ep.
  { apply andb_true_iff in Ep as [E1 E2]. apply N.leb_le in E1, E2.
    cbn [forallb]. unfold printable. rewrite ord_chr by lia.
    rewrite andb_true_r. apply orb_true_iff. right.
    apply andb_true_iff. split; apply Nat.leb_le; lia. }
  destruct (c <? 65536)%N; unfold hex4_text; cbn [app forallb];
    rewrite !hex_digit_printable; reflexivity.
Qed.

Lemma flat_map_escape_printable (s : ustr) :
  forallb printable (flat_map escape_char s) = true.
Proof.
  induction s as [|c s IH]; [reflexivity|].
  cbn [flat_map]. rewrite forallb_app, escape_char_printable, IH.
  reflexivity.
Qed.

Lemma newline_indent_printable (level : nat) :
  forallb printable (newline_indent level) = true.
Proof.
  unfold newline_indent. cbn [forallb].
  change (printable newline) with true. cbn [andb].
  induction (2 * level) as [|n IH]; [reflexivity | exact IH].
Qed.

Lemma entry_printable (level : nat) (e : Unicode.entry) :
  forallb printable (encode level (Unicode.entry_to_json e)) = true.
Proof.
  rewrite <- (app_nil_r (encode level (Unicode.entry_to_json e))),
    entry_text.
  repeat (cbn [forallb];
          rewrite ?forallb_app, ?flat_map_escape_printable,
            ?newline_indent_printable;
          change (printable quote) with true;
          change (printable "{") with true;
          change (printable "}") with true;
          change (printable ":") with true;
          change (printable " ") with true;
          change (printable ",") with true;
          cbn [andb]).
  reflexivity.
Qed.

Lemma encode_items_printable (level : nat) (es : list entry) :
  forallb printable (encode_items level (map entry_to_json es)) = true.
Proof.
  induction es as [|e es IH]; [reflexivity|].
  cbn [map encode_items]. change (py ",") with [","%char].
  rewrite !forallb_app, newline_indent_printable, IH.
  rewrite entry_to_json_widen, entry_printable. reflexivity.
Qed.

(** X14: the text [save_commands] writes holds line feeds and printable ASCII
    characters only, whatever characters the logged lines held. *)
Theorem file_is_ascii (t : tracker) (text : str) :
  commands_file (save_commands t) = Some text ->
  forallb printable text = true.
Proof.
  unfold save_commands, save_commands_io. cbn [commands_file].
  intros H. inversion H. clear H. unfold dumps, commands_to_json.
  destruct (commands t) as [|e es]; [reflexivity|].
  cbn [map]. rewrite encode_array. cbn [forallb].
  rewrite !forallb_app, newline_indent_printable, encode_items_printable,
    newline_indent_printable.
  rewrite entry_to_json_widen, entry_printable. reflexivity.
Qed.

(** The theorem at the history of the example. *)
Lemma file_is_ascii_witness :
  forallb printable (dumps (commands_to_json (commands example_tracker)))
  = true.
Proof.
  apply (file_is_ascii example_tracker). reflexivity.
Defined.

Lemma skip_ws_blank (s : str) : forallb is_json_ws s = true -> skip_ws s = [].
Proof.
  induction s as [|c s IH]; [reflexivity|]. cbn [forallb skip_ws].
  intros H. apply andb_true_iff in H as [-> H]. apply IH, H.
Qed.

(** X15: a tracker cannot be made on a file that is empty or holds only
    spaces, tabs and line ends: [json.load] raises, and the error is not
    caught; where there is no file the history starts empty. *)
Theorem init_blank_file (text : str) :
  forallb is_json_ws text = true ->
  init (Some text) = Err JSONDecodeError
  /\ init None = Ok (Tracker [] None).
Proof.
  intros H. split; [|reflexivity].
  unfold init, load_commands, loads. cbn [commands_file].
  rewrite (skip_ws_blank text H).
  replace (3 * length text + 3) with (S (3 * length text + 2)) by lia.
  reflexivity.
Qed.

(** The theorem at a file that holds a line feed. *)
Lemma init_blank_file_witness : init (Some [newline]) = Err JSONDecodeError.
Proof.
  destruct (init_blank_file [newline]) as [H _]; [reflexivity | exact H].
Defined.

(** X16: the stripped line that an entry keeps yields the same entry when it
    is logged again at the same clock reading, so a history can be rebuilt
    from the [full_command] fields. *)
Theorem replay_full_command (line : str) (now : datetime) (e : entry) :
  new_entry line now = Some e ->
  new_entry (full_command e) now = Some e
  /\ forall t, log_command t (full_command e) now = log_command t line now.
Proof.
  intros He.
  destruct (timestamp_is_isoformat line now e He) as [_ Hf].
  assert (Hn : new_entry (strip line) now = new_entry line now)
    by (unfold new_entry; rewrite strip_idem; reflexivity).
  rewrite Hf. split; [rewrite Hn; exact He|].
  intros t. unfold log_command. rewrite !log_command_io_eq, Hn.
  reflexivity.
Qed.

(** The theorem at the line [ 42  ls -la ]. *)
Lemma replay_full_command_witness :
  new_entry (py "42  ls -la") the_clock
  = Some (Entry (py "ls -la") (py "ls") (isoformat (Naive the_clock))
                (py "42  ls -la")).
Proof.
  assert (He : new_entry (py " 42  ls -la ") the_clock
               = Some (Entry (py "ls -la") (py "ls")
                             (isoformat (Naive the_clock))
                             (py "42  ls -la")))
    by (vm_compute; reflexivity).
  destruct (replay_full_command _ _ _ He) as [H _]. exact H.
Defined.

(* ------------------------------------------------------------------ *)
(** ** [show_top] and [show_stats] *)

Lemma length_enumerate (A : Type) (l : list A) (i : nat) :
  length (enumerate i l) = length l.
Proof.
  revert i. induction l as [|x l IH]; intros i; [reflexivity|].
  cbn [enumerate length]. rewrite IH. reflexivity.
Qed.

Lemma enumerate_ranks (A : Type) (l : list A) (i : nat) :
  map fst (enumerate i l) = seq i (length l).
Proof.
  revert i. induction l as [|x l IH]; intros i; [reflexivity|].
  cbn [enumerate map length seq fst]. rewrite IH. reflexivity.
Qed.

Lemma length_slice_to (A : Type) (n : Z) (l : list A) :
  length (slice_to n l)
  = if (0 <=? n)%Z then Nat.min (Z.to_nat n) (length l)
    else length l - Z.to_nat (- n).
Proof.
  unfold slice_to. destruct (0 <=? n)%Z; rewrite length_firstn; lia.
Qed.

Lemma get_stats_unique (t : tracker) (now : datetime) (days : option Z)
    (s : stats) :
  get_stats t now days = Ok s ->
  length (sorted_desc snd (base_command_counts s)) = unique_base_commands s.
Proof.
  intros H. destruct (get_stats_analyzed t now days s H) as (cs & Hs & _).
  destruct (summarize_fields cs days s Hs) as (_ & Hu & _).
  rewrite (Permutation_length (sorted_desc_Permutation _ _ _)).
  symmetry. exact Hu.
Qed.


(** What [last_used] holds for a base command of the table. *)
Lemma last_used_of_counted (t : tracker) (now : datetime)
    (days : option Z) (s : stats) (cmd : str) (n : nat) :
  get_stats t now days = Ok s ->
  In (cmd, n) (base_command_counts s) ->
  exists e ts,
    In e (commands t) /\ fromisoformat (timestamp e) = Ok ts
    /\ dict_get cmd (last_used s) = Some (isoformat ts).
Proof.
  intros H Hin.
  destruct (get_stats_analyzed t now days s H) as (cs & Hs & Hcs).
  destruct (summarize_fields cs days s Hs)
    as (_ & _ & Hb & _ & _ & last & Hl & Hlu).
  assert (Hnil : forall k m, dict_get k (@nil (str * moment)) = Some m ->
                             valid_moment m = true)
    by (intros k m E; discriminate E).
  pose proof (last_used_loop_max cs [] last Hnil Hl cmd) as Hmax.
  rewrite Hb in Hin. destruct (Counter_values _ _ _ Hin) as [Hn H1].
  rewrite Hlu, dict_get_map_values.
  destruct (dict_get cmd last) as [m|].
  - destruct Hmax as (_ & [E|(e & He & _ & Hte)] & _); [discriminate E|].
    exists e, m. split; [|split; [exact Hte | reflexivity]].
    destruct Hcs as [[_ ->]|(d' & cutoff & _ & _ & _ & _ & ->)];
      [exact He|].
    apply filter_In in He. apply He.
  - destruct Hmax as [_ Hno].
    rewrite (occurrences_none cmd cs Hno) in Hn. lia.
Qed.

Lemma last_str_of_counted (t : tracker) (now : datetime)
    (days : option Z) (s : stats) (cmd : str) (n : nat) :
  get_stats t now days = Ok s ->
  In (cmd, n) (base_command_counts s) ->
  exists e ts,
    In e (commands t) /\ fromisoformat (timestamp e) = Ok ts
    /\ last_str s cmd = strftime_minutes (fields ts).
Proof.
  intros H Hin.
  destruct (last_used_of_counted t now days s cmd n H Hin)
    as (e & ts & He & Hts & Hg).
  exists e, ts. split; [exact He|]. split; [exact Hts|].
  pose proof (fromisoformat_valid _ _ Hts) as Hv.
  destruct (isoformat_nonempty ts Hv) as (c & l & Hi).
  unfold last_str. rewrite Hg, Hi, <- Hi.
  rewrite (fromisoformat_isoformat ts Hv). reflexivity.
Qed.

Lemma length_stats_rows (s : stats) (rows : list (nat * (str * nat)))
    (lines : list str) :
  stats_rows s rows = Ok lines -> length lines = length rows.
Proof.
  revert lines. induction rows as [|row rows IH]; intros lines;
    cbn [stats_rows].
  - intros H. inversion H. reflexivity.
  - destruct (stats_row s row); [|discriminate]. cbn [bind].
    destruct (stats_rows s rows) as [ls|]; [|discriminate]. cbn [bind].
    intros H. inversion H. cbn [length]. rewrite (IH ls eq_refl).
    reflexivity.
Qed.

Lemma stats_rows_Ok (s : stats) (rows : list (nat * (str * nat))) :
  (forall row, In row rows -> exists l, last_str s (fst (snd row)) = Ok l) ->
  exists lines, stats_rows s rows = Ok lines.
Proof.
  induction rows as [|row rows IH]; intros H; cbn [stats_rows]; [eauto|].
  destruct (H row) as [l Hl]; [left; reflexivity|].
  destruct IH as [ls Hls]; [intros r Hr; apply H; right; exact Hr|].
  unfold stats_row. rewrite Hl. cbn [bind]. rewrite Hls. cbn [bind]. eauto.
Qed.

Lemma In_firstn_In (cmd : str) (n : nat) (k : nat)
    (l : list (str * nat)) :
  In (cmd, n) (firstn k l) -> In (cmd, n) l.
Proof.
  intros H. rewrite <- (firstn_skipn k l). apply in_or_app. left. exact H.
Qed.

Lemma In_enumerate (A : Type) (l : list A) (i j : nat) (x : A) :
  In (j, x) (enumerate i l) -> In x l.
Proof.
  revert i. induction l as [|y l IH]; intros i; cbn [enumerate]; [tauto|].
  intros [H|H]; [inversion H; left; reflexivity | right; apply (IH _ H)].
Qed.




(** The theorem at the base commands of the example. *)
Lemma table_order_witness :
  StronglySorted (key_ge snd)
    (sorted_desc snd (Counter [py "ls"; py "git"; py "git"]))
  /\ map fst (filter (fun kv => snd kv =? 1)
                (sorted_desc snd
                   (Counter [py "ls"; py "git"; py "git"; py "cd"])))
     = [py "ls"; py "cd"].
Proof.
  destruct (table_order [py "ls"; py "git"; py "git"]) as (Hs & _).
  destruct (table_order [py "ls"; py "git"; py "git"; py "cd"])
    as (_ & _ & _ & _ & Ht).
  split; [exact Hs|]. rewrite (Ht 1). vm_compute. reflexivity.
Defined.

(* ------------------------------------------------------------------ *)
(** ** After a write that failed *)



(* ------------------------------------------------------------------ *)
(** ** A file that was cut short *)

Lemma skip_ws_ext (s q : str) (c : ascii) (r : str) :
  skip_ws s = c :: r -> skip_ws (s ++ q) = c :: r ++ q.
Proof.
  induction s as [|x s IH]; cbn [skip_ws app]; [discriminate|].
  destruct (is_json_ws x); [exact IH|].
  intros H. inversion H. reflexivity.
Qed.

Lemma ord_eqb_eq (c : ascii) (n : nat) :
  n < 256 -> (ord c =? n) = true -> c = chr n.
Proof.
  intros Hn H. apply Nat.eqb_eq in H. apply ord_inj.
  rewrite ord_chr by exact Hn. exact H.
Qed.

(** A high surrogate with the escape of a low surrogate after it. *)
Lemma scanstring_u_join (h1 h2 h3 h4 : ascii) (x : str) (k : N) :
  hex4 h1 h2 h3 h4 = Some k ->
  is_high_surrogate k = true -> low_escape_ahead x = true ->
  exists g1 g2 g3 g4 r3,
    x = backslash :: "u"%char :: g1 :: g2 :: g3 :: g4 :: r3
    /\ scanstring (backslash :: "u"%char :: h1 :: h2 :: h3 :: h4 :: x)
       = match hex4 g1 g2 g3 g4 with
         | None => Err JSONDecodeError
         | Some n2 =>
             '(y, rest) <- scanstring r3;;
             Ok (join_surrogates k n2 :: y, rest)
         end.
Proof.
  intros Hk Hh Hx.
  destruct x as [|b [|u x2]]; cbn [low_escape_ahead] in Hx;
    try discriminate Hx;
    [rewrite andb_false_r in Hx; discriminate Hx|].
  apply andb_true_iff in Hx as [Hb Hx].
  apply andb_true_iff in Hx as [Hu Hx].
  apply (ord_eqb_eq b 92) in Hb; [|lia].
  apply (ord_eqb_eq u 117) in Hu; [|lia]. subst b u.
  destruct x2 as [|g1 [|g2 [|g3 [|g4 r3]]]]; try discriminate Hx.
  exists g1, g2, g3, g4, r3. split; [reflexivity|].
  change (chr 92) with backslash. change (chr 117) with "u"%char.
  destruct (hex4 g1 g2 g3 g4) as [n2|] eqn:Hg.
  - apply (scanstring_pair _ _ _ _ _ _ _ _ _ _ _ Hk Hg Hh Hx).
  - change (scanstring (backslash :: "u"%char :: h1 :: h2 :: h3 :: h4
                        :: backslash :: "u"%char :: g1 :: g2 :: g3 :: g4
                        :: r3))
      with (match hex4 h1 h2 h3 h4 with
            | None => Err JSONDecodeError
            | Some n =>
                if is_high_surrogate n && true && true
                then
                  match hex4 g1 g2 g3 g4 with
                  | None => Err JSONDecodeError
                  | Some n2 =>
                      if is_low_surrogate n2
                      then '(y, rest) <- scanstring r3;;
                           Ok (join_surrogates n n2 :: y, rest)
                      else '(y, rest) <-
                             scanstring (backslash :: "u"%char :: g1 :: g2
                                         :: g3 :: g4 :: r3);;
                           Ok (n :: y, rest)
                  end
                else '(y, rest) <-
                       scanstring (backslash :: "u"%char :: g1 :: g2 :: g3
                                   :: g4 :: r3);;
                     Ok (n :: y, rest)
            end).
    rewrite Hk, Hh, Hg. reflexivity.
Qed.

(** Text after a string literal does not change what its first escape
    is. *)
Lemma low_escape_ahead_ext (x q : str) (y : ustr) (r : str) :
  scanstring x = Ok (y, r) ->
  low_escape_ahead (x ++ q) = low_escape_ahead x.
Proof.
  intros H.
  destruct x as [|b x1]; [discriminate H|].
  cbn [app low_escape_ahead].
  destruct (ord b =? 92) eqn:Hb; [|reflexivity]. cbn [andb].
  apply (ord_eqb_eq b 92) in Hb; [|lia]. subst b.
  destruct x1 as [|u x2]; [discriminate H|].
  cbn [app].
  destruct (ord u =? 117) eqn:Hu; [|reflexivity]. cbn [andb].
  apply (ord_eqb_eq u 117) in Hu; [|lia]. subst u.
  destruct x2 as [|g1 [|g2 [|g3 [|g4 x3]]]]; try discriminate H.
  reflexivity.
Qed.

Lemma scanstring_ext (n : nat) (s q : str) (x : ustr) (r : str) :
  length s <= n ->
  scanstring s = Ok (x, r) -> scanstring (s ++ q) = Ok (x, r ++ q).
Proof.
  revert s x r. induction n as [|n IH]; intros s x r Hn.
  - destruct s; [discriminate | simpl in Hn; lia].
  - destruct s as [|c s]; [discriminate|]. cbn [length] in Hn.
    destruct (ord c =? 34) eqn:Hq.
    { cbn [scanstring app]. rewrite Hq.
      intros H. inversion H. reflexivity. }
    destruct (ord c =? 92) eqn:Hc.
    + apply (ord_eqb_eq c 92) in Hc; [|lia]. subst c.
      change (chr 92) with backslash.
      destruct s as [|e s]; [discriminate|]. cbn [length app] in *.
      destruct (ord e =? 117) eqn:He.
      * apply (ord_eqb_eq e 117) in He; [|lia]. subst e.
        change (chr 117) with "u"%char.
        destruct s as [|h1 [|h2 [|h3 [|h4 s]]]]; try discriminate.
        cbn [length app] in *.
        destruct (hex4 h1 h2 h3 h4) as [k|] eqn:Hk;
          [|rewrite scanstring_u_eq, Hk; discriminate].
        destruct (is_high_surrogate k && low_escape_ahead s) eqn:Hj.
        -- apply andb_true_iff in Hj as [Hh Hl].
           destruct (scanstring_u_join h1 h2 h3 h4 s k Hk Hh Hl)
             as (g1 & g2 & g3 & g4 & r3 & -> & Hs).
           rewrite Hs. cbn [app].
           destruct (hex4 g1 g2 g3 g4) as [n2|] eqn:Hg; [|discriminate].
           assert (Hlo : is_low_surrogate n2 = true).
           { change (low_escape_ahead (backslash :: "u"%char :: g1 :: g2
                                       :: g3 :: g4 :: r3))
               with (match hex4 g1 g2 g3 g4 with
                     | Some n => is_low_surrogate n
                     | None => true
                     end) in Hl.
             rewrite Hg in Hl. exact Hl. }
           rewrite (scanstring_pair _ _ _ _ _ _ _ _ _ _ _ Hk Hg Hh Hlo).
           destruct (scanstring r3) as [[x' r']|] eqn:E; [|discriminate].
           cbn [length] in Hn.
           rewrite (IH r3 x' r' ltac:(lia) E).
           cbn [bind]. intros H. inversion H. reflexivity.
        -- assert (Hno : is_high_surrogate k = true ->
                           low_escape_ahead s = false).
           { intros Hh. rewrite Hh in Hj. exact Hj. }
           rewrite (scanstring_u _ _ _ _ _ _ Hk Hno).
           destruct (scanstring s) as [[x' r']|] eqn:E; [|discriminate].
           rewrite (scanstring_u _ _ _ _ (s ++ q) _ Hk).
           ++ rewrite (IH s x' r' ltac:(lia) E).
              cbn [bind]. intros H. inversion H. reflexivity.
           ++ intros Hh. rewrite (low_escape_ahead_ext _ _ _ _ E).
              apply Hno, Hh.
      * cbn [scanstring]. change (ord backslash =? 34) with false.
        change (ord backslash =? 92) with true. cbv iota. rewrite He.
        destruct (unescape e); [|discriminate].
        destruct (scanstring s) as [[x' r']|] eqn:E; [|discriminate].
        rewrite (IH s x' r' ltac:(lia) E).
        cbn [bind]. intros H. inversion H. reflexivity.
    + cbn [scanstring app]. rewrite Hq, Hc.
      destruct (ord c <? 32); [discriminate|].
      destruct (scanstring s) as [[x' r']|] eqn:E; [|discriminate].
      rewrite (IH s x' r' ltac:(lia) E).
      cbn [bind]. intros H. inversion H. reflexivity.
Qed.

Lemma scan_once_eq (fuel' : nat) (s : str) :
  scan_once (S fuel') s =
  match s with
  | [] => Err JSONDecodeError
  | c :: r =>
      if ord c =? 34 then '(x, r') <- scanstring r;; Ok (JStr x, r')
      else if ord c =? 123 then JSONObject fuel' r
      else if ord c =? 91 then JSONArray fuel' r
      else if startswith (py "null") s then Ok (JNull, skipn 4 s)
      else if startswith (py "true") s then Ok (JBool true, skipn 4 s)
      else if startswith (py "false") s then Ok (JBool false, skipn 5 s)
      else if is_digit c || (ord c =? 45) || startswith (py "NaN") s
              || startswith (py "Infinity") s
      then Err Unmodelled
      else Err JSONDecodeError
  end.
Proof. destruct s; reflexivity. Qed.

Lemma JSONArray_eq (fuel' : nat) (s : str) :
  JSONArray (S fuel') s =
  match skip_ws s with
  | [] => Err JSONDecodeError
  | c :: r =>
      if ord c =? 93 then Ok (JArr [], r)
      else '(vs, r') <- array_items fuel' (c :: r);; Ok (JArr vs, r')
  end.
Proof. reflexivity. Qed.

Lemma JSONObject_eq (fuel' : nat) (s : str) :
  JSONObject (S fuel') s =
  match skip_ws s with
  | [] => Err JSONDecodeError
  | c :: r =>
      if ord c =? 125 then Ok (JObj [], r)
      else if ord c =? 34
      then '(ms, r') <- object_members fuel' r;; Ok (JObj ms, r')
      else Err JSONDecodeError
  end.
Proof. reflexivity. Qed.

Lemma scan_once_nil (f : nat) (v : json) (r : str) :
  scan_once f [] <> Ok (v, r).
Proof. destruct f; discriminate. Qed.

Lemma array_items_nil (f : nat) (vs : list json) (r : str) :
  array_items f [] <> Ok (vs, r).
Proof.
  destruct f as [|f]; [discriminate|]. rewrite array_items_eq.
  destruct f; discriminate.
Qed.

Lemma startswith_app (p s q : str) :
  startswith p s = true -> startswith p (s ++ q) = true.
Proof.
  rewrite !startswith_prefix. intros [b ->]. exists (b ++ q).
  rewrite app_assoc. reflexivity.
Qed.

(** A literal that the scanner has read is read again when text follows. *)
Lemma scan_literal_ext (f f' : nat) (c : ascii) (s q : str) (v : json)
    (r : str) :
  (ord c =? 34) = false -> (ord c =? 123) = false ->
  (ord c =? 91) = false ->
  scan_once (S f) (c :: s) = Ok (v, r) ->
  scan_once (S f') (c :: s ++ q) = Ok (v, r ++ q).
Proof.
  intros H1 H2 H3. rewrite !scan_once_eq, H1, H2, H3.
  destruct (startswith (py "null") (c :: s)) eqn:En.
  { apply startswith_prefix in En as [b Hb]. inversion Hb. subst.
    intros H. inversion H. reflexivity. }
  destruct (startswith (py "true") (c :: s)) eqn:Et.
  { apply startswith_prefix in Et as [b Hb]. inversion Hb. subst.
    intros H. inversion H. reflexivity. }
  destruct (startswith (py "false") (c :: s)) eqn:Ef.
  { apply startswith_prefix in Ef as [b Hb]. inversion Hb. subst.
    intros H. inversion H. reflexivity. }
  destruct (is_digit c || (ord c =? 45) || startswith (py "NaN") (c :: s)
            || startswith (py "Infinity") (c :: s)); discriminate.
Qed.

(** What the scanner has read with some fuel it reads with more fuel and
    with more text after it. *)
Lemma scanner_ext (f : nat) :
  (forall s v r, scan_once f s = Ok (v, r) ->
     forall f' q, f <= f' -> scan_once f' (s ++ q) = Ok (v, r ++ q))
  /\ (forall s v r, JSONArray f s = Ok (v, r) ->
        forall f' q, f <= f' -> JSONArray f' (s ++ q) = Ok (v, r ++ q))
  /\ (forall s vs r, array_items f s = Ok (vs, r) ->
        forall f' q, f <= f' -> array_items f' (s ++ q) = Ok (vs, r ++ q))
  /\ (forall s v r, JSONObject f s = Ok (v, r) ->
        forall f' q, f <= f' -> JSONObject f' (s ++ q) = Ok (v, r ++ q))
  /\ (forall s ms r, object_members f s = Ok (ms, r) ->
        forall f' q, f <= f' ->
        object_members f' (s ++ q) = Ok (ms, r ++ q)).
Proof.
  induction f as [|f (IHv & IHa & IHi & IHo & IHm)].
  { repeat split; intros; discriminate. }
  split; [|split; [|split; [|split]]].
  - (* scan_once *)
    intros s v r H f' q Hf. destruct f' as [|f']; [lia|].
    assert (Hf' : f <= f') by lia.
    destruct s as [|c s]; [discriminate|]. cbn [app].
    destruct (ord c =? 34) eqn:E1.
    { rewrite scan_once_eq, E1 in *.
      destruct (scanstring s) as [[x r']|] eqn:E; [|discriminate].
      rewrite (scanstring_ext (length s) s q x r' (Nat.le_refl _) E).
      cbn [bind] in *. inversion H. reflexivity. }
    destruct (ord c =? 123) eqn:E2.
    { rewrite scan_once_eq, E1, E2 in *. apply IHo; assumption. }
    destruct (ord c =? 91) eqn:E3.
    { rewrite scan_once_eq, E1, E2, E3 in *. apply IHa; assumption. }
    apply (scan_literal_ext f f' c s q v r E1 E2 E3 H).
  - (* JSONArray *)
    intros s v r H f' q Hf. destruct f' as [|f']; [lia|].
    assert (Hf' : f <= f') by lia.
    rewrite JSONArray_eq in *.
    destruct (skip_ws s) as [|c s'] eqn:E; [discriminate|].
    rewrite (skip_ws_ext s q c s' E).
    destruct (ord c =? 93).
    { inversion H. reflexivity. }
    destruct (array_items f (c :: s')) as [[vs r']|] eqn:Ei; [|discriminate].
    cbn [bind] in H. inversion H. subst.
    change (c :: s' ++ q) with ((c :: s') ++ q).
    rewrite (IHi _ _ _ Ei f' q Hf'). reflexivity.
  - (* array_items *)
    intros s vs r H f' q Hf. destruct f' as [|f']; [lia|].
    assert (Hf' : f <= f') by lia.
    rewrite array_items_eq in *.
    destruct (scan_once f s) as [[v r0]|] eqn:Ev; [|discriminate].
    rewrite (IHv _ _ _ Ev f' q Hf'). cbn [bind] in *.
    destruct (skip_ws r0) as [|c r1] eqn:E; [discriminate|].
    rewrite (skip_ws_ext r0 q c r1 E).
    destruct (ord c =? 93).
    { inversion H. reflexivity. }
    destruct (ord c =? 44); [|discriminate].
    destruct (array_items f (skip_ws r1)) as [[vs' r2]|] eqn:Ei;
      [|discriminate].
    cbn [bind] in H. inversion H. subst.
    destruct (skip_ws r1) as [|c' r1'] eqn:E1;
      [exfalso; apply (array_items_nil _ _ _ Ei)|].
    rewrite (skip_ws_ext r1 q c' r1' E1).
    change (c' :: r1' ++ q) with ((c' :: r1') ++ q).
    rewrite (IHi _ _ _ Ei f' q Hf'). reflexivity.
  - (* JSONObject *)
    intros s v r H f' q Hf. destruct f' as [|f']; [lia|].
    assert (Hf' : f <= f') by lia.
    rewrite JSONObject_eq in *.
    destruct (skip_ws s) as [|c s'] eqn:E; [discriminate|].
    rewrite (skip_ws_ext s q c s' E).
    destruct (ord c =? 125).
    { inversion H. reflexivity. }
    destruct (ord c =? 34); [|discriminate].
    destruct (object_members f s') as [[ms r']|] eqn:Em; [|discriminate].
    cbn [bind] in H. inversion H. subst.
    rewrite (IHm _ _ _ Em f' q Hf'). reflexivity.
  - (* object_members *)
    intros s ms r H f' q Hf. destruct f' as [|f']; [lia|].
    assert (Hf' : f <= f') by lia.
    rewrite object_members_eq in *.
    destruct (scanstring s) as [[k r0]|] eqn:Ek; [|discriminate].
    rewrite (scanstring_ext (length s) s q k r0 (Nat.le_refl _) Ek).
    cbn [bind] in *.
    destruct (skip_ws r0) as [|c r1] eqn:E; [discriminate|].
    rewrite (skip_ws_ext r0 q c r1 E).
    destruct (ord c =? 58); [|discriminate].
    destruct (scan_once f (skip_ws r1)) as [[v r2]|] eqn:Ev; [|discriminate].
    destruct (skip_ws r1) as [|c1 r1'] eqn:E1;
      [exfalso; apply (scan_once_nil _ _ _ Ev)|].
    rewrite (skip_ws_ext r1 q c1 r1' E1).
    change (c1 :: r1' ++ q) with ((c1 :: r1') ++ q).
    rewrite (IHv _ _ _ Ev f' q Hf'). cbn [bind] in *.
    destruct (skip_ws r2) as [|c2 r3] eqn:E2; [discriminate|].
    rewrite (skip_ws_ext r2 q c2 r3 E2).
    destruct (ord c2 =? 125).
    { inversion H. reflexivity. }
    destruct (ord c2 =? 44); [|discriminate].
    destruct (skip_ws r3) as [|c3 r4] eqn:E3; [discriminate|].
    rewrite (skip_ws_ext r3 q c3 r4 E3).
    destruct (ord c3 =? 34); [|discriminate].
    destruct (object_members f r4) as [[ms' r5]|] eqn:Em; [|discriminate].
    cbn [bind] in H. inversion H. subst.
    rewrite (IHm _ _ _ Em f' q Hf'). reflexivity.
Qed.

Lemma skip_ws_all (r : str) : skip_ws r = [] -> forallb is_json_ws r = true.
Proof.
  induction r as [|c r IH]; [reflexivity|]. cbn [skip_ws forallb].
  destruct (is_json_ws c); [exact IH|discriminate].
Qed.

Lemma skip_ws_app_blank (r q : str) :
  skip_ws r = [] -> skip_ws (r ++ q) = skip_ws q.
Proof.
  induction r as [|c r IH]; [reflexivity|]. cbn [skip_ws app].
  destruct (is_json_ws c); [exact IH|discriminate].
Qed.

(** The text of a history ends with the closing bracket. *)
Lemma dumps_commands_end (cs : list entry) :
  exists body, dumps (commands_to_json cs) = body ++ ["]"%char].
Proof.
  unfold dumps, commands_to_json. destruct cs as [|e es].
  - exists ["["%char]. reflexivity.
  - cbn [map]. rewrite encode_array.
    exists ("["%char :: newline_indent 1 ++ encode 1 (entry_to_json e)
            ++ encode_items 1 (map entry_to_json es) ++ newline_indent 0).
    cbn [app]. rewrite <- !app_assoc. reflexivity.
Qed.

(** A text that stops before the end of a saved history is not a
    document. *)
Lemma loads_truncated (cs : list entry) (n : nat) (v : json) :
  n < length (dumps (commands_to_json cs)) ->
  loads (firstn n (dumps (commands_to_json cs))) <> Ok v.
Proof.
  intros Hn Hl.
  pose proof (loads_dumps_commands cs) as Hfull.
  destruct (dumps_commands_end cs) as [body Hb].
  set (text := dumps (commands_to_json cs)) in *.
  set (p := firstn n text) in *.
  assert (Hq : exists q', skipn n text = q' ++ ["]"%char]).
  { rewrite Hb, skipn_app. rewrite Hb, length_app in Hn. cbn [length] in Hn.
    replace (n - length body) with 0 by lia. exists (skipn n body).
    reflexivity. }
  destruct Hq as [q' Hq].
  assert (Htext : text = p ++ q' ++ ["]"%char]).
  { rewrite <- Hq. unfold p. symmetry. apply firstn_skipn. }
  unfold loads in Hl.
  destruct (scan_once (3 * length p + 3) (skip_ws p)) as [[v' r]|] eqn:Es;
    [|discriminate].
  cbn [bind] in Hl.
  destruct (skip_ws r) eqn:Er; [|discriminate].
  destruct (skip_ws p) as [|c p'] eqn:Ep;
    [exact (scan_once_nil _ _ _ Es)|].
  destruct (scanner_ext (3 * length p + 3)) as [Hext _].
  assert (Hlen : 3 * length p + 3 <= 3 * length text + 3).
  { rewrite Htext, length_app. lia. }
  pose proof (Hext _ _ _ Es (3 * length text + 3) (q' ++ ["]"%char]) Hlen)
    as Hs.
  unfold loads in Hfull. rewrite Htext in Hfull at 2.
  rewrite (skip_ws_ext p (q' ++ ["]"%char]) c p' Ep) in Hfull.
  cbn [app] in Hs. rewrite Hs in Hfull. cbn [bind] in Hfull.
  rewrite (skip_ws_app_blank r (q' ++ ["]"%char]) Er) in Hfull.
  destruct (skip_ws (q' ++ ["]"%char])) eqn:Eq; [|discriminate].
  apply skip_ws_all in Eq. rewrite forallb_app in Eq.
  cbn in Eq. rewrite andb_false_r in Eq. discriminate.
Qed.

(** X20: a write that stops before the whole text has reached the file
    leaves a file that the next start of the tracker does not accept:
    [json.load] raises in [load_commands], for every history and every
    place where the write stopped. *)
Theorem truncated_file_rejected (t : tracker) (n : nat) :
  n < length (dumps (commands_to_json (commands t))) ->
  forall t',
    init (commands_file (save_commands_io (WriteFails n) t)) <> Ok t'.
Proof.
  intros Hn t'. unfold save_commands_io, init, load_commands.
  cbn [commands_file].
  destruct (loads (firstn n (dumps (commands_to_json (commands t)))))
    as [v|] eqn:El; [|discriminate].
  exfalso. exact (loads_truncated (commands t) n v Hn El).
Qed.

Lemma truncated_file_rejected_witness :
  40 < length (dumps (commands_to_json (commands one_entry_tracker)))
  /\ init (commands_file
             (save_commands_io (WriteFails 40) one_entry_tracker))
     <> Ok one_entry_tracker.
Proof.
  assert (H : 40 < length (dumps (commands_to_json
                                    (commands one_entry_tracker))))
    by (vm_compute; lia).
  split; [exact H|].
  apply (truncated_file_rejected one_entry_tracker 40 H).
Defined.
